(** * Smart Bell System: schedule store, bell scheduler, emergency controller

    A shallow embedding of [SmartBell.ino].  The sketch keeps all of its state
    in global variables and talks to four devices: the relay pin, the DS3231
    clock, the push buttons and the [/config.json] file on LittleFS.  The
    embedding keeps the globals in records with the source's names, threads
    them through every function, and records the outputs (pin writes, blocking
    delays, file writes, HTTP replies) in a chronological log.  Values read
    from a device during a call (clock, pins, [millis()]) are parameters of
    the call.

    Fixed-size C arrays are lists of the declared length; an index outside the
    array is undefined behaviour in the source and makes the embedded function
    return [None]. *)

From stdpp Require Import prelude strings.

Open Scope Z_scope.

(** ** Constants of the sketch *)

Definition MAX_PRESETS : Z := 15.
Definition MAX_BELLS_PER_PRESET : Z := 15.
Definition DEFAULT_RELAY_DURATION : Z := 3000.

(** [unsigned long] and [uint32_t] are 32 bits wide on the ESP32. *)
Definition u32 (z : Z) : Z := z mod 2 ^ 32.

(** ** Data structures *)

Record Bell := mkBell {
  hour : Z;
  minute : Z;
  triggeredToday : bool
}.

Record Preset := mkPreset {
  name : string;
  bells : list Bell;          (* Bell bells[MAX_BELLS_PER_PRESET] *)
  bellCount : Z
}.

(** The schedule globals. *)
Record Store := mkStore {
  presets : list Preset;      (* Preset presets[MAX_PRESETS] *)
  presetCount : Z;
  activePresetIndex : Z;
  lastDay : Z;
  bellDuration : Z
}.

(** Button, switch and emergency globals, and the static of [loop]. *)
Record Control := mkControl {
  emergencyActive : bool;
  emergencyStartTime : Z;
  emergencyPhase : Z;
  lastEmergencyBtnState : bool;     (* HIGH is [true] *)
  lastManualBellState : bool;
  displayToggleState : bool;
  lastDisplayToggleState : bool;
  lastDebounceTime : Z;
  lastDisplayUpdate : Z
}.

(** The document in [/config.json], with the members [saveData] writes.  Any
    of them may be missing: ArduinoJson then yields the default given after
    [|], zero for an implicit conversion to [int], the text [null] for
    [as<String>()] and a null reference for an array or an object.  A name
    can also be there with the value [null]. *)
Inductive JString :=
| Absent
| Null
| Text (v : string).

Record JBell := mkJBell {
  j_hour : option Z;
  j_minute : option Z;
  j_triggered : option bool
}.

Record JPreset := mkJPreset {
  j_name : JString;
  j_bellCount : option Z;
  j_bells : option (list JBell)
}.

Record JDoc := mkJDoc {
  j_presetCount : option Z;
  j_activePreset : option Z;
  j_bellDuration : option Z;
  j_presets : option (list JPreset)
}.

Inductive ConfigFile :=
| NoFile                      (* LittleFS.open fails *)
| Garbage                     (* deserializeJson reports a syntax error *)
| Json (doc : JDoc).

(** Outputs, in the order in which they happen. *)
Inductive Event :=
| EvRelay (level : bool)      (* digitalWrite(RELAY_PIN, level) *)
| EvDelay (ms : Z)            (* delay(ms): the loop is blocked for ms *)
| EvSave (doc : JDoc)         (* serializeJson(doc, file) *)
| EvSend (code : Z) (body : string).   (* server.send(code, "text/plain", body) *)

Record Device := mkDevice {
  relay : bool;               (* level of RELAY_PIN *)
  config : ConfigFile;        (* content of /config.json *)
  fsOk : bool;                (* LittleFS.open(path, "w") succeeds *)
  log : list Event
}.

Record State := mkState {
  store : Store;
  ctl : Control;
  dev : Device
}.

(** What [rtc.now()] returns. *)
Record DateTime := mkDateTime {
  dt_year : Z;
  dt_month : Z;
  dt_day : Z;
  dt_hour : Z;
  dt_minute : Z;
  dt_second : Z
}.

(** ** Field updates *)

Definition set_triggeredToday (v : bool) (b : Bell) : Bell :=
  mkBell (hour b) (minute b) v.
Definition set_hour (v : Z) (b : Bell) : Bell :=
  mkBell v (minute b) (triggeredToday b).
Definition set_minute (v : Z) (b : Bell) : Bell :=
  mkBell (hour b) v (triggeredToday b).

Definition set_name (v : string) (p : Preset) : Preset :=
  mkPreset v (bells p) (bellCount p).
Definition set_bells (v : list Bell) (p : Preset) : Preset :=
  mkPreset (name p) v (bellCount p).
Definition set_bellCount (v : Z) (p : Preset) : Preset :=
  mkPreset (name p) (bells p) v.

Definition set_presets (v : list Preset) (st : Store) : Store :=
  mkStore v (presetCount st) (activePresetIndex st) (lastDay st) (bellDuration st).
Definition set_presetCount (v : Z) (st : Store) : Store :=
  mkStore (presets st) v (activePresetIndex st) (lastDay st) (bellDuration st).
Definition set_activePresetIndex (v : Z) (st : Store) : Store :=
  mkStore (presets st) (presetCount st) v (lastDay st) (bellDuration st).
Definition set_lastDay (v : Z) (st : Store) : Store :=
  mkStore (presets st) (presetCount st) (activePresetIndex st) v (bellDuration st).
Definition set_bellDuration (v : Z) (st : Store) : Store :=
  mkStore (presets st) (presetCount st) (activePresetIndex st) (lastDay st) v.

Definition set_store (v : Store) (s : State) : State := mkState v (ctl s) (dev s).
Definition set_ctl (v : Control) (s : State) : State := mkState (store s) v (dev s).
Definition set_dev (v : Device) (s : State) : State := mkState (store s) (ctl s) v.

Definition emit (e : Event) (s : State) : State :=
  set_dev (mkDevice (relay (dev s)) (config (dev s)) (fsOk (dev s)) (log (dev s) ++ [e])) s.

(** ** Arrays and counted loops *)

(** [a[i]] as an rvalue. *)
Definition at_index {A} (a : list A) (i : Z) : option A :=
  if bool_decide (0 ≤ i) then a !! Z.to_nat i else None.

(** [a[i] = f(a[i])]. *)
Definition modify_index {A} (i : Z) (f : A → option A) (a : list A) : option (list A) :=
  x ← at_index a i; y ← f x; Some (<[Z.to_nat i := y]> a).

(** [for (int i = from; i < to; i++) body]: the sketch never changes a loop
    bound inside the loop, so the number of iterations is known on entry. *)
Fixpoint iterate {St} (n : nat) (i : Z) (body : Z → St → option St) (s : St) : option St :=
  match n with
  | O => Some s
  | S n' => s' ← body i s; iterate n' (i + 1) body s'
  end.

Definition for_range {St} (from to : Z) (body : Z → St → option St) (s : St) : option St :=
  iterate (Z.to_nat (to - from)) from body s.

(** [presets[i].field = ...] and [presets[i].bells[j].field = ...]. *)
Definition modPreset (i : Z) (f : Preset → option Preset) (st : Store) : option Store :=
  ps ← modify_index i f (presets st); Some (set_presets ps st).

Definition modBell (j : Z) (f : Bell → Bell) (p : Preset) : option Preset :=
  bs ← modify_index j (λ b, Some (f b)) (bells p); Some (set_bells bs p).

(** ** Relay *)

Definition digitalWrite (level : bool) (s : State) : State :=
  emit (EvRelay level)
    (set_dev (mkDevice level (config (dev s)) (fsOk (dev s)) (log (dev s))) s).

(** [delay] takes a [uint32_t]. *)
Definition delay (ms : Z) (s : State) : State := emit (EvDelay (u32 ms)) s.

Definition triggerBell (duration : Z) (s : State) : State :=
  let duration := if duration =? 0 then bellDuration (store s) else duration in
  digitalWrite false (delay duration (digitalWrite true s)).

(** ** The JSON document

    [saveData] and [loadData] declare a [StaticJsonDocument<8192>]: with
    ArduinoJson 6 that is a document in a pool of 8192 bytes, which never
    grows.  Every member of an object and every element of an array takes
    one slot of the pool, 16 bytes on the 32-bit ESP32; numbers and booleans
    live in their slot.  A key given as a literal is kept by its address.  A
    [String] is copied into the pool with its terminating zero, and so is
    every key and every text of a file that is parsed.  An insertion that
    finds no room is dropped and the document stays as it is;
    [deserializeJson] reports an error when the pool cannot hold the file. *)

Definition JSON_CAPACITY : Z := 8192.
Definition JSON_SLOT : Z := 16.

Definition stringSize (v : string) : Z := Z.of_nat (String.length v) + 1.

(** One slot, granted while there is room; [room] is the number of free
    bytes.  The room only shrinks, so once a slot has been refused every
    later one is refused: an insertion into an object or an array that could
    not be created, which the library ignores, is refused here as well. *)
Definition addSlot (room : Z) : bool * Z :=
  if JSON_SLOT <=? room then (true, room - JSON_SLOT) else (false, room).

(** [obj[key] = v] for a number or a boolean. *)
Definition setMember {A} (v : A) (room : Z) : option A * Z :=
  let '(ok, room) := addSlot room in
  (if ok then Some v else None, room).

(** [obj[key] = v] for a [String]: the slot first, then the copy of the
    text; the member stays [null] when the copy finds no room. *)
Definition setString (v : string) (room : Z) : JString * Z :=
  let '(ok, room) := addSlot room in
  if ok then
    if stringSize v <=? room then (Text v, room - stringSize v) else (Null, room)
  else (Absent, room).

(** A counted loop in which each iteration tries to append one element to
    an array of the document. *)
Fixpoint gatherIn {A} (n : nat) (i : Z) (f : Z → Z → option (option A * Z)) (room : Z)
    : option (list A * Z) :=
  match n with
  | O => Some ([], room)
  | S n' =>
    r ← f i room;
    rs ← gatherIn n' (i + 1) f r.2;
    Some (option_list r.1 ++ rs.1, rs.2)
  end.

Definition for_gatherIn {A} (from to : Z) (f : Z → Z → option (option A * Z)) (room : Z)
    : option (list A * Z) :=
  gatherIn (Z.to_nat (to - from)) from f room.

(** The bytes a document takes in the pool; with [copy] the keys are copied
    too, as they are when a file is parsed. *)
Definition keySize (copy : bool) (key : string) : Z :=
  if copy then stringSize key else 0.

Definition memberSize {A} (copy : bool) (key : string) (v : option A) : Z :=
  match v with
  | Some _ => JSON_SLOT + keySize copy key
  | None => 0
  end.

Definition textSize (copy : bool) (key : string) (v : JString) : Z :=
  match v with
  | Absent => 0
  | Null => JSON_SLOT + keySize copy key
  | Text x => JSON_SLOT + keySize copy key + stringSize x
  end.

Definition arraySize {A} (copy : bool) (key : string) (size : A → Z) (v : option (list A)) : Z :=
  match v with
  | Some l => JSON_SLOT + keySize copy key + foldr (λ x z, JSON_SLOT + size x + z) 0 l
  | None => 0
  end.

Definition bellSize (copy : bool) (o : JBell) : Z :=
  memberSize copy "hour" (j_hour o) + memberSize copy "minute" (j_minute o) +
  memberSize copy "triggered" (j_triggered o).

Definition presetSize (copy : bool) (o : JPreset) : Z :=
  textSize copy "name" (j_name o) + memberSize copy "bellCount" (j_bellCount o) +
  arraySize copy "bells" (bellSize copy) (j_bells o).

Definition docSize (copy : bool) (doc : JDoc) : Z :=
  memberSize copy "presetCount" (j_presetCount doc) +
  memberSize copy "activePreset" (j_activePreset doc) +
  memberSize copy "bellDuration" (j_bellDuration doc) +
  arraySize copy "presets" (presetSize copy) (j_presets doc).

(** ** Persistence *)

(** [bellsArray.createNestedObject()] and the three members of a bell. *)
Definition bellObj (b : Bell) (room : Z) : option JBell * Z :=
  let '(obj, room) := addSlot room in
  let '(h, room) := setMember (hour b) room in
  let '(m, room) := setMember (minute b) room in
  let '(t, room) := setMember (triggeredToday b) room in
  (if obj then Some (mkJBell h m t) else None, room).

(** [presetsArray.createNestedObject()], the members of a preset and the
    loop over its bells. *)
Definition presetObj (p : Preset) (room : Z) : option (option JPreset * Z) :=
  let '(obj, room) := addSlot room in
  let '(nm, room) := setString (name p) room in
  let '(bc, room) := setMember (bellCount p) room in
  let '(arr, room) := addSlot room in
  bs ← for_gatherIn 0 (bellCount p)
         (λ j room, b ← at_index (bells p) j; Some (bellObj b room)) room;
  Some (if obj then Some (mkJPreset nm bc (if arr then Some bs.1 else None)) else None,
        bs.2).

Definition buildDoc (st : Store) : option JDoc :=
  let '(pc, room) := setMember (presetCount st) JSON_CAPACITY in
  let '(ap, room) := setMember (activePresetIndex st) room in
  let '(bd, room) := setMember (bellDuration st) room in
  let '(arr, room) := addSlot room in
  ps ← for_gatherIn 0 (presetCount st)
         (λ i room, p ← at_index (presets st) i; presetObj p room) room;
  Some (mkJDoc pc ap bd (if arr then Some ps.1 else None)).

Definition saveData (s : State) : option State :=
  doc ← buildDoc (store s);
  if fsOk (dev s) then
    Some (emit (EvSave doc)
            (set_dev (mkDevice (relay (dev s)) (Json doc) (fsOk (dev s)) (log (dev s))) s))
  else Some s.

(** [array[i]] on a JSON array: a null object past the end, and at every
    index of an array that is missing. *)
Definition nullBell : JBell := mkJBell None None None.
Definition nullPreset : JPreset := mkJPreset Absent None None.

Definition json_at {A} (dflt : A) (a : option (list A)) (i : Z) : A :=
  match a with
  | Some l => match at_index l i with Some x => x | None => dflt end
  | None => dflt
  end.

Definition as_String (v : JString) : string :=
  match v with Text x => x | _ => "null" end.

Definition loadBell (i j : Z) (o : JBell) (st : Store) : option Store :=
  st ← modPreset i (modBell j (set_hour (default 0 (j_hour o)))) st;
  st ← modPreset i (modBell j (set_minute (default 0 (j_minute o)))) st;
  modPreset i (modBell j (set_triggeredToday (default false (j_triggered o)))) st.

Definition loadPreset (i : Z) (o : JPreset) (st : Store) : option Store :=
  st ← modPreset i (λ p, Some (set_name (as_String (j_name o)) p)) st;
  st ← modPreset i (λ p, Some (set_bellCount (default 0 (j_bellCount o)) p)) st;
  p ← at_index (presets st) i;
  for_range 0 (Z.min (bellCount p) MAX_BELLS_PER_PRESET)
    (λ j st, loadBell i j (json_at nullBell (j_bells o) j) st) st.

(** [deserializeJson] fails, and [loadData] returns, when the file is not
    JSON or does not fit the pool. *)
Definition loadData (s : State) : option State :=
  match config (dev s) with
  | NoFile => Some s
  | Garbage => Some s
  | Json doc =>
    if docSize true doc <=? JSON_CAPACITY then
      let st := set_presetCount (default 0 (j_presetCount doc)) (store s) in
      let st := set_activePresetIndex (default (-1) (j_activePreset doc)) st in
      let st := set_bellDuration (default DEFAULT_RELAY_DURATION (j_bellDuration doc)) st in
      st ← for_range 0 (Z.min (presetCount st) MAX_PRESETS)
              (λ i st, loadPreset i (json_at nullPreset (j_presets doc) i) st) st;
      Some (set_store st s)
    else Some s
  end.

(** ** Power-on state and [setup] *)

Definition zeroBell : Bell := mkBell 0 0 false.
Definition zeroPreset : Preset :=
  mkPreset EmptyString (replicate (Z.to_nat MAX_BELLS_PER_PRESET) zeroBell) 0.

Definition initStore : Store :=
  mkStore (replicate (Z.to_nat MAX_PRESETS) zeroPreset) 0 (-1) (-1) DEFAULT_RELAY_DURATION.

Definition initControl : Control :=
  mkControl false 0 0 true true false true 0 0.

(** The globals after a reset; the flash file system keeps its content. *)
Definition powerOn (file : ConfigFile) (writable : bool) : State :=
  mkState initStore initControl (mkDevice false file writable []).

(** [setup] with the file system mounted: [setupRelay] drives the pin low
    and [loadData] reads the configuration (the other steps initialise the
    display, the access point and the web server). *)
Definition setup (s : State) : option State :=
  loadData (digitalWrite false s).

(** ** Bell scheduler *)

(** The new-day branch of [checkBells]. *)
Definition resetTriggers (st : Store) : option Store :=
  for_range 0 (presetCount st) (λ i st,
    p ← at_index (presets st) i;
    for_range 0 (bellCount p) (λ j st,
      modPreset i (modBell j (set_triggeredToday false)) st) st) st.

Definition dayRollover (now : DateTime) (s : State) : option State :=
  if bool_decide (lastDay (store s) ≠ dt_day now) then
    st ← resetTriggers (set_lastDay (dt_day now) (store s));
    saveData (set_store st s)
  else Some s.

Definition bellDue (now : DateTime) (bell : Bell) : bool :=
  negb (triggeredToday bell) && (hour bell =? dt_hour now) && (minute bell =? dt_minute now).

(** One iteration of the loop over the active preset's bells. *)
Definition checkBell (now : DateTime) (a i : Z) (s : State) : option State :=
  activePreset ← at_index (presets (store s)) a;
  bell ← at_index (bells activePreset) i;
  if bellDue now bell then
    let s := triggerBell 0 s in
    st ← modPreset a (modBell i (set_triggeredToday true)) (store s);
    saveData (set_store st s)
  else Some s.

Definition checkActive (now : DateTime) (s : State) : option State :=
  let a := activePresetIndex (store s) in
  if (0 <=? a) && (a <? presetCount (store s)) then
    activePreset ← at_index (presets (store s)) a;
    for_range 0 (bellCount activePreset) (checkBell now a) s
  else Some s.

(** [rtc] is [None] when [rtc.begin()] fails and the clock reading
    otherwise. *)
Definition checkBells (rtc : option DateTime) (s : State) : option State :=
  match rtc with
  | None => Some s
  | Some now => s ← dayRollover now s; checkActive now s
  end.

(** ** Emergency controller *)

Definition set_emergency (active : bool) (start phase : Z) (c : Control) : Control :=
  mkControl active start phase (lastEmergencyBtnState c) (lastManualBellState c)
    (displayToggleState c) (lastDisplayToggleState c) (lastDebounceTime c)
    (lastDisplayUpdate c).

(** [millis] is the value of [millis()] on entry, [millis'] its value when
    the phase timer is restarted. *)
Definition handleEmergency (millis millis' : Z) (s : State) : State :=
  let c := ctl s in
  let elapsed := u32 (millis - emergencyStartTime c) in
  if emergencyPhase c <? 9 then
    if emergencyPhase c `rem` 2 =? 0 then
      let s := digitalWrite true s in
      if 5000 <=? elapsed then
        set_ctl (set_emergency (emergencyActive c) (u32 millis') (emergencyPhase c + 1) c) s
      else s
    else
      let s := digitalWrite false s in
      if 1000 <=? elapsed then
        set_ctl (set_emergency (emergencyActive c) (u32 millis') (emergencyPhase c + 1) c) s
      else s
  else
    let s := digitalWrite false s in
    set_ctl (set_emergency false (emergencyStartTime c) (emergencyPhase c) c) s.

(** ** Buttons *)

(** The pin levels and [millis()] values that one call of [handleButtons]
    reads; the second reading of a push button is taken after the 50 ms
    debounce delay. *)
Record Pins := mkPins {
  emergencyBtn : bool;
  emergencyBtnAgain : bool;
  emergencyMillis : Z;
  displayToggle : bool;
  toggleMillis : Z;
  toggleMillis' : Z;
  manualBell : bool;
  manualBellAgain : bool
}.

Definition debounceDelay : Z := 50.

Definition buttonEmergency (p : Pins) (s : State) : State :=
  let c := ctl s in
  let s :=
    if negb (emergencyBtn p) && lastEmergencyBtnState c && negb (emergencyActive c) then
      let s := delay 50 s in
      if negb (emergencyBtnAgain p) then
        set_ctl (set_emergency true (u32 (emergencyMillis p)) 0 c) s
      else s
    else s in
  let c := ctl s in
  set_ctl (mkControl (emergencyActive c) (emergencyStartTime c) (emergencyPhase c)
             (emergencyBtn p) (lastManualBellState c) (displayToggleState c)
             (lastDisplayToggleState c) (lastDebounceTime c) (lastDisplayUpdate c)) s.

Definition switchDisplay (p : Pins) (s : State) : State :=
  let c := ctl s in
  let debounce :=
    if negb (eqb (displayToggle p) (lastDisplayToggleState c))
    then u32 (toggleMillis p) else lastDebounceTime c in
  let toggle :=
    if debounceDelay <? u32 (toggleMillis' p - debounce)
    then displayToggle p else displayToggleState c in
  set_ctl (mkControl (emergencyActive c) (emergencyStartTime c) (emergencyPhase c)
             (lastEmergencyBtnState c) (lastManualBellState c) toggle
             (displayToggle p) debounce (lastDisplayUpdate c)) s.

Definition switchManual (p : Pins) (s : State) : State :=
  let s :=
    if negb (manualBell p) && lastManualBellState (ctl s) then
      let s := delay 50 s in
      if negb (manualBellAgain p) then triggerBell 0 s else s
    else s in
  let c := ctl s in
  set_ctl (mkControl (emergencyActive c) (emergencyStartTime c) (emergencyPhase c)
             (lastEmergencyBtnState c) (manualBell p) (displayToggleState c)
             (lastDisplayToggleState c) (lastDebounceTime c) (lastDisplayUpdate c)) s.

Definition handleButtons (p : Pins) (s : State) : State :=
  switchManual p (switchDisplay p (buttonEmergency p s)).

(** ** HTTP handlers

    Each handler takes the request arguments after [toInt()].  The three GET
    routes only read the globals and are left out. *)

Definition send (code : Z) (body : string) (s : State) : State :=
  emit (EvSend code body) s.

Definition handleAddPreset (name : string) (s : State) : option State :=
  let st := store s in
  if MAX_PRESETS <=? presetCount st then
    Some (send 400 "Maximum presets reached" s)
  else if (String.length name =? 0)%nat then
    Some (send 400 "Name required" s)
  else
    st ← modPreset (presetCount st) (λ p, Some (set_name name p)) st;
    st ← modPreset (presetCount st) (λ p, Some (set_bellCount 0 p)) st;
    let st := set_presetCount (presetCount st + 1) st in
    s ← saveData (set_store st s);
    Some (send 200 "Preset added" s).

Definition handleDeletePreset (id : Z) (s : State) : option State :=
  let st := store s in
  if (id <? 0) || (presetCount st <=? id) then
    Some (send 400 "Invalid preset ID" s)
  else
    st ← for_range id (presetCount st - 1) (λ i st,
            next ← at_index (presets st) (i + 1);
            modPreset i (λ _, Some next) st) st;
    let st := set_presetCount (presetCount st - 1) st in
    let st :=
      if activePresetIndex st =? id then set_activePresetIndex (-1) st
      else if id <? activePresetIndex st
           then set_activePresetIndex (activePresetIndex st - 1) st
           else st in
    s ← saveData (set_store st s);
    Some (send 200 "Preset deleted" s).

Definition handleAddBell (presetId hour minute : Z) (s : State) : option State :=
  let st := store s in
  if (presetId <? 0) || (presetCount st <=? presetId) then
    Some (send 400 "Invalid preset ID" s)
  else
    p ← at_index (presets st) presetId;
    if MAX_BELLS_PER_PRESET <=? bellCount p then
      Some (send 400 "Maximum bells reached for this preset" s)
    else if (hour <? 0) || (23 <? hour) || (minute <? 0) || (59 <? minute) then
      Some (send 400 "Invalid time" s)
    else
      st ← modPreset presetId (modBell (bellCount p) (set_hour hour)) st;
      st ← modPreset presetId (modBell (bellCount p) (set_minute minute)) st;
      st ← modPreset presetId (modBell (bellCount p) (set_triggeredToday false)) st;
      st ← modPreset presetId (λ q, Some (set_bellCount (bellCount q + 1) q)) st;
      s ← saveData (set_store st s);
      Some (send 200 "Bell added" s).

Definition handleDeleteBell (presetId bellId : Z) (s : State) : option State :=
  let st := store s in
  if (presetId <? 0) || (presetCount st <=? presetId) then
    Some (send 400 "Invalid preset ID" s)
  else
    p ← at_index (presets st) presetId;
    if (bellId <? 0) || (bellCount p <=? bellId) then
      Some (send 400 "Invalid bell ID" s)
    else
      st ← for_range bellId (bellCount p - 1) (λ i st,
              modPreset presetId (λ q,
                next ← at_index (bells q) (i + 1);
                modBell i (λ _, next) q) st) st;
      st ← modPreset presetId (λ q, Some (set_bellCount (bellCount q - 1) q)) st;
      s ← saveData (set_store st s);
      Some (send 200 "Bell deleted" s).

Definition handleSetActive (id : Z) (s : State) : option State :=
  let st := store s in
  if (id <? -1) || (presetCount st <=? id) then
    Some (send 400 "Invalid preset ID" s)
  else
    s ← saveData (set_store (set_activePresetIndex id st) s);
    Some (send 200 "Active preset set" s).

Definition handleSetDuration (duration : Z) (s : State) : option State :=
  if (duration <? 100) || (30000 <? duration) then
    Some (send 400 "Duration must be between 100ms and 30000ms" s)
  else
    s ← saveData (set_store (set_bellDuration duration (store s)) s);
    Some (send 200 "Bell duration updated" s).

Inductive Request :=
| AddPreset (name : string)
| DeletePreset (id : Z)
| AddBell (preset hour minute : Z)
| DeleteBell (preset bell : Z)
| SetActive (id : Z)
| SetDuration (duration : Z).

Definition handleRequest (r : Request) (s : State) : option State :=
  match r with
  | AddPreset name => handleAddPreset name s
  | DeletePreset id => handleDeletePreset id s
  | AddBell preset hour minute => handleAddBell preset hour minute s
  | DeleteBell preset bell => handleDeleteBell preset bell s
  | SetActive id => handleSetActive id s
  | SetDuration duration => handleSetDuration duration s
  end.

(** [server.handleClient()] with at most one pending request. *)
Definition handleClient (r : option Request) (s : State) : option State :=
  match r with
  | None => Some s
  | Some r => handleRequest r s
  end.

(** ** Control loop *)

(** Everything one iteration of [loop] reads from outside. *)
Record Tick := mkTick {
  request : option Request;
  pins : Pins;
  rtc : option DateTime;
  emergMillis : Z;
  emergMillis' : Z;
  displayMillis : Z;
  displayMillis' : Z
}.

(** [updateDisplay] draws on the OLED and changes no global. *)
Definition refreshDisplay (t : Tick) (s : State) : State :=
  let c := ctl s in
  if 1000 <? u32 (displayMillis t - lastDisplayUpdate c) then
    set_ctl (mkControl (emergencyActive c) (emergencyStartTime c) (emergencyPhase c)
               (lastEmergencyBtnState c) (lastManualBellState c) (displayToggleState c)
               (lastDisplayToggleState c) (lastDebounceTime c) (u32 (displayMillis' t))) s
  else s.

(** The branch of [loop] that picks the emergency controller or the
    scheduler. *)
Definition dispatch (t : Tick) (s : State) : option State :=
  if emergencyActive (ctl s) then
    Some (handleEmergency (emergMillis t) (emergMillis' t) s)
  else checkBells (rtc t) s.

Definition loop (t : Tick) (s : State) : option State :=
  s ← handleClient (request t) s;
  s ← dispatch t (handleButtons (pins t) s);
  Some (delay 10 (refreshDisplay t s)).

(** ** Specification vocabulary *)

(** The array types of the sketch: fifteen presets of fifteen bells. *)
Definition shapedPreset (p : Preset) : bool :=
  bool_decide (length (bells p) = Z.to_nat MAX_BELLS_PER_PRESET).

Definition shaped (st : Store) : bool :=
  bool_decide (length (presets st) = Z.to_nat MAX_PRESETS) && forallb shapedPreset (presets st).

(** The presets and bells that are in use: the first [presetCount] entries
    of [presets], each with its first [bellCount] bells. *)
Definition counted (st : Store) : list Preset :=
  take (Z.to_nat (presetCount st)) (presets st).

Definition bellsOf (p : Preset) : list Bell :=
  take (Z.to_nat (bellCount p)) (bells p).

Definition contents (st : Store) : list (string * list Bell) :=
  (λ p, (name p, bellsOf p)) <$> counted st.

Definition bellCountOk (p : Preset) : bool :=
  (0 <=? bellCount p) && (bellCount p <=? MAX_BELLS_PER_PRESET).

Definition activeOk (st : Store) : bool :=
  (activePresetIndex st =? -1) ||
  ((0 <=? activePresetIndex st) && (activePresetIndex st <? presetCount st)).

(** The invariants of the schedule store. *)
Definition storeInv (st : Store) : bool :=
  (0 <=? presetCount st) && (presetCount st <=? MAX_PRESETS) &&
  forallb bellCountOk (counted st) && activeOk st.

Definition valid (st : Store) : bool := shaped st && storeInv st.

(** The document of a store: every counted preset with every counted
    bell. *)
Definition bellDoc (b : Bell) : JBell :=
  mkJBell (Some (hour b)) (Some (minute b)) (Some (triggeredToday b)).

Definition presetDoc (p : Preset) : JPreset :=
  mkJPreset (Text (name p)) (Some (bellCount p)) (Some (bellDoc <$> bellsOf p)).

Definition fullDoc (st : Store) : JDoc :=
  mkJDoc (Some (presetCount st)) (Some (activePresetIndex st)) (Some (bellDuration st))
         (Some (presetDoc <$> counted st)).

(** The store's document fits the pool when it is built, and when it is
    parsed. *)
Definition fitsSave (st : Store) : bool := docSize false (fullDoc st) <=? JSON_CAPACITY.
Definition fitsLoad (st : Store) : bool := docSize true (fullDoc st) <=? JSON_CAPACITY.

(** The document [saveData] builds from a valid store: the counted presets
    and bells, inserted in order, as far as the pool takes them. *)
Fixpoint insertAll {A B} (ins : A → Z → option B * Z) (l : list A) (room : Z) : list B * Z :=
  match l with
  | [] => ([], room)
  | x :: l =>
    let r := ins x room in
    let rs := insertAll ins l r.2 in
    (option_list r.1 ++ rs.1, rs.2)
  end.

Definition presetIn (p : Preset) (room : Z) : option JPreset * Z :=
  let '(obj, room) := addSlot room in
  let '(nm, room) := setString (name p) room in
  let '(bc, room) := setMember (bellCount p) room in
  let '(arr, room) := addSlot room in
  let bs := insertAll bellObj (bellsOf p) room in
  (if obj then Some (mkJPreset nm bc (if arr then Some bs.1 else None)) else None, bs.2).

Definition docOf (st : Store) : JDoc :=
  let '(pc, room) := setMember (presetCount st) JSON_CAPACITY in
  let '(ap, room) := setMember (activePresetIndex st) room in
  let '(bd, room) := setMember (bellDuration st) room in
  let '(arr, room) := addSlot room in
  let ps := insertAll presetIn (counted st) room in
  mkJDoc pc ap bd (if arr then Some ps.1 else None).

(** [f] applied to the first [n] elements of an array. *)
Definition mapPrefix {A} (n : nat) (f : A → A) (l : list A) : list A :=
  (f <$> take n l) ++ drop n l.

(** Relay activity in a log: the pin writes and the blocking delays. *)
Definition relayEvents (l : list Event) : list Event :=
  omap (λ e, match e with
             | EvRelay _ | EvDelay _ => Some e
             | _ => None
             end) l.

Definition pulse (ms : Z) : list Event := [EvRelay true; EvDelay ms; EvRelay false].

(** The effect of a [saveData] that stays inside the arrays. *)
Definition persist (s : State) : State :=
  if fsOk (dev s) then
    emit (EvSave (docOf (store s)))
      (set_dev (mkDevice (relay (dev s)) (Json (docOf (store s))) (fsOk (dev s)) (log (dev s))) s)
  else s.

(** The store after the new-day branch: every counted bell of every
    counted preset has its flag cleared. *)
Definition clearPreset (p : Preset) : Preset :=
  set_bells (mapPrefix (Z.to_nat (bellCount p)) (set_triggeredToday false) (bells p)) p.

Definition newDay (day : Z) (st : Store) : Store :=
  set_presets (mapPrefix (Z.to_nat (presetCount st)) clearPreset (presets st))
    (set_lastDay day st).

Definition rolled (now : DateTime) (st : Store) : Store :=
  if bool_decide (lastDay st ≠ dt_day now) then newDay (dt_day now) st else st.

(** The same on the contents of the store. *)
Definition clearFlags (e : string * list Bell) : string * list Bell :=
  (e.1, set_triggeredToday false <$> e.2).

(** The store after the match loop: every due bell of the active preset
    is flagged. *)
Definition fire (now : DateTime) (b : Bell) : Bell :=
  if bellDue now b then set_triggeredToday true b else b.

Definition firePreset (now : DateTime) (k : nat) (p : Preset) : Preset :=
  set_bells (mapPrefix k (fire now) (bells p)) p.

Definition hasActive (st : Store) : bool :=
  (0 <=? activePresetIndex st) && (activePresetIndex st <? presetCount st).

Definition fireDue (now : DateTime) (st : Store) : Store :=
  if hasActive st then
    match presets st !! Z.to_nat (activePresetIndex st) with
    | Some p =>
      set_presets (<[Z.to_nat (activePresetIndex st) :=
                      firePreset now (Z.to_nat (bellCount p)) p]> (presets st)) st
    | None => st
    end
  else st.

(** The counted bells of the active preset, in index order. *)
Definition activeBells (st : Store) : list Bell :=
  if hasActive st then
    match presets st !! Z.to_nat (activePresetIndex st) with
    | Some p => bellsOf p
    | None => []
    end
  else [].

(** One pulse of [ms] milliseconds for each due bell. *)
Definition duePulses (now : DateTime) (ms : Z) (bs : list Bell) : list Event :=
  concat ((λ b, if bellDue now b then pulse ms else []) <$> bs).

(** The invariant of the match loop after the first [k] bells of preset [a]. *)
Definition matchInv (now : DateTime) (s : State) (a : nat) (p : Preset)
    (k : Z) (s' : State) : Prop :=
  store s' = set_presets (<[a := firePreset now (Z.to_nat k) p]> (presets (store s))) (store s) ∧
  ctl s' = ctl s ∧
  fsOk (dev s') = fsOk (dev s) ∧
  (∃ evs, log (dev s') = log (dev s) ++ evs ∧
          relayEvents evs =
          duePulses now (u32 (bellDuration (store s))) (take (Z.to_nat k) (bells p))) ∧
  (fsOk (dev s) = true →
   Exists (λ b, bellDue now b = true) (take (Z.to_nat k) (bells p)) →
   config (dev s') = Json (docOf (store s'))) ∧
  (Forall (λ b, bellDue now b = false) (take (Z.to_nat k) (bells p)) → s' = s).

(** ** A sample timetable

    Preset [Weekday] with bells at 08:00 and 12:30, selected as the active
    preset, before any bell has rung. *)
Definition weekdayPreset : Preset :=
  mkPreset "Weekday"
    (mkBell 8 0 false :: mkBell 12 30 false :: replicate 13 zeroBell) 2.

Definition weekdayStore : Store :=
  mkStore (weekdayPreset :: replicate 14 zeroPreset) 1 0 (-1) DEFAULT_RELAY_DURATION.

Definition weekdayState : State :=
  mkState weekdayStore initControl (mkDevice false NoFile true []).

Definition eightOClock : DateTime := mkDateTime 2024 1 5 8 0 0.

(** A press of the manual bell switch: low on both readings, nothing on the
    emergency button, the display switch at rest. *)
Definition manualPress : Pins := mkPins true true 0 true 0 0 false false.

(** [l'] is [l] after [for (j = i; j < k; j++) l[j] = l[j + 1]]. *)
Definition shifted {A} (i k : nat) (l l' : list A) : Prop :=
  length l' = length l ∧
  ∀ j, l' !! j = if decide (i ≤ j < k)%nat then l !! S j else l !! j.

(** The selector after [handleDeletePreset] accepted [id]. *)
Definition activeAfterDelete (id : Z) (st : Store) : Store :=
  if activePresetIndex st =? id then set_activePresetIndex (-1) st
  else if id <? activePresetIndex st
       then set_activePresetIndex (activePresetIndex st - 1) st
       else st.

(** Two presets in use, the second one active: [Weekday] and [Exam]. *)
Definition examPreset : Preset :=
  mkPreset "Exam" (mkBell 9 0 false :: replicate 14 zeroBell) 1.

Definition twoPresetState : State :=
  mkState
    (mkStore (weekdayPreset :: examPreset :: replicate 13 zeroPreset) 2 1 5
             DEFAULT_RELAY_DURATION)
    initControl (mkDevice false NoFile true []).

(** [g j] applied to element [j] for the first [n] indices of an array. *)
Definition imapPrefix {A} (n : nat) (g : nat → A → A) (l : list A) : list A :=
  imap (λ j x, if decide (j < n)%nat then g j x else x) l.

(** What [loadData] leaves in the arrays: bell [j] of a preset and preset
    [i] of the store after reading their JSON objects. *)
Definition ofJBell (o : JBell) : Bell :=
  mkBell (default 0 (j_hour o)) (default 0 (j_minute o)) (default false (j_triggered o)).

Definition loadedPreset (o : JPreset) (q : Preset) : Preset :=
  mkPreset (as_String (j_name o))
    (imapPrefix (Z.to_nat (Z.min (default 0 (j_bellCount o)) MAX_BELLS_PER_PRESET))
       (λ j _, ofJBell (json_at nullBell (j_bells o) (Z.of_nat j))) (bells q))
    (default 0 (j_bellCount o)).

Definition loadedStore (doc : JDoc) (st : Store) : Store :=
  mkStore
    (imapPrefix (Z.to_nat (Z.min (default 0 (j_presetCount doc)) MAX_PRESETS))
       (λ i q, loadedPreset (json_at nullPreset (j_presets doc) (Z.of_nat i)) q)
       (presets st))
    (default 0 (j_presetCount doc))
    (default (-1) (j_activePreset doc))
    (lastDay st)
    (default DEFAULT_RELAY_DURATION (j_bellDuration doc)).

(** A configuration file that announces sixteen presets, and one whose
    selector points at a preset that does not exist. *)
Definition oversizedDoc : JDoc := mkJDoc (Some 16) (Some (-1)) (Some 3000) (Some []).
Definition danglingDoc : JDoc := mkJDoc (Some 0) (Some 3) (Some 3000) (Some []).

(** The sample timetable on the fifth of the month, after the 08:00 bell
    has rung. *)
Definition rungState : State :=
  mkState
    (mkStore
       (mkPreset "Weekday"
          (mkBell 8 0 true :: mkBell 12 30 false :: replicate 13 zeroBell) 2
        :: replicate 14 zeroPreset)
       1 0 5 DEFAULT_RELAY_DURATION)
    initControl (mkDevice false NoFile true []).

(** Save, reset, [setup]. *)
Definition restart (s : State) : option State :=
  s1 ← saveData s; setup (powerOn (config (dev s1)) (fsOk (dev s1))).

(** Requests served one after the other. *)
Fixpoint serve (rs : list Request) (s : State) : option State :=
  match rs with
  | [] => Some s
  | r :: rs => s ← handleRequest r s; serve rs s
  end.

(** Every preset in use, each with all its bells: fifteen timetables of
    fifteen bells, one every half hour from 08:00 to 15:00; and the requests
    that enter them after power-on. *)
Definition fullBells : list Bell :=
  (λ j : nat, mkBell (8 + Z.of_nat j `div` 2) (30 * (Z.of_nat j `mod` 2)) false) <$> seq 0 15.

Definition fullPreset : Preset := mkPreset "Weekday" fullBells 15.

Definition fullStore : Store :=
  mkStore (replicate 15 fullPreset) 15 0 (-1) DEFAULT_RELAY_DURATION.

Definition fullState : State :=
  mkState fullStore initControl (mkDevice false NoFile true []).

Definition fillPreset (i : Z) : list Request :=
  AddPreset "Weekday" :: ((λ b, AddBell i (hour b) (minute b)) <$> fullBells).

Definition fillRequests : list Request :=
  concat ((λ i : nat, fillPreset (Z.of_nat i)) <$> seq 0 15) ++ [SetActive 0].

(** ** The emergency session over real time

    [t k] is the time in milliseconds since power-on at which tick [k]
    enters [handleEmergency], [t' k] the time at which that tick restarts
    the phase timer; [millis()] returns these times modulo [2 ^ 32]. *)

(** The state after the first [n] ticks of a session. *)
Fixpoint emergencyRun (t t' : nat → Z) (n : nat) (s : State) : State :=
  match n with
  | O => s
  | S k => handleEmergency (t k) (t' k) (emergencyRun t t' k s)
  end.

(** The number of ticks among the first [n] that changed [emergencyPhase]. *)
Fixpoint transitions (t t' : nat → Z) (n : nat) (s : State) : nat :=
  match n with
  | O => O
  | S k =>
    let changed :=
      negb (emergencyPhase (ctl (emergencyRun t t' (S k) s)) =?
            emergencyPhase (ctl (emergencyRun t t' k s))) in
    (transitions t t' k s + if changed then 1 else 0)%nat
  end.

(** The phase table of the specification. *)
Definition phaseLevel (phase : Z) : bool :=
  match phase with
  | 0 | 2 | 4 | 6 | 8 => true
  | _ => false
  end.

Definition phaseDuration (phase : Z) : Z :=
  match phase with
  | 0 | 2 | 4 | 6 | 8 => 5000
  | _ => 1000
  end.

(** The specified session: the phase at tick [n] and the time at which
    that phase began, for a session activated at time [T0]. *)
Fixpoint sessionAt (t t' : nat → Z) (T0 : Z) (n : nat) : Z * Z :=
  match n with
  | O => (0, T0)
  | S k =>
    let '(phase, since) := sessionAt t t' T0 k in
    if (phase <? 9) && (phaseDuration phase <=? t k - since)
    then (phase + 1, t' k) else (phase, since)
  end.

(** The globals right after the emergency button was accepted at [T0]. *)
Definition activated (T0 : Z) : State :=
  set_ctl (set_emergency true (u32 T0) 0 initControl) (powerOn NoFile true).

(** A loop that reaches the emergency controller every 10 ms, and one that
    reaches it every 250 ms. *)
Definition every10ms (k : nat) : Z := 10 * Z.of_nat k.
Definition every250ms (k : nat) : Z := 250 * Z.of_nat k.

(** ** One iteration of [loop] *)

(** The levels written to the relay pin in a log. *)
Definition relayWrites (l : list Event) : list bool :=
  omap (λ e, match e with
             | EvRelay level => Some level
             | _ => None
             end) l.

(** The level [handleEmergency] writes in a given phase. *)
Definition emergencyLevel (phase : Z) : bool :=
  (phase <? 9) && (phase `rem` 2 =? 0).

(** [handleButtons] accepts a press of the manual bell switch. *)
Definition manualPressed (p : Pins) (s : State) : bool :=
  negb (manualBell p) && lastManualBellState (ctl s) && negb (manualBellAgain p).

(** During an active session nothing but the emergency controller writes
    the relay: the statement for one iteration of [loop]. *)
Definition emergencyOwnsRelay (tk : Tick) (s : State) : Prop :=
  ∀ s1 s',
    handleClient (request tk) s = Some s1 →
    emergencyActive (ctl (handleButtons (pins tk) s1)) = true →
    loop tk s = Some s' →
    store s' = store s1 ∧
    ∃ evs, log (dev s') = log (dev s1) ++ evs ∧
           relayWrites evs =
           [emergencyLevel (emergencyPhase (ctl (handleButtons (pins tk) s1)))].

(** The sample timetable with a session in its first OFF phase, and a tick
    on which the manual bell switch is pressed. *)
Definition offPhaseState : State :=
  set_ctl (set_emergency true 0 1 initControl) weekdayState.

Definition manualTick : Tick := mkTick None manualPress (Some eightOClock) 5100 5100 5100 5100.

(** ** More of the sketch: the status screen *)

(** The search for the next bell in [updateDisplay]; both screens run the
    same loop over the active preset.  The pair is [nextBellMinutes] and
    [found].  The products are [int] products in the sketch; they stay far
    from the limits of [int] for the hours that [handleAddBell] accepts. *)
Definition nextBellStep (currentMinutes : Z) (a i : Z) (st : Store) (acc : Z * bool)
    : option (Z * bool) :=
  p ← at_index (presets st) a;
  bell ← at_index (bells p) i;
  let bellMinutes := hour bell * 60 + minute bell in
  if negb (triggeredToday bell) && (currentMinutes <? bellMinutes) && (bellMinutes <? acc.1)
  then Some (bellMinutes, true) else Some acc.

Definition findNextBell (now : DateTime) (st : Store) : option (Z * bool) :=
  let a := activePresetIndex st in
  let currentMinutes := dt_hour now * 60 + dt_minute now in
  p ← at_index (presets st) a;
  for_range 0 (bellCount p) (λ i acc, nextBellStep currentMinutes a i st acc) (24 * 60, false).

(** The line of the screen that announces the next bell, outside an
    emergency session and with the clock read as [now]:
    [printf("%02d:%02d", nextBellMinutes / 60, nextBellMinutes % 60)], or
    one of the two fixed texts.  (The second screen prints no such line
    when [rtc.begin()] fails.) *)
Inductive NextLine :=
| NoActivePreset
| NoMoreBells
| NextAt (hh mm : Z).

Definition showNext (r : Z * bool) : NextLine :=
  let '(nextBellMinutes, found) := r in
  if found then NextAt (nextBellMinutes `quot` 60) (nextBellMinutes `rem` 60)
  else NoMoreBells.

Definition nextLine (now : DateTime) (st : Store) : option NextLine :=
  let a := activePresetIndex st in
  if (0 <=? a) && (a <? presetCount st) then
    r ← findNextBell now st; Some (showNext r)
  else Some NoActivePreset.

(** ** Vocabulary for the properties of the handlers and the loop *)

(** The minutes since midnight the screen compares. *)
Definition minutesOf (b : Bell) : Z := hour b * 60 + minute b.

(** A bell time that [handleAddBell] accepts. *)
Definition timeOk (b : Bell) : bool :=
  (0 <=? hour b) && (hour b <=? 23) && (0 <=? minute b) && (minute b <=? 59).

(** A bell the screen may announce: not rung, later than the clock. *)
Definition upcoming (now : DateTime) (b : Bell) : bool :=
  negb (triggeredToday b) && (dt_hour now * 60 + dt_minute now <? minutesOf b).

(** What a scheduler tick never changes: names, times, counts, selector and
    duration. *)
Definition timesOf (e : string * list Bell) : string * list (Z * Z) :=
  (e.1, (λ b, (hour b, minute b)) <$> e.2).

Definition timetable (st : Store) : list (string * list (Z * Z)) * Z * Z :=
  (timesOf <$> contents st, activePresetIndex st, bellDuration st).

(** Iterations of [loop], one per element of [ticks]. *)
Fixpoint runLoop (ticks : list Tick) (s : State) : option State :=
  match ticks with
  | [] => Some s
  | tk :: rest => s' ← loop tk s; runLoop rest s'
  end.

(** What every accepting handler does after it changed the store: it calls
    [saveData], which writes the file when it can be opened and does nothing
    otherwise, and answers 200 either way. *)
Definition accepted (reply : string) (s s' : State) : Prop :=
  ctl s' = ctl s ∧
  relay (dev s') = relay (dev s) ∧
  log (dev s') =
    log (dev s) ++ (if fsOk (dev s) then [EvSave (docOf (store s'))] else []) ++
    [EvSend 200 reply] ∧
  config (dev s') = (if fsOk (dev s) then Json (docOf (store s')) else config (dev s)).

(** The sample timetable with the flash file system unwritable. *)
Definition readOnlyState : State :=
  mkState weekdayStore initControl (mkDevice false NoFile false []).

(** A document without members, and three iterations of [loop] on the sample
    timetable: a request, a manual press, a tick at 08:00. *)
Definition emptyDoc : JDoc := mkJDoc None None None None.

Definition idlePins : Pins := mkPins true true 0 true 0 0 true true.

Definition sampleTicks : list Tick :=
  [mkTick (Some (AddBell 0 15 45)) idlePins None 0 0 1200 1200;
   mkTick None manualPress (Some eightOClock) 0 0 2400 2400;
   mkTick (Some (DeletePreset 0)) idlePins (Some eightOClock) 0 0 3600 3600].

(** Successive calls of [handleButtons], one per element of [ps]. *)
Definition pressAll (ps : list Pins) (s : State) : State :=
  foldl (λ s p, handleButtons p s) s ps.

(** The display switch reads differently on every call, starting from a
    level other than [prev], and each call takes at most 50 ms between its
    two [millis()] readings. *)
Fixpoint chatters (prev : bool) (ps : list Pins) : Prop :=
  match ps with
  | [] => True
  | p :: rest =>
    displayToggle p ≠ prev ∧
    0 ≤ toggleMillis' p - toggleMillis p ≤ 50 ∧
    chatters (displayToggle p) rest
  end.

(** The display switch bouncing: low, high, low on three calls 3 ms apart. *)
Definition bouncePins (level : bool) (at_ms : Z) : Pins :=
  mkPins true true 0 level at_ms (at_ms + 1) true true.

Definition bounce : list Pins :=
  [bouncePins false 100; bouncePins true 103; bouncePins false 106].

(** The earliest time, counted from the activation, at which each phase of
    an emergency session can begin: the durations of the phases before it. *)
Definition phaseBegins (phase : Z) : Z :=
  match phase with
  | 0 => 0
  | 1 => 5000
  | 2 => 6000
  | 3 => 11000
  | 4 => 12000
  | 5 => 17000
  | 6 => 18000
  | 7 => 23000
  | 8 => 24000
  | _ => 29000
  end.

(** What the search has found after looking at the bells [bs]: the earliest
    minute before midnight of a bell the screen may announce, if there is
    one. *)
Definition searched (now : DateTime) (bs : list Bell) (r : Z * bool) : Prop :=
  if r.2 then
    r.1 < 1440 ∧
    (∃ b, b ∈ bs ∧ upcoming now b = true ∧ minutesOf b = r.1) ∧
    ∀ b, b ∈ bs → upcoming now b = true → r.1 ≤ minutesOf b
  else
    r.1 = 1440 ∧ ∀ b, b ∈ bs → upcoming now b = true → 1440 ≤ minutesOf b.

(** What the line of the screen says about the store. *)
Definition describes (now : DateTime) (st : Store) (line : NextLine) : Prop :=
  match line with
  | NoActivePreset => hasActive st = false
  | NoMoreBells =>
    hasActive st = true ∧ ∀ b, b ∈ activeBells st → upcoming now b = false
  | NextAt hh mm =>
    hasActive st = true ∧
    ∃ b, b ∈ activeBells st ∧ upcoming now b = true ∧ hour b = hh ∧ minute b = mm ∧
         ∀ b', b' ∈ activeBells st → upcoming now b' = true → minutesOf b ≤ minutesOf b'
  end.


(** * Proofs *)

(** ** Arrays and loops *)

Lemma at_index_nat {A} (a : list A) (k : nat) : at_index a (Z.of_nat k) = a !! k.
Proof.
  unfold at_index. rewrite bool_decide_eq_true_2 by lia. by rewrite Nat2Z.id.
Qed.

Lemma at_index_Some {A} (a : list A) (i : Z) (x : A) :
  at_index a i = Some x ↔ 0 ≤ i ∧ a !! Z.to_nat i = Some x.
Proof.
  unfold at_index. destruct (bool_decide_reflect (0 ≤ i)); split.
  - by split.
  - by intros [_ ?].
  - done.
  - by intros [? _].
Qed.

Lemma at_index_lookup {A} (a : list A) (i : Z) :
  0 ≤ i → at_index a i = a !! Z.to_nat i.
Proof. intros. unfold at_index. by rewrite bool_decide_eq_true_2. Qed.

Lemma modify_index_Some {A} (a : list A) (i : Z) (f : A → option A) (x y : A) :
  0 ≤ i → a !! Z.to_nat i = Some x → f x = Some y →
  modify_index i f a = Some (<[Z.to_nat i := y]> a).
Proof.
  intros Hi Hx Hy. unfold modify_index. rewrite at_index_lookup, Hx by done.
  simpl. by rewrite Hy.
Qed.

Lemma iterate_inv {St} (P : nat → St → Prop) (n : nat) (i : Z)
    (body : Z → St → option St) (s : St) :
  P 0%nat s →
  (∀ k s', (k < n)%nat → P k s' → ∃ s'', body (i + Z.of_nat k) s' = Some s'' ∧ P (S k) s'') →
  ∃ s', iterate n i body s = Some s' ∧ P n s'.
Proof.
  revert P i s. induction n as [|n IH]; intros P i s H0 Hstep; simpl.
  - eauto.
  - destruct (Hstep 0%nat s) as (s1 & Hb & H1); [lia | done |].
    rewrite Z.add_0_r in Hb. rewrite Hb. simpl.
    apply (IH (λ k, P (S k))); [done |].
    intros k s' Hk HP. destruct (Hstep (S k) s') as (s'' & Hb' & HP'); [lia | done |].
    exists s''. split; [| done]. rewrite <- Hb'. f_equal. lia.
Qed.

Lemma for_range_inv {St} (P : Z → St → Prop) (from to : Z)
    (body : Z → St → option St) (s : St) :
  from ≤ to → P from s →
  (∀ k s', from ≤ k < to → P k s' → ∃ s'', body k s' = Some s'' ∧ P (k + 1) s'') →
  ∃ s', for_range from to body s = Some s' ∧ P to s'.
Proof.
  intros Hle H0 Hstep. unfold for_range.
  destruct (iterate_inv (λ k, P (from + Z.of_nat k)) (Z.to_nat (to - from)) from body s)
    as (s' & Hrun & HP).
  - by rewrite Z.add_0_r.
  - intros k s' Hk HP. destruct (Hstep (from + Z.of_nat k) s') as (s'' & Hb & HP'); [lia | done |].
    exists s''. split; [done |]. cbv beta.
    by replace (from + Z.of_nat (S k)) with (from + Z.of_nat k + 1) by lia.
  - exists s'. split; [done |]. cbv beta in HP.
    by replace (from + Z.of_nat (Z.to_nat (to - from))) with to in HP by lia.
Qed.

Lemma for_range_empty {St} (from to : Z) (body : Z → St → option St) (s : St) :
  to ≤ from → for_range from to body s = Some s.
Proof. intros. unfold for_range. by replace (Z.to_nat (to - from)) with 0%nat by lia. Qed.

Lemma mapPrefix_length {A} (n : nat) (f : A → A) (l : list A) :
  length (mapPrefix n f l) = length l.
Proof.
  unfold mapPrefix. rewrite length_app, length_fmap, length_take, length_drop. lia.
Qed.

Lemma mapPrefix_lookup {A} (n : nat) (f : A → A) (l : list A) (k : nat) :
  mapPrefix n f l !! k = if decide (k < n)%nat then f <$> l !! k else l !! k.
Proof.
  unfold mapPrefix. destruct (decide (k < n)%nat) as [Hk|Hk].
  - destruct (decide (k < length l)%nat).
    + rewrite lookup_app_l by (rewrite length_fmap, length_take; lia).
      by rewrite list_lookup_fmap, lookup_take_lt.
    + rewrite !lookup_ge_None_2; [done | lia |].
      rewrite length_app, length_fmap, length_take, length_drop. lia.
  - destruct (decide (n ≤ length l)%nat).
    + rewrite lookup_app_r by (rewrite length_fmap, length_take; lia).
      rewrite length_fmap, length_take, lookup_drop. f_equal. lia.
    + rewrite take_ge, drop_ge by lia. rewrite app_nil_r.
      rewrite !lookup_ge_None_2; [done | lia | rewrite length_fmap; lia].
Qed.

Lemma mapPrefix_0 {A} (f : A → A) (l : list A) : mapPrefix 0 f l = l.
Proof. done. Qed.

Lemma mapPrefix_S {A} (n : nat) (f : A → A) (l : list A) (x : A) :
  l !! n = Some x → mapPrefix (S n) f l = <[n := f x]> (mapPrefix n f l).
Proof.
  intros Hx. apply list_eq. intros k.
  destruct (decide (k = n)) as [->|Hne].
  - rewrite list_lookup_insert_eq by (rewrite mapPrefix_length; by eapply lookup_lt_Some).
    rewrite mapPrefix_lookup, Hx. by rewrite decide_True by lia.
  - rewrite list_lookup_insert_ne by done. rewrite !mapPrefix_lookup.
    repeat case_decide; try done; lia.
Qed.

Lemma mapPrefix_take {A} (n : nat) (f : A → A) (l : list A) :
  take n (mapPrefix n f l) = f <$> take n l.
Proof.
  unfold mapPrefix. destruct (decide (n ≤ length l)%nat).
  - rewrite take_app_length'; [done |]. rewrite length_fmap, length_take. lia.
  - rewrite drop_ge, app_nil_r by lia. rewrite take_ge; [done |].
    rewrite length_fmap, length_take. lia.
Qed.

(** ** Validity *)

Lemma shaped_spec (st : Store) :
  shaped st = true ↔
  length (presets st) = 15%nat ∧
  ∀ k p, presets st !! k = Some p → length (bells p) = 15%nat.
Proof.
  unfold shaped, shapedPreset. rewrite andb_true_iff, bool_decide_eq_true, forallb_forall.
  change (Z.to_nat MAX_PRESETS) with 15%nat.
  change (Z.to_nat MAX_BELLS_PER_PRESET) with 15%nat.
  split; intros [Hl Hb]; (split; [done |]).
  - intros k p Hp. eapply bool_decide_eq_true_1, Hb, list_elem_of_In.
    by eapply list_elem_of_lookup_2.
  - intros p Hp. apply list_elem_of_In, list_elem_of_lookup in Hp as [k Hk].
    apply bool_decide_eq_true_2. eauto.
Qed.

Lemma storeInv_spec (st : Store) :
  storeInv st = true ↔
  0 ≤ presetCount st ≤ 15 ∧
  (∀ k p, presets st !! k = Some p → Z.of_nat k < presetCount st → 0 ≤ bellCount p ≤ 15) ∧
  (activePresetIndex st = -1 ∨ 0 ≤ activePresetIndex st < presetCount st).
Proof.
  unfold storeInv, activeOk, bellCountOk, counted, MAX_PRESETS, MAX_BELLS_PER_PRESET.
  rewrite !andb_true_iff, orb_true_iff, andb_true_iff, forallb_forall.
  rewrite Z.eqb_eq, Z.ltb_lt, !Z.leb_le.
  split.
  - intros [[[H0 H1] Hb] Ha]. split; [lia |]. split; [| lia].
    intros k p Hp Hk.
    assert (HIn : In p (take (Z.to_nat (presetCount st)) (presets st))).
    { apply list_elem_of_In. apply (list_elem_of_lookup_2 _ k).
      rewrite lookup_take_lt by lia. done. }
    specialize (Hb p HIn). rewrite andb_true_iff, !Z.leb_le in Hb. lia.
  - intros (Hc & Hb & Ha). split; [split; [lia |] | lia].
    intros p Hp. apply list_elem_of_In, list_elem_of_lookup in Hp as [k Hk].
    apply lookup_take_Some in Hk as [Hk Hlt].
    rewrite andb_true_iff, !Z.leb_le. apply (Hb k); [done | lia].
Qed.

Lemma valid_spec (st : Store) :
  valid st = true ↔ shaped st = true ∧ storeInv st = true.
Proof. unfold valid. apply andb_true_iff. Qed.

(** ** Persistence *)

Lemma gatherIn_take {A B} (l : list A) (f : A → Z → option (option B * Z))
    (g : A → Z → option B * Z) (n : nat) (i : Z) (room : Z) :
  0 ≤ i → (Z.to_nat i + n ≤ length l)%nat →
  (∀ x, x ∈ take n (drop (Z.to_nat i) l) → ∀ r, f x r = Some (g x r)) →
  gatherIn n i (λ j r, x ← at_index l j; f x r) room =
  Some (insertAll g (take n (drop (Z.to_nat i) l)) room).
Proof.
  revert i room. induction n as [|n IH]; intros i room Hi Hlen Hf; simpl; [done |].
  destruct (lookup_lt_is_Some_2 l (Z.to_nat i)) as [x Hx]; [lia |].
  rewrite at_index_lookup, Hx by done. simpl.
  rewrite (drop_S _ _ _ Hx) in Hf |- *. simpl in Hf |- *.
  rewrite (Hf x) by apply list_elem_of_here. simpl.
  rewrite IH; [| lia | lia |].
  - simpl. by replace (Z.to_nat (i + 1)) with (S (Z.to_nat i)) by lia.
  - intros y Hy. apply Hf. apply list_elem_of_further.
    by replace (Z.to_nat (i + 1)) with (S (Z.to_nat i)) in Hy by lia.
Qed.

Lemma for_gatherIn_take {A B} (l : list A) (f : A → Z → option (option B * Z))
    (g : A → Z → option B * Z) (n : Z) (room : Z) :
  n ≤ Z.of_nat (length l) →
  (∀ x, x ∈ take (Z.to_nat n) l → ∀ r, f x r = Some (g x r)) →
  for_gatherIn 0 n (λ j r, x ← at_index l j; f x r) room =
  Some (insertAll g (take (Z.to_nat n) l) room).
Proof.
  intros Hn Hf. unfold for_gatherIn. rewrite Z.sub_0_r.
  rewrite (gatherIn_take l f g); simpl; [done | done | lia | done].
Qed.

Lemma presetObj_ok (p : Preset) (room : Z) :
  bellCount p ≤ Z.of_nat (length (bells p)) → presetObj p room = Some (presetIn p room).
Proof.
  intros Hc. unfold presetObj, presetIn, bellsOf.
  destruct (addSlot room) as [obj r1]. destruct (setString (name p) r1) as [nm r2].
  destruct (setMember (bellCount p) r2) as [bc r3]. destruct (addSlot r3) as [arr r4].
  rewrite (for_gatherIn_take (bells p) (λ b r, Some (bellObj b r)) bellObj); done.
Qed.

Lemma buildDoc_valid (st : Store) : valid st = true → buildDoc st = Some (docOf st).
Proof.
  intros [Hs Hi]%valid_spec.
  apply shaped_spec in Hs as [Hlen Hbells].
  apply storeInv_spec in Hi as (Hc & Hb & _).
  unfold buildDoc, docOf, counted.
  destruct (setMember (presetCount st) JSON_CAPACITY) as [pc r1].
  destruct (setMember (activePresetIndex st) r1) as [ap r2].
  destruct (setMember (bellDuration st) r2) as [bd r3].
  destruct (addSlot r3) as [arr r4].
  rewrite (for_gatherIn_take (presets st) presetObj presetIn); [done | lia |].
  intros p [k [Hk Hlt]%lookup_take_Some]%list_elem_of_lookup r.
  apply presetObj_ok. rewrite (Hbells k p Hk). specialize (Hb k p Hk). lia.
Qed.

Lemma slots_nonneg {B} (size : B → Z) (l : list B) :
  (∀ x, x ∈ l → 0 ≤ size x) → 0 ≤ foldr (λ x z, JSON_SLOT + size x + z) 0 l.
Proof.
  induction l as [|y l IH]; intros Hpos; [done |].
  assert (0 ≤ size y) by (apply Hpos; left).
  assert (0 ≤ foldr (λ x z, JSON_SLOT + size x + z) 0 l)
    by (apply IH; intros; apply Hpos; by right).
  change (0 ≤ JSON_SLOT + size y + foldr (λ x z, JSON_SLOT + size x + z) 0 l).
  unfold JSON_SLOT in *. lia.
Qed.

(** A document that fits the pool is built whole. *)
Lemma insertAll_fits {A B} (ins : A → Z → option B * Z) (h : A → B) (size : B → Z)
    (l : list A) (room : Z) :
  (∀ x r, x ∈ l → JSON_SLOT + size (h x) ≤ r →
          ins x r = (Some (h x), r - (JSON_SLOT + size (h x)))) →
  (∀ x, x ∈ l → 0 ≤ size (h x)) →
  foldr (λ x z, JSON_SLOT + size x + z) 0 (h <$> l) ≤ room →
  insertAll ins l room =
  (h <$> l, room - foldr (λ x z, JSON_SLOT + size x + z) 0 (h <$> l)).
Proof.
  revert room. induction l as [|x l IH]; intros room Hins Hpos Hfit.
  { simpl. f_equal. lia. }
  assert (Hrest : 0 ≤ foldr (λ x z, JSON_SLOT + size x + z) 0 (h <$> l)).
  { apply slots_nonneg. intros y (z & -> & Hz)%list_elem_of_fmap. apply Hpos. by right. }
  change (JSON_SLOT + size (h x) + foldr (λ x z, JSON_SLOT + size x + z) 0 (h <$> l) ≤ room)
    in Hfit.
  change (insertAll ins (x :: l) room) with
    (let r := ins x room in let rs := insertAll ins l r.2 in (option_list r.1 ++ rs.1, rs.2)).
  rewrite Hins; [| left | lia]. cbn [fst snd].
  rewrite IH; [| intros; apply Hins; [by right | done] | intros; apply Hpos; by right | lia].
  cbn [fst snd option_list app]. rewrite fmap_cons.
  change (foldr (λ x z, JSON_SLOT + size x + z) 0 (h x :: (h <$> l)))
    with (JSON_SLOT + size (h x) + foldr (λ x z, JSON_SLOT + size x + z) 0 (h <$> l)).
  f_equal. lia.
Qed.

Lemma addSlot_ok (room : Z) : JSON_SLOT ≤ room → addSlot room = (true, room - JSON_SLOT).
Proof. intros H. unfold addSlot. by rewrite (proj2 (Z.leb_le _ _)). Qed.

Lemma setMember_ok {A} (v : A) (room : Z) :
  JSON_SLOT ≤ room → setMember v room = (Some v, room - JSON_SLOT).
Proof. intros H. unfold setMember. by rewrite addSlot_ok. Qed.

Lemma stringSize_pos (v : string) : 0 < stringSize v.
Proof. unfold stringSize. lia. Qed.

Lemma setString_ok (v : string) (room : Z) :
  JSON_SLOT + stringSize v ≤ room →
  setString v room = (Text v, room - JSON_SLOT - stringSize v).
Proof.
  intros H. pose proof (stringSize_pos v). unfold setString.
  rewrite addSlot_ok by lia. by rewrite (proj2 (Z.leb_le _ _)) by lia.
Qed.

Lemma bellSize_full (b : Bell) : bellSize false (bellDoc b) = 3 * JSON_SLOT.
Proof. unfold bellSize, bellDoc, memberSize, keySize. simpl. lia. Qed.

Lemma bellObj_fits (b : Bell) (room : Z) :
  JSON_SLOT + bellSize false (bellDoc b) ≤ room →
  bellObj b room = (Some (bellDoc b), room - (JSON_SLOT + bellSize false (bellDoc b))).
Proof.
  rewrite bellSize_full. intros Hfit. unfold bellObj, JSON_SLOT in *.
  rewrite addSlot_ok by (unfold JSON_SLOT; lia).
  rewrite !setMember_ok by (unfold JSON_SLOT; lia).
  unfold bellDoc, JSON_SLOT. f_equal. lia.
Qed.

Lemma bellSize_nonneg (copy : bool) (o : JBell) : 0 ≤ bellSize copy o.
Proof.
  unfold bellSize, memberSize, keySize, stringSize, JSON_SLOT.
  destruct copy, (j_hour o), (j_minute o), (j_triggered o); simpl; lia.
Qed.

Lemma presetSize_nonneg (copy : bool) (o : JPreset) : 0 ≤ presetSize copy o.
Proof.
  unfold presetSize, textSize, memberSize, arraySize.
  pose proof (slots_nonneg (bellSize copy) (default [] (j_bells o))
                (λ x _, bellSize_nonneg copy x)) as Hb.
  unfold keySize, stringSize, JSON_SLOT in *.
  destruct copy, (j_name o), (j_bellCount o), (j_bells o); simpl in *; lia.
Qed.

Lemma presetSize_full (p : Preset) :
  presetSize false (presetDoc p) =
  3 * JSON_SLOT + stringSize (name p) +
  foldr (λ x z, JSON_SLOT + bellSize false x + z) 0 (bellDoc <$> bellsOf p).
Proof. unfold presetSize, presetDoc, textSize, memberSize, arraySize, keySize. simpl. lia. Qed.

Lemma presetIn_fits (p : Preset) (room : Z) :
  JSON_SLOT + presetSize false (presetDoc p) ≤ room →
  presetIn p room = (Some (presetDoc p), room - (JSON_SLOT + presetSize false (presetDoc p))).
Proof.
  rewrite presetSize_full.
  pose proof (slots_nonneg (bellSize false) (bellDoc <$> bellsOf p)
                (λ x _, bellSize_nonneg false x)) as Hb.
  pose proof (stringSize_pos (name p)) as Hn.
  set (bs := foldr (λ x z, JSON_SLOT + bellSize false x + z) 0 (bellDoc <$> bellsOf p)) in *.
  intros Hfit. unfold presetIn.
  rewrite addSlot_ok by (unfold JSON_SLOT in *; lia).
  rewrite setString_ok by (unfold JSON_SLOT in *; lia).
  rewrite setMember_ok by (unfold JSON_SLOT in *; lia).
  rewrite addSlot_ok by (unfold JSON_SLOT in *; lia).
  rewrite (insertAll_fits bellObj bellDoc (bellSize false)).
  - cbn [fst snd]. unfold presetDoc. fold bs. f_equal. unfold JSON_SLOT. lia.
  - intros b r _ Hr. by apply bellObj_fits.
  - intros b _. apply bellSize_nonneg.
  - fold bs. unfold JSON_SLOT in *. lia.
Qed.

Lemma docSize_full (st : Store) :
  docSize false (fullDoc st) =
  4 * JSON_SLOT +
  foldr (λ x z, JSON_SLOT + presetSize false x + z) 0 (presetDoc <$> counted st).
Proof. unfold docSize, fullDoc, memberSize, arraySize, keySize. simpl. lia. Qed.

Lemma docOf_fits (st : Store) : fitsSave st = true → docOf st = fullDoc st.
Proof.
  unfold fitsSave. rewrite docSize_full. intros Hfit%Z.leb_le.
  pose proof (slots_nonneg (presetSize false) (presetDoc <$> counted st)
                (λ x _, presetSize_nonneg false x)) as Hp.
  set (ps := foldr (λ x z, JSON_SLOT + presetSize false x + z) 0 (presetDoc <$> counted st))
    in *.
  unfold docOf.
  rewrite setMember_ok by (unfold JSON_CAPACITY, JSON_SLOT in *; lia). cbv beta iota.
  rewrite setMember_ok by (unfold JSON_CAPACITY, JSON_SLOT in *; lia). cbv beta iota.
  rewrite setMember_ok by (unfold JSON_CAPACITY, JSON_SLOT in *; lia). cbv beta iota.
  rewrite addSlot_ok by (unfold JSON_CAPACITY, JSON_SLOT in *; lia). cbv beta iota.
  rewrite (insertAll_fits presetIn presetDoc (presetSize false)).
  - done.
  - intros p r _ Hr. by apply presetIn_fits.
  - intros p _. apply presetSize_nonneg.
  - fold ps. unfold JSON_CAPACITY, JSON_SLOT in *. lia.
Qed.

Lemma docSize_copy (d : JDoc) : docSize false d ≤ docSize true d.
Proof.
  assert (Hb : ∀ l : list JBell,
            foldr (λ x z, JSON_SLOT + bellSize false x + z) 0 l ≤
            foldr (λ x z, JSON_SLOT + bellSize true x + z) 0 l).
  { induction l as [|o l IH]; simpl; [done |].
    assert (bellSize false o ≤ bellSize true o); [| lia].
    unfold bellSize, memberSize, keySize, stringSize.
    destruct (j_hour o), (j_minute o), (j_triggered o); simpl; lia. }
  assert (Hp : ∀ o, presetSize false o ≤ presetSize true o).
  { intros o. unfold presetSize, textSize, memberSize, arraySize, keySize, stringSize.
    pose proof (Hb (default [] (j_bells o))).
    destruct (j_name o), (j_bellCount o), (j_bells o); simpl in *; lia. }
  assert (Hl : ∀ l : list JPreset,
            foldr (λ x z, JSON_SLOT + presetSize false x + z) 0 l ≤
            foldr (λ x z, JSON_SLOT + presetSize true x + z) 0 l).
  { induction l as [|o l IH]; simpl; [done |]. specialize (Hp o). lia. }
  unfold docSize, memberSize, arraySize, keySize, stringSize.
  pose proof (Hl (default [] (j_presets d))).
  destruct (j_presetCount d), (j_activePreset d), (j_bellDuration d), (j_presets d);
    simpl in *; lia.
Qed.

Lemma fitsLoad_fitsSave (st : Store) : fitsLoad st = true → fitsSave st = true.
Proof.
  unfold fitsLoad, fitsSave. intros H%Z.leb_le. apply Z.leb_le.
  pose proof (docSize_copy (fullDoc st)). lia.
Qed.

(** The first members are written while the pool is still empty. *)
Lemma docOf_head (st : Store) :
  j_presetCount (docOf st) = Some (presetCount st) ∧
  j_activePreset (docOf st) = Some (activePresetIndex st) ∧
  j_bellDuration (docOf st) = Some (bellDuration st).
Proof. done. Qed.

Lemma saveData_valid (s : State) :
  valid (store s) = true → saveData s = Some (persist s).
Proof.
  intros Hv. unfold saveData, persist. rewrite (buildDoc_valid _ Hv). simpl.
  by destruct (fsOk (dev s)).
Qed.

Lemma store_persist (s : State) : store (persist s) = store s.
Proof. unfold persist. by destruct (fsOk (dev s)). Qed.

Lemma ctl_persist (s : State) : ctl (persist s) = ctl s.
Proof. unfold persist. by destruct (fsOk (dev s)). Qed.

(** ** Record bookkeeping *)

Lemma set_bells_id (p : Preset) : set_bells (bells p) p = p.
Proof. by destruct p. Qed.

Lemma set_presets_id (st : Store) : set_presets (presets st) st = st.
Proof. by destruct st. Qed.

Lemma set_store_id (s : State) : set_store (store s) s = s.
Proof. by destruct s. Qed.

Lemma modBell_ok (j : Z) (g : Bell → Bell) (p : Preset) (b : Bell) :
  0 ≤ j → bells p !! Z.to_nat j = Some b →
  modBell j g p = Some (set_bells (<[Z.to_nat j := g b]> (bells p)) p).
Proof.
  intros Hj Hb. unfold modBell.
  by rewrite (modify_index_Some _ _ _ b (g b)).
Qed.

Lemma modPreset_ok (i : Z) (f : Preset → option Preset) (st : Store) (p p' : Preset) :
  0 ≤ i → presets st !! Z.to_nat i = Some p → f p = Some p' →
  modPreset i f st = Some (set_presets (<[Z.to_nat i := p']> (presets st)) st).
Proof.
  intros Hi Hp Hf. unfold modPreset.
  by rewrite (modify_index_Some _ _ _ p p').
Qed.

(** [for (j = 0; j < n; j++) presets[i].bells[j] = g(presets[i].bells[j])]. *)
Lemma bells_loop (g : Bell → Bell) (i n : Z) (st : Store) (p : Preset) :
  0 ≤ i → presets st !! Z.to_nat i = Some p → n ≤ Z.of_nat (length (bells p)) →
  for_range 0 n (λ j st, modPreset i (modBell j g) st) st =
  Some (set_presets
          (<[Z.to_nat i := set_bells (mapPrefix (Z.to_nat n) g (bells p)) p]> (presets st)) st).
Proof.
  intros Hi Hp Hn.
  destruct (Z.le_gt_cases n 0) as [Hneg|Hpos].
  { rewrite for_range_empty by lia. replace (Z.to_nat n) with 0%nat by lia.
    by rewrite mapPrefix_0, set_bells_id, list_insert_id, set_presets_id. }
  destruct (for_range_inv
    (λ k st', st' = set_presets
       (<[Z.to_nat i := set_bells (mapPrefix (Z.to_nat k) g (bells p)) p]> (presets st)) st)
    0 n (λ j st, modPreset i (modBell j g) st) st) as (st' & Hrun & ->); [lia | | | done].
  - by rewrite mapPrefix_0, set_bells_id, list_insert_id, set_presets_id.
  - intros k st' Hk ->.
    destruct (lookup_lt_is_Some_2 (bells p) (Z.to_nat k)) as [b Hb]; [lia |].
    eexists. split; [| reflexivity].
    erewrite modPreset_ok; [| done | | ].
    + simpl. rewrite list_insert_insert_eq. reflexivity.
    + simpl. apply list_lookup_insert_eq. by eapply lookup_lt_Some.
    + rewrite (modBell_ok _ _ _ b); [| lia |].
      * f_equal. unfold set_bells. simpl. f_equal.
        replace (Z.to_nat (k + 1)) with (S (Z.to_nat k)) by lia.
        symmetry. by apply mapPrefix_S.
      * simpl. rewrite mapPrefix_lookup. by rewrite decide_False by lia.
Qed.

Lemma valid_set_lastDay (d : Z) (st : Store) : valid (set_lastDay d st) = valid st.
Proof. done. Qed.

(** Rewriting bells in place keeps the store valid. *)
Lemma valid_same_counts (st : Store) (ps : list Preset) :
  valid st = true →
  length ps = length (presets st) →
  (∀ k q, ps !! k = Some q →
     ∃ p, presets st !! k = Some p ∧ length (bells q) = length (bells p) ∧
          bellCount q = bellCount p) →
  valid (set_presets ps st) = true.
Proof.
  intros [[Hlen Hbells]%shaped_spec (Hc & Hb & Ha)%storeInv_spec]%valid_spec Hl Hps.
  apply valid_spec. split.
  - apply shaped_spec. simpl. split; [lia |].
    intros k q Hq. destruct (Hps k q Hq) as (p & Hp & Hlq & _).
    rewrite Hlq. eauto.
  - apply storeInv_spec. simpl. split; [done |]. split; [| done].
    intros k q Hq Hk. destruct (Hps k q Hq) as (p & Hp & _ & Hcq).
    rewrite Hcq. eauto.
Qed.

Lemma clearPreset_counts (p : Preset) :
  length (bells (clearPreset p)) = length (bells p) ∧
  bellCount (clearPreset p) = bellCount p.
Proof. unfold clearPreset. simpl. by rewrite mapPrefix_length. Qed.

Lemma valid_newDay (d : Z) (st : Store) : valid st = true → valid (newDay d st) = true.
Proof.
  intros Hv. unfold newDay. apply valid_same_counts.
  - done.
  - simpl. apply mapPrefix_length.
  - intros k q. simpl. rewrite mapPrefix_lookup.
    case_decide.
    + intros (p & Hp & ->)%fmap_Some. exists p. split; [done |]. apply clearPreset_counts.
    + eauto.
Qed.

Lemma resetTriggers_valid (st : Store) :
  valid st = true →
  resetTriggers st =
  Some (set_presets (mapPrefix (Z.to_nat (presetCount st)) clearPreset (presets st)) st).
Proof.
  intros [[Hlen Hbells]%shaped_spec (Hc & Hb & Ha)%storeInv_spec]%valid_spec.
  unfold resetTriggers.
  destruct (for_range_inv
    (λ k st', st' = set_presets (mapPrefix (Z.to_nat k) clearPreset (presets st)) st)
    0 (presetCount st)
    (λ i st, p ← at_index (presets st) i;
             for_range 0 (bellCount p) (λ j st,
               modPreset i (modBell j (set_triggeredToday false)) st) st) st)
    as (st' & Hrun & ->); [lia | | | done].
  - by rewrite mapPrefix_0, set_presets_id.
  - intros k st' Hk ->.
    destruct (lookup_lt_is_Some_2 (presets st) (Z.to_nat k)) as [p Hp]; [lia |].
    assert (Hpk : mapPrefix (Z.to_nat k) clearPreset (presets st) !! Z.to_nat k = Some p).
    { rewrite mapPrefix_lookup. by rewrite decide_False by lia. }
    eexists. split; [| reflexivity].
    rewrite at_index_lookup by lia. simpl. rewrite Hpk. simpl.
    rewrite (bells_loop _ _ _ _ p); [| lia | done |].
    + replace (Z.to_nat (k + 1)) with (S (Z.to_nat k)) by lia.
      by rewrite (mapPrefix_S _ clearPreset _ p Hp).
    + rewrite (Hbells _ _ Hp). specialize (Hb _ _ Hp). lia.
Qed.

Lemma dayRollover_valid (now : DateTime) (s : State) :
  valid (store s) = true →
  dayRollover now s =
  Some (if bool_decide (lastDay (store s) ≠ dt_day now)
        then persist (set_store (newDay (dt_day now) (store s)) s) else s).
Proof.
  intros Hv. unfold dayRollover. case_bool_decide; [| done].
  rewrite resetTriggers_valid by done. simpl.
  apply saveData_valid. simpl. by apply (valid_newDay (dt_day now)) in Hv.
Qed.

Lemma store_dayRollover (now : DateTime) (s s' : State) :
  valid (store s) = true → dayRollover now s = Some s' →
  store s' = rolled now (store s) ∧ ctl s' = ctl s.
Proof.
  intros Hv. rewrite dayRollover_valid by done. intros [= <-]. unfold rolled.
  case_bool_decide; [| done]. by rewrite store_persist, ctl_persist.
Qed.

Lemma valid_rolled (now : DateTime) (st : Store) :
  valid st = true → valid (rolled now st) = true.
Proof. intros. unfold rolled. case_bool_decide; [by apply valid_newDay | done]. Qed.

(** ** The relay pulse *)

Lemma triggerBell_log (d : Z) (s : State) :
  log (dev (triggerBell d s)) =
  log (dev s) ++ pulse (u32 (if d =? 0 then bellDuration (store s) else d)).
Proof. unfold triggerBell, pulse. simpl. rewrite <- !app_assoc. reflexivity. Qed.

Lemma triggerBell_frame (d : Z) (s : State) :
  store (triggerBell d s) = store s ∧ ctl (triggerBell d s) = ctl s ∧
  fsOk (dev (triggerBell d s)) = fsOk (dev s) ∧
  config (dev (triggerBell d s)) = config (dev s) ∧
  relay (dev (triggerBell d s)) = false.
Proof. done. Qed.

Lemma persist_frame (s : State) :
  fsOk (dev (persist s)) = fsOk (dev s) ∧ relay (dev (persist s)) = relay (dev s).
Proof. unfold persist. by destruct (fsOk (dev s)) eqn:E. Qed.

Lemma persist_log (s : State) :
  log (dev (persist s)) =
  log (dev s) ++ (if fsOk (dev s) then [EvSave (docOf (store s))] else []).
Proof. unfold persist. destruct (fsOk (dev s)); simpl; [done | by rewrite app_nil_r]. Qed.

Lemma persist_config (s : State) :
  fsOk (dev s) = true → config (dev (persist s)) = Json (docOf (store s)).
Proof. intros H. unfold persist. by rewrite H. Qed.

Lemma relayEvents_app (l1 l2 : list Event) :
  relayEvents (l1 ++ l2) = relayEvents l1 ++ relayEvents l2.
Proof. apply omap_app. Qed.

Lemma relayEvents_save (b : bool) (d : JDoc) :
  relayEvents (if b then [EvSave d] else []) = [].
Proof. by destruct b. Qed.

Lemma duePulses_snoc (now : DateTime) (d : Z) (bs : list Bell) (b : Bell) :
  duePulses now d (bs ++ [b]) =
  duePulses now d bs ++ (if bellDue now b then pulse d else []).
Proof.
  unfold duePulses. rewrite fmap_app, concat_app. simpl. by rewrite app_nil_r.
Qed.

(** ** The match loop *)

Lemma firePreset_counts (now : DateTime) (k : nat) (p : Preset) :
  length (bells (firePreset now k p)) = length (bells p) ∧
  bellCount (firePreset now k p) = bellCount p.
Proof. unfold firePreset. simpl. by rewrite mapPrefix_length. Qed.

Lemma valid_firePreset (now : DateTime) (k a : nat) (st : Store) (p : Preset) :
  valid st = true → presets st !! a = Some p →
  valid (set_presets (<[a := firePreset now k p]> (presets st)) st) = true.
Proof.
  intros Hv Hp. apply valid_same_counts; [done | apply length_insert |].
  intros j q. destruct (decide (j = a)) as [->|Hne].
  - rewrite list_lookup_insert_eq by (by eapply lookup_lt_Some).
    intros [= <-]. exists p. split; [done |]. apply firePreset_counts.
  - rewrite list_lookup_insert_ne by done. eauto.
Qed.

Lemma firePreset_S (now : DateTime) (k : nat) (p : Preset) (b : Bell) :
  bells p !! k = Some b →
  firePreset now (S k) p =
  set_bells (<[k := fire now b]> (bells (firePreset now k p))) (firePreset now k p).
Proof.
  intros Hb. unfold firePreset, set_bells. simpl. f_equal. by apply mapPrefix_S.
Qed.

Lemma checkBell_step (now : DateTime) (a i : Z) (s : State) (q : Preset) (b : Bell) :
  0 ≤ a → 0 ≤ i →
  presets (store s) !! Z.to_nat a = Some q → bells q !! Z.to_nat i = Some b →
  valid (store s) = true →
  checkBell now a i s =
  Some (if bellDue now b then
          persist (set_store
            (set_presets (<[Z.to_nat a :=
               set_bells (<[Z.to_nat i := set_triggeredToday true b]> (bells q)) q]>
               (presets (store s))) (store s)) (triggerBell 0 s))
        else s).
Proof.
  intros Ha Hi Hq Hb Hv. unfold checkBell.
  rewrite at_index_lookup, Hq by done. simpl.
  rewrite at_index_lookup, Hb by done. simpl.
  destruct (bellDue now b); [| done].
  rewrite (modPreset_ok _ _ _ q
             (set_bells (<[Z.to_nat i := set_triggeredToday true b]> (bells q)) q));
    [| done | done | by apply modBell_ok].
  simpl. apply saveData_valid. simpl.
  apply valid_same_counts; [done | apply length_insert |].
  intros j r. destruct (decide (j = Z.to_nat a)) as [->|Hne].
  - rewrite list_lookup_insert_eq by (by eapply lookup_lt_Some).
    intros [= <-]. exists q. simpl. by rewrite length_insert.
  - rewrite list_lookup_insert_ne by done. eauto.
Qed.

Lemma matchInv_step (now : DateTime) (s : State) (a : Z) (p : Preset) (k : Z) (s' : State) :
  valid (store s) = true → 0 ≤ a →
  presets (store s) !! Z.to_nat a = Some p →
  0 ≤ k < Z.of_nat (length (bells p)) →
  matchInv now s (Z.to_nat a) p k s' →
  ∃ s'', checkBell now a k s' = Some s'' ∧ matchInv now s (Z.to_nat a) p (k + 1) s''.
Proof.
  intros Hv Ha Hp Hk (Hst & Hctl & Hfs & (evs & Hlog & Hrel) & Hcfg & Hidle).
  destruct (lookup_lt_is_Some_2 (bells p) (Z.to_nat k)) as [b Hb]; [lia |].
  set (q := firePreset now (Z.to_nat k) p).
  assert (Hq : presets (store s') !! Z.to_nat a = Some q).
  { rewrite Hst. simpl. apply list_lookup_insert_eq. by eapply lookup_lt_Some. }
  assert (Hqb : bells q !! Z.to_nat k = Some b).
  { unfold q, firePreset. simpl. rewrite mapPrefix_lookup. by rewrite decide_False by lia. }
  assert (Hv' : valid (store s') = true).
  { rewrite Hst. by apply valid_firePreset. }
  assert (Htake : take (Z.to_nat (k + 1)) (bells p) = take (Z.to_nat k) (bells p) ++ [b]).
  { replace (Z.to_nat (k + 1)) with (S (Z.to_nat k)) by lia. by apply take_S_r. }
  assert (HS : firePreset now (Z.to_nat (k + 1)) p =
               set_bells (<[Z.to_nat k := fire now b]> (bells q)) q).
  { replace (Z.to_nat (k + 1)) with (S (Z.to_nat k)) by lia. by apply firePreset_S. }
  rewrite (checkBell_step now a k s' q b) by (done || lia).
  eexists. split; [reflexivity |].
  unfold matchInv. rewrite Htake, HS. unfold fire.
  destruct (bellDue now b) eqn:Hdue.
  - destruct (triggerBell_frame 0 s') as (Ht1 & Ht2 & Ht3 & Ht4 & Ht5).
    rewrite store_persist, ctl_persist.
    destruct (persist_frame (set_store
      (set_presets (<[Z.to_nat a := set_bells
         (<[Z.to_nat k := set_triggeredToday true b]> (bells q)) q]>
         (presets (store s'))) (store s')) (triggerBell 0 s'))) as [Hpf _].
    split; [| split; [| split; [| split; [| split]]]].
    + simpl. rewrite Hst. simpl. by rewrite list_insert_insert_eq.
    + done.
    + rewrite Hpf. done.
    + eexists. split.
      * rewrite persist_log. simpl. rewrite Hlog, <- !app_assoc. reflexivity.
      * rewrite !relayEvents_app, relayEvents_save, app_nil_r, Hrel.
        rewrite duePulses_snoc, Hdue. f_equal.
        rewrite Hst. done.
    + intros Hok _. rewrite persist_config; [done |].
      simpl. by rewrite Hfs.
    + intros [_ Hno]%Forall_app. rewrite Forall_singleton in Hno. congruence.
  - split; [| split; [| split; [| split; [| split]]]].
    + rewrite Hst. do 2 f_equal. unfold q. rewrite list_insert_id by done.
      by rewrite set_bells_id.
    + done.
    + done.
    + exists evs. split; [done |]. by rewrite duePulses_snoc, Hdue, app_nil_r.
    + intros Hok [Hex|Hex]%Exists_app; [by apply Hcfg |].
      apply Exists_cons in Hex as [Hex|Hex]; [cbv beta in Hex; congruence |].
      by apply Exists_nil in Hex.
    + intros [Hno _]%Forall_app. by apply Hidle.
Qed.

(** The match loop of [checkBells] on a valid store. *)
Lemma checkActive_spec (now : DateTime) (s : State) :
  valid (store s) = true →
  ∃ s' evs,
    checkActive now s = Some s' ∧
    store s' = fireDue now (store s) ∧
    ctl s' = ctl s ∧
    fsOk (dev s') = fsOk (dev s) ∧
    log (dev s') = log (dev s) ++ evs ∧
    relayEvents evs = duePulses now (u32 (bellDuration (store s))) (activeBells (store s)) ∧
    (fsOk (dev s) = true →
     Exists (λ b, bellDue now b = true) (activeBells (store s)) →
     config (dev s') = Json (docOf (store s'))) ∧
    (Forall (λ b, bellDue now b = false) (activeBells (store s)) → s' = s).
Proof.
  intros Hv. unfold checkActive, fireDue, activeBells, hasActive.
  destruct ((0 <=? activePresetIndex (store s)) &&
            (activePresetIndex (store s) <? presetCount (store s))) eqn:Hact.
  2:{ exists s, []. rewrite app_nil_r. repeat split; try done.
      intros _ Hex. by apply Exists_nil in Hex. }
  apply andb_true_iff in Hact as [Ha0%Z.leb_le Ha1%Z.ltb_lt].
  pose proof Hv as [[Hlen Hbells]%shaped_spec (Hc & Hb & _)%storeInv_spec]%valid_spec.
  destruct (lookup_lt_is_Some_2 (presets (store s)) (Z.to_nat (activePresetIndex (store s))))
    as [p Hp]; [lia |].
  rewrite at_index_lookup, Hp by done. simpl.
  specialize (Hb _ _ Hp). specialize (Hbells _ _ Hp).
  destruct (for_range_inv (matchInv now s (Z.to_nat (activePresetIndex (store s))) p)
              0 (bellCount p) (checkBell now (activePresetIndex (store s))) s)
    as (s' & Hrun & Hst & Hctl & Hfs & (evs & Hlog & Hrel) & Hcfg & Hidle).
  - lia.
  - unfold matchInv, firePreset. simpl.
    rewrite mapPrefix_0, set_bells_id, list_insert_id, set_presets_id by done.
    repeat split; try done.
    + exists []. by rewrite app_nil_r.
    + intros _ Hex. by apply Exists_nil in Hex.
  - intros k s' Hk Hinv. apply matchInv_step; try done. lia.
  - exists s', evs. unfold bellsOf. repeat split; done.
Qed.

Lemma valid_fireDue (now : DateTime) (st : Store) :
  valid st = true → valid (fireDue now st) = true.
Proof.
  intros Hv. unfold fireDue. destruct (hasActive st); [| done].
  destruct (presets st !! Z.to_nat (activePresetIndex st)) as [p|] eqn:Hp; [| done].
  by apply valid_firePreset.
Qed.

Lemma hasActive_lookup (st : Store) :
  valid st = true → hasActive st = true →
  0 ≤ activePresetIndex st < presetCount st ∧
  ∃ p, presets st !! Z.to_nat (activePresetIndex st) = Some p ∧
       length (bells p) = 15%nat ∧ 0 ≤ bellCount p ≤ 15.
Proof.
  intros [[Hlen Hbells]%shaped_spec (Hc & Hb & _)%storeInv_spec]%valid_spec.
  unfold hasActive. intros [Ha0%Z.leb_le Ha1%Z.ltb_lt]%andb_true_iff.
  split; [lia |].
  destruct (lookup_lt_is_Some_2 (presets st) (Z.to_nat (activePresetIndex st)))
    as [p Hp]; [lia |].
  exists p. split; [done |]. split; [eauto |]. apply (Hb _ _ Hp). lia.
Qed.


Lemma activeBells_newDay (d : Z) (st : Store) :
  valid st = true →
  activeBells (newDay d st) = set_triggeredToday false <$> activeBells st.
Proof.
  intros Hv. unfold activeBells, newDay, hasActive. simpl.
  fold (hasActive st). destruct (hasActive st) eqn:Hact; [| done].
  destruct (hasActive_lookup st Hv Hact) as (Ha & p & Hp & Hl & Hc).
  rewrite mapPrefix_lookup, Hp. rewrite decide_True by lia. simpl.
  unfold bellsOf, clearPreset. simpl. apply mapPrefix_take.
Qed.


Lemma due_or_idle (now : DateTime) (bs : list Bell) :
  Exists (λ b, bellDue now b = true) bs ∨ Forall (λ b, bellDue now b = false) bs.
Proof.
  induction bs as [|b bs IH]; [right; constructor |].
  destruct (bellDue now b) eqn:Hdue; [left; by constructor |].
  destruct IH; [left; by apply Exists_cons_tl | right; by constructor].
Qed.

(** One scheduler tick with a working clock on a valid store. *)
Lemma checkBells_spec (now : DateTime) (s : State) :
  valid (store s) = true →
  ∃ s' evs,
    checkBells (Some now) s = Some s' ∧
    store s' = fireDue now (rolled now (store s)) ∧
    ctl s' = ctl s ∧
    fsOk (dev s') = fsOk (dev s) ∧
    log (dev s') = log (dev s) ++ evs ∧
    relayEvents evs =
      duePulses now (u32 (bellDuration (store s))) (activeBells (rolled now (store s))) ∧
    (fsOk (dev s) = true →
     lastDay (store s) ≠ dt_day now ∨
     Exists (λ b, bellDue now b = true) (activeBells (rolled now (store s))) →
     config (dev s') = Json (docOf (store s'))) ∧
    (lastDay (store s) = dt_day now →
     Forall (λ b, bellDue now b = false) (activeBells (store s)) → s' = s).
Proof.
  intros Hv. unfold checkBells. rewrite dayRollover_valid by done. simpl.
  unfold rolled. case_bool_decide as Hday.
  - set (s1 := persist (set_store (newDay (dt_day now) (store s)) s)).
    assert (Hs1 : store s1 = newDay (dt_day now) (store s)) by apply store_persist.
    assert (Hv1 : valid (store s1) = true) by (rewrite Hs1; by apply valid_newDay).
    destruct (checkActive_spec now s1 Hv1)
      as (s' & evs & Hrun & Hst & Hctl & Hfs & Hlog & Hrel & Hcfg & Hidle).
    rewrite Hs1 in *.
    exists s', ((if fsOk (dev s) then [EvSave (docOf (newDay (dt_day now) (store s)))] else [])
                ++ evs).
    split; [done |]. split; [done |].
    split; [rewrite Hctl; unfold s1; by rewrite ctl_persist |].
    split; [rewrite Hfs; unfold s1; by rewrite (proj1 (persist_frame _)) |].
    split; [rewrite Hlog; unfold s1; rewrite persist_log; simpl; by rewrite app_assoc |].
    split; [by rewrite relayEvents_app, relayEvents_save |].
    split; [| done].
    intros Hok _.
    destruct (due_or_idle now (activeBells (newDay (dt_day now) (store s)))) as [Hex|Hno].
    + apply Hcfg; [| done]. unfold s1. by rewrite (proj1 (persist_frame _)).
    + rewrite (Hidle Hno). rewrite Hs1. unfold s1. by apply persist_config.
  - destruct (checkActive_spec now s Hv)
      as (s' & evs & Hrun & Hst & Hctl & Hfs & Hlog & Hrel & Hcfg & Hidle).
    exists s', evs. repeat split; try done.
    intros Hok [Hne|Hex]; [| by apply Hcfg].
    destruct (decide (lastDay (store s) = dt_day now)); done.
Qed.

Lemma contents_newDay (d : Z) (st : Store) :
  contents (newDay d st) =
  clearFlags <$> contents st.
Proof.
  unfold contents, counted, newDay. simpl.
  rewrite mapPrefix_take, <- !list_fmap_compose.
  apply list_fmap_ext. intros _ p _. unfold clearFlags. simpl. f_equal.
  unfold bellsOf, clearPreset. simpl. apply mapPrefix_take.
Qed.





(** * Properties from the specification *)

(** C7.  When [rtc.begin()] fails the scheduler tick returns at once: the
    whole state (flags, [lastDay], file, relay, log) is what it was, so a
    later tick with a working clock does exactly what it would have done
    without the failed tick. *)
Theorem clock_unavailable_skips_tick (s : State) :
  checkBells None s = Some s ∧
  ∀ now, (s' ← checkBells None s; checkBells (Some now) s') = checkBells (Some now) s.
Proof. split; [done |]. intros now. done. Qed.





(** The scenario of the specification, run on the sketch: 08:00 rings the
    first bell once, a second tick at 08:00 is silent, 12:30 rings the
    second bell. *)
Example weekday_scenario :
  (s1 ← checkBells (Some eightOClock) weekdayState;
   s2 ← checkBells (Some eightOClock) s1;
   s3 ← checkBells (Some (mkDateTime 2024 1 5 12 30 0)) s2;
   Some (relayEvents (log (dev s1)), relayEvents (log (dev s2)),
         relayEvents (log (dev s3)),
         triggeredToday <$> activeBells (store s3))) =
  Some (pulse 3000, pulse 3000, pulse 3000 ++ pulse 3000, [true; true]).
Proof. vm_compute. reflexivity. Qed.

(** ** Bell duration *)

Lemma u32_small (z : Z) : 0 ≤ z < 2 ^ 32 → u32 z = z.
Proof. intros. unfold u32. by apply Z.mod_small. Qed.

Lemma buttonEmergency_frame (p : Pins) (s : State) :
  store (buttonEmergency p s) = store s ∧
  lastManualBellState (ctl (buttonEmergency p s)) = lastManualBellState (ctl s).
Proof.
  unfold buttonEmergency.
  destruct (negb (emergencyBtn p) && lastEmergencyBtnState (ctl s) &&
            negb (emergencyActive (ctl s))); [| done].
  by destruct (negb (emergencyBtnAgain p)).
Qed.

Lemma switchManual_press (p : Pins) (s : State) :
  manualBell p = false → manualBellAgain p = false →
  lastManualBellState (ctl s) = true →
  log (dev (switchManual p s)) =
  log (dev s) ++ EvDelay 50 :: pulse (u32 (bellDuration (store s))).
Proof.
  intros H1 H2 Hlast. unfold switchManual. rewrite H1, H2, Hlast. simpl.
  rewrite <- !app_assoc. done.
Qed.

Lemma handleButtons_manual (p : Pins) (s : State) :
  manualBell p = false → manualBellAgain p = false →
  lastManualBellState (ctl s) = true →
  log (dev (handleButtons p s)) =
  log (dev (buttonEmergency p s)) ++
  EvDelay 50 :: pulse (u32 (bellDuration (store s))).
Proof.
  intros H1 H2 Hlast. unfold handleButtons.
  destruct (buttonEmergency_frame p s) as [Hst Hl].
  remember (buttonEmergency p s) as s0 eqn:Hs0. clear Hs0.
  rewrite switchManual_press; [| done | done |].
  - simpl. by rewrite Hst.
  - simpl. by rewrite Hl.
Qed.

(** C8.  [handleSetDuration] answers 400 and changes nothing when the
    duration is below 100 or above 30000.  Otherwise it stores the duration
    unchanged, saves it, and the next pulse lasts that long: the pulse of
    [triggerBell(0)], the pulse of a manual press in [handleButtons], and
    every pulse of the next scheduler tick. *)
Theorem set_duration_checked (duration : Z) (s : State) :
  valid (store s) = true →
  (duration < 100 ∨ 30000 < duration →
   handleSetDuration duration s =
   Some (send 400 "Duration must be between 100ms and 30000ms" s)) ∧
  (100 ≤ duration ≤ 30000 →
   ∃ s',
     handleSetDuration duration s = Some s' ∧
     store s' = set_bellDuration duration (store s) ∧
     ctl s' = ctl s ∧
     (fsOk (dev s) = true →
      config (dev s') = Json (docOf (store s')) ∧
      j_bellDuration (docOf (store s')) = Some duration) ∧
     log (dev (triggerBell 0 s')) = log (dev s') ++ pulse duration ∧
     (∀ p, manualBell p = false → manualBellAgain p = false →
           lastManualBellState (ctl s) = true →
           log (dev (handleButtons p s')) =
           log (dev (buttonEmergency p s')) ++ EvDelay 50 :: pulse duration) ∧
     (∀ now, ∃ s'' evs,
           checkBells (Some now) s' = Some s'' ∧
           log (dev s'') = log (dev s') ++ evs ∧
           relayEvents evs =
             duePulses now duration (activeBells (rolled now (store s'))))).
Proof.
  intros Hv. unfold handleSetDuration. split.
  - intros Hout.
    destruct ((duration <? 100) || (30000 <? duration)) eqn:Hchk; [done |].
    apply orb_false_iff in Hchk as [H1%Z.ltb_ge H2%Z.ltb_ge]. lia.
  - intros Hin.
    destruct ((duration <? 100) || (30000 <? duration)) eqn:Hchk.
    { apply orb_true_iff in Hchk as [H1%Z.ltb_lt|H2%Z.ltb_lt]; lia. }
    set (s1 := set_store (set_bellDuration duration (store s)) s).
    assert (Hv1 : valid (store s1) = true) by done.
    assert (Hu : u32 duration = duration).
    { apply u32_small. split; [lia |]. transitivity 30001; [lia | done]. }
    assert (Hst : store (send 200 "Bell duration updated" (persist s1)) =
                  set_bellDuration duration (store s)).
    { simpl. by rewrite store_persist. }
    exists (send 200 "Bell duration updated" (persist s1)).
    split; [fold s1; by rewrite (saveData_valid s1 Hv1) |].
    split; [done |].
    split; [simpl; by rewrite ctl_persist |].
    split; [| split; [| split]].
    + intros Hok. rewrite Hst. split; [| done]. simpl.
      by rewrite (persist_config s1 Hok).
    + rewrite triggerBell_log, Hst. simpl. by rewrite Hu.
    + intros p H1 H2 Hlast. rewrite handleButtons_manual; try done.
      * rewrite Hst. simpl. by rewrite Hu.
      * simpl. by rewrite ctl_persist.
    + intros now.
      destruct (checkBells_spec now (send 200 "Bell duration updated" (persist s1)))
        as (s'' & evs & Hrun & _ & _ & _ & Hlog & Hrel & _); [by rewrite Hst |].
      exists s'', evs. split; [done |]. split; [done |].
      rewrite Hrel, Hst. simpl. by rewrite Hu.
Qed.

Lemma set_duration_checked_witness :
  handleSetDuration 50 weekdayState =
    Some (send 400 "Duration must be between 100ms and 30000ms" weekdayState) ∧
  ∃ s',
    handleSetDuration 5000 weekdayState = Some s' ∧
    store s' = set_bellDuration 5000 (store weekdayState) ∧
    ctl s' = ctl weekdayState ∧
    (fsOk (dev weekdayState) = true →
     config (dev s') = Json (docOf (store s')) ∧
     j_bellDuration (docOf (store s')) = Some 5000) ∧
    log (dev (triggerBell 0 s')) = log (dev s') ++ pulse 5000 ∧
    (∀ p, manualBell p = false → manualBellAgain p = false →
          lastManualBellState (ctl weekdayState) = true →
          log (dev (handleButtons p s')) =
          log (dev (buttonEmergency p s')) ++ EvDelay 50 :: pulse 5000) ∧
    (∀ now, ∃ s'' evs,
          checkBells (Some now) s' = Some s'' ∧
          log (dev s'') = log (dev s') ++ evs ∧
          relayEvents evs = duePulses now 5000 (activeBells (rolled now (store s')))).
Proof.
  split.
  - apply (set_duration_checked 50 weekdayState); [reflexivity | lia].
  - apply (set_duration_checked 5000 weekdayState); [reflexivity | lia].
Defined.

(** A manual press and a scheduled bell right after [/api/setduration]
    with 5000: both pulses last 5000 ms. *)
Example set_duration_scenario :
  (s1 ← handleSetDuration 5000 weekdayState;
   s2 ← checkBells (Some eightOClock) (handleButtons manualPress s1);
   Some (relayEvents (log (dev s2)))) =
  Some (EvDelay 50 :: pulse 5000 ++ pulse 5000).
Proof. vm_compute. reflexivity. Qed.

(** ** Deleting from an array by shifting *)

Lemma shifted_start {A} (i : nat) (l : list A) : shifted i i l l.
Proof. split; [done |]. intros j. by rewrite decide_False by lia. Qed.

Lemma shifted_next {A} (i k : nat) (l l' : list A) (x : A) :
  shifted i k l l' → (i ≤ k)%nat → l !! S k = Some x →
  l' !! S k = Some x ∧ shifted i (S k) l (<[k := x]> l').
Proof.
  intros [Hlen Hl'] Hik Hx.
  assert (Hx' : l' !! S k = Some x).
  { rewrite Hl'. by rewrite decide_False by lia. }
  split; [done |]. split; [by rewrite length_insert |].
  intros j. destruct (decide (j = k)) as [->|Hne].
  - rewrite list_lookup_insert_eq.
    + by rewrite decide_True by lia.
    + apply lookup_lt_Some in Hx'. lia.
  - rewrite list_lookup_insert_ne by done. rewrite Hl'.
    repeat case_decide; try done; lia.
Qed.

Lemma shifted_delete {A} (i n : nat) (l l' : list A) :
  shifted i (n - 1) l l' → (i < n ≤ length l)%nat →
  take (n - 1) l' = delete i (take n l).
Proof.
  intros [Hlen Hl'] Hin. apply list_eq. intros j.
  destruct (decide (j < n - 1)%nat) as [Hj|Hj].
  - rewrite lookup_take_lt by done. rewrite Hl'.
    destruct (decide (j < i)%nat).
    + rewrite list_lookup_delete_lt by done. rewrite lookup_take_lt by lia.
      by rewrite decide_False by lia.
    + rewrite list_lookup_delete_ge by lia. rewrite lookup_take_lt by lia.
      by rewrite decide_True by lia.
  - rewrite lookup_take_ge by lia. symmetry. apply lookup_ge_None_2.
    rewrite length_delete.
    + rewrite length_take. lia.
    + apply lookup_lt_is_Some_2. rewrite length_take. lia.
Qed.

Lemma shifted_shape {A} (P : A → Prop) (i k : nat) (l l' : list A) :
  shifted i k l l' → (∀ j x, l !! j = Some x → P x) → ∀ j x, l' !! j = Some x → P x.
Proof.
  intros [_ Hl'] HP j x. rewrite Hl'. case_decide; eauto.
Qed.

(** The shifting loop of [handleDeletePreset]. *)
Lemma deletePreset_loop (id : Z) (st : Store) :
  0 ≤ id < presetCount st → presetCount st ≤ Z.of_nat (length (presets st)) →
  ∃ ps,
    for_range id (presetCount st - 1) (λ i st,
      next ← at_index (presets st) (i + 1);
      modPreset i (λ _, Some next) st) st = Some (set_presets ps st) ∧
    shifted (Z.to_nat id) (Z.to_nat (presetCount st) - 1) (presets st) ps.
Proof.
  intros Hid Hlen.
  destruct (for_range_inv
    (λ k st', ∃ ps, st' = set_presets ps st ∧
                    shifted (Z.to_nat id) (Z.to_nat k) (presets st) ps)
    id (presetCount st - 1)
    (λ i st, next ← at_index (presets st) (i + 1); modPreset i (λ _, Some next) st) st)
    as (st' & Hrun & ps & -> & Hsh).
  - lia.
  - exists (presets st). split; [by rewrite set_presets_id | apply shifted_start].
  - intros k st' Hk (ps & -> & Hsh).
    destruct (lookup_lt_is_Some_2 (presets st) (S (Z.to_nat k))) as [x Hx]; [lia |].
    destruct (shifted_next _ _ _ _ x Hsh) as [Hx' Hsh']; [lia | done |].
    destruct (lookup_lt_is_Some_2 ps (Z.to_nat k)) as [y Hy].
    { apply lookup_lt_Some in Hx'. lia. }
    exists (set_presets (<[Z.to_nat k := x]> ps) st). split.
    + rewrite at_index_lookup by lia. simpl.
      replace (Z.to_nat (k + 1)) with (S (Z.to_nat k)) by lia. rewrite Hx'. simpl.
      by rewrite (modPreset_ok _ _ _ y x) by (done || lia).
    + exists (<[Z.to_nat k := x]> ps). split; [done |].
      by replace (Z.to_nat (k + 1)) with (S (Z.to_nat k)) by lia.
  - exists ps. split; [done |].
    by replace (Z.to_nat (presetCount st) - 1)%nat with (Z.to_nat (presetCount st - 1)) by lia.
Qed.

Lemma valid_after_delete (id : Z) (st : Store) (ps : list Preset) :
  valid st = true → 0 ≤ id < presetCount st →
  shifted (Z.to_nat id) (Z.to_nat (presetCount st) - 1) (presets st) ps →
  valid (activeAfterDelete id
           (set_presetCount (presetCount st - 1) (set_presets ps st))) = true.
Proof.
  intros [[Hlen Hbells]%shaped_spec (Hc & Hb & Ha)%storeInv_spec]%valid_spec Hid Hsh.
  assert (Hshape : ∀ j q, ps !! j = Some q → length (bells q) = 15%nat).
  { apply (shifted_shape _ _ _ _ _ Hsh). eauto. }
  destruct Hsh as [Hl Hps].
  assert (Hcounts : ∀ j q, ps !! j = Some q → Z.of_nat j < presetCount st - 1 →
                           0 ≤ bellCount q ≤ 15).
  { intros j q. rewrite Hps. case_decide; intros Hq Hj; eapply Hb; try done; lia. }
  unfold activeAfterDelete. simpl.
  apply valid_spec. split.
  - apply shaped_spec.
    destruct (activePresetIndex st =? id); [| destruct (id <? activePresetIndex st)];
      simpl; (split; [lia | done]).
  - apply storeInv_spec.
    destruct (activePresetIndex st =? id) eqn:E1;
      [| destruct (id <? activePresetIndex st) eqn:E2]; simpl;
      (split; [lia |]); (split; [done |]).
    + by left.
    + apply Z.ltb_lt in E2. lia.
    + apply Z.eqb_neq in E1. apply Z.ltb_ge in E2. lia.
Qed.

(** C6.  For a valid index, [handleDeletePreset] removes that preset from
    the presets in use and keeps the others in order (the later ones one
    place down); the selector becomes -1 when it pointed at the deleted
    preset, goes down by one when it pointed past it, and is kept when it
    pointed before it (or was -1).  The result is saved. *)
Theorem delete_preset_adjusts_active (id : Z) (s : State) :
  valid (store s) = true →
  0 ≤ id < presetCount (store s) →
  ∃ s',
    handleDeletePreset id s = Some s' ∧
    contents (store s') = delete (Z.to_nat id) (contents (store s)) ∧
    presetCount (store s') = presetCount (store s) - 1 ∧
    (activePresetIndex (store s) = id → activePresetIndex (store s') = -1) ∧
    (id < activePresetIndex (store s) →
     activePresetIndex (store s') = activePresetIndex (store s) - 1) ∧
    (activePresetIndex (store s) < id →
     activePresetIndex (store s') = activePresetIndex (store s)) ∧
    bellDuration (store s') = bellDuration (store s) ∧
    lastDay (store s') = lastDay (store s) ∧
    valid (store s') = true ∧
    (fsOk (dev s) = true → config (dev s') = Json (docOf (store s'))).
Proof.
  intros Hv Hid.
  pose proof Hv as [[Hlen _]%shaped_spec (Hc & _)%storeInv_spec]%valid_spec.
  destruct (deletePreset_loop id (store s)) as (ps & Hloop & Hsh); [done | lia |].
  set (st' := activeAfterDelete id
                (set_presetCount (presetCount (store s) - 1) (set_presets ps (store s)))).
  assert (Hv' : valid st' = true) by by apply valid_after_delete.
  exists (send 200 "Preset deleted" (persist (set_store st' s))).
  assert (Hst : store (send 200 "Preset deleted" (persist (set_store st' s))) = st').
  { simpl. by rewrite store_persist. }
  rewrite Hst.
  split.
  { unfold handleDeletePreset.
    replace ((id <? 0) || (presetCount (store s) <=? id)) with false.
    - rewrite Hloop. cbn [mbind option_bind].
      change (saveData (set_store st' s) ≫= (λ s0, Some (send 200 "Preset deleted" s0)) =
              Some (send 200 "Preset deleted" (persist (set_store st' s)))).
      by rewrite (saveData_valid (set_store st' s)).
    - symmetry. apply orb_false_iff. split; [apply Z.ltb_ge | apply Z.leb_gt]; lia. }
  assert (Hps : presets st' = ps ∧ presetCount st' = presetCount (store s) - 1 ∧
                bellDuration st' = bellDuration (store s) ∧ lastDay st' = lastDay (store s)).
  { unfold st', activeAfterDelete.
    destruct (_ =? _); [| destruct (_ <? _)]; done. }
  destruct Hps as (Hps & Hcnt & Hdur & Hld).
  split.
  { unfold contents, counted. rewrite Hps, Hcnt.
    rewrite <- list_fmap_delete. f_equal.
    replace (Z.to_nat (presetCount (store s) - 1))
      with (Z.to_nat (presetCount (store s)) - 1)%nat by lia.
    apply shifted_delete; [done | lia]. }
  split; [done |].
  split; [| split; [| split]].
  - intros Heq. unfold st', activeAfterDelete. simpl.
    by rewrite (proj2 (Z.eqb_eq _ _) Heq).
  - intros Hlt. unfold st', activeAfterDelete. simpl.
    rewrite (proj2 (Z.eqb_neq _ _)) by lia. by rewrite (proj2 (Z.ltb_lt _ _) Hlt).
  - intros Hlt. unfold st', activeAfterDelete. simpl.
    rewrite (proj2 (Z.eqb_neq _ _)) by lia. by rewrite (proj2 (Z.ltb_ge _ _)) by lia.
  - split; [done |]. split; [done |]. split; [done |].
    intros Hok. simpl. by rewrite (persist_config (set_store st' s) Hok).
Qed.

Lemma delete_preset_adjusts_active_witness :
  ∃ s',
    handleDeletePreset 0 twoPresetState = Some s' ∧
    contents (store s') = delete (Z.to_nat 0) (contents (store twoPresetState)) ∧
    presetCount (store s') = presetCount (store twoPresetState) - 1 ∧
    (activePresetIndex (store twoPresetState) = 0 → activePresetIndex (store s') = -1) ∧
    (0 < activePresetIndex (store twoPresetState) →
     activePresetIndex (store s') = activePresetIndex (store twoPresetState) - 1) ∧
    (activePresetIndex (store twoPresetState) < 0 →
     activePresetIndex (store s') = activePresetIndex (store twoPresetState)) ∧
    bellDuration (store s') = bellDuration (store twoPresetState) ∧
    lastDay (store s') = lastDay (store twoPresetState) ∧
    valid (store s') = true ∧
    (fsOk (dev twoPresetState) = true → config (dev s') = Json (docOf (store s'))).
Proof.
  apply (delete_preset_adjusts_active 0 twoPresetState); [reflexivity | simpl; lia].
Defined.

(** Deleting [Weekday] leaves [Exam] as preset 0 and keeps it active;
    deleting [Exam], the active preset, leaves no active preset. *)
Example delete_preset_scenario :
  ((λ s, (contents (store s), activePresetIndex (store s))) <$>
     handleDeletePreset 0 twoPresetState) =
    Some ([("Exam", [mkBell 9 0 false])], 0) ∧
  ((λ s, (fst <$> contents (store s), activePresetIndex (store s))) <$>
     handleDeletePreset 1 twoPresetState) =
    Some (["Weekday"], -1).
Proof. split; vm_compute; reflexivity. Qed.

(** ** Loading *)

Lemma imapPrefix_lookup {A} (n : nat) (g : nat → A → A) (l : list A) (j : nat) :
  imapPrefix n g l !! j = (λ x, if decide (j < n)%nat then g j x else x) <$> l !! j.
Proof. unfold imapPrefix. by rewrite list_lookup_imap. Qed.

Lemma imapPrefix_length {A} (n : nat) (g : nat → A → A) (l : list A) :
  length (imapPrefix n g l) = length l.
Proof. unfold imapPrefix. by rewrite length_imap. Qed.

Lemma imapPrefix_0 {A} (g : nat → A → A) (l : list A) : imapPrefix 0 g l = l.
Proof.
  apply list_eq. intros j. rewrite imapPrefix_lookup.
  by destruct (l !! j).
Qed.

Lemma imapPrefix_S {A} (n : nat) (g : nat → A → A) (l : list A) (x : A) :
  l !! n = Some x → imapPrefix (S n) g l = <[n := g n x]> (imapPrefix n g l).
Proof.
  intros Hx. apply list_eq. intros j. destruct (decide (j = n)) as [->|Hne].
  - rewrite list_lookup_insert_eq
      by (rewrite imapPrefix_length; by eapply lookup_lt_Some).
    rewrite imapPrefix_lookup, Hx. simpl. by rewrite decide_True by lia.
  - rewrite list_lookup_insert_ne by done. rewrite !imapPrefix_lookup.
    destruct (l !! j); simpl; [| done]. repeat case_decide; try done; lia.
Qed.

Lemma loadBell_ok (i j : Z) (o : JBell) (st : Store) (q : Preset) (b : Bell) :
  0 ≤ i → 0 ≤ j →
  presets st !! Z.to_nat i = Some q → bells q !! Z.to_nat j = Some b →
  loadBell i j o st =
  Some (set_presets
          (<[Z.to_nat i := set_bells (<[Z.to_nat j := ofJBell o]> (bells q)) q]> (presets st))
          st).
Proof.
  intros Hi Hj Hq Hb. unfold loadBell.
  assert (Hiq : (Z.to_nat i < length (presets st))%nat) by by eapply lookup_lt_Some.
  assert (Hjb : (Z.to_nat j < length (bells q))%nat) by by eapply lookup_lt_Some.
  erewrite modPreset_ok; [| done | done | by apply modBell_ok].
  simpl.
  erewrite modPreset_ok; [| done | by apply list_lookup_insert_eq |].
  2:{ apply modBell_ok; [done |]. simpl. by apply list_lookup_insert_eq. }
  simpl.
  erewrite modPreset_ok; [| done | |].
  2:{ apply list_lookup_insert_eq. by rewrite length_insert. }
  2:{ apply modBell_ok; [done |]. simpl. apply list_lookup_insert_eq.
      by rewrite length_insert. }
  simpl. rewrite !list_insert_insert_eq. done.
Qed.

Lemma loadBells_loop (i m : Z) (js : option (list JBell)) (st : Store) (q : Preset) :
  0 ≤ i → presets st !! Z.to_nat i = Some q → m ≤ Z.of_nat (length (bells q)) →
  for_range 0 m (λ j st, loadBell i j (json_at nullBell js j) st) st =
  Some (set_presets
          (<[Z.to_nat i :=
               set_bells (imapPrefix (Z.to_nat m)
                            (λ j _, ofJBell (json_at nullBell js (Z.of_nat j))) (bells q)) q]>
             (presets st)) st).
Proof.
  intros Hi Hq Hm.
  destruct (Z.le_gt_cases m 0) as [Hneg|Hpos].
  { rewrite for_range_empty by lia. replace (Z.to_nat m) with 0%nat by lia.
    by rewrite imapPrefix_0, set_bells_id, list_insert_id, set_presets_id. }
  destruct (for_range_inv
    (λ k st', st' = set_presets
       (<[Z.to_nat i :=
            set_bells (imapPrefix (Z.to_nat k)
                         (λ j _, ofJBell (json_at nullBell js (Z.of_nat j))) (bells q)) q]>
          (presets st)) st)
    0 m (λ j st, loadBell i j (json_at nullBell js j) st) st) as (st' & Hrun & ->);
    [lia | | | done].
  - by rewrite imapPrefix_0, set_bells_id, list_insert_id, set_presets_id.
  - intros k st' Hk ->.
    destruct (lookup_lt_is_Some_2 (bells q) (Z.to_nat k)) as [b Hb]; [lia |].
    eexists. split; [| reflexivity].
    rewrite (loadBell_ok _ _ _ _
               (set_bells (imapPrefix (Z.to_nat k)
                  (λ j _, ofJBell (json_at nullBell js (Z.of_nat j))) (bells q)) q) b);
      [| done | lia | |].
    + f_equal. unfold set_presets. simpl. rewrite list_insert_insert_eq.
      do 2 f_equal. unfold set_bells. simpl. f_equal.
      replace (Z.to_nat (k + 1)) with (S (Z.to_nat k)) by lia.
      rewrite (imapPrefix_S _ _ _ b Hb). by rewrite Z2Nat.id by lia.
    + simpl. apply list_lookup_insert_eq. by eapply lookup_lt_Some.
    + simpl. rewrite imapPrefix_lookup, Hb. simpl. by rewrite decide_False by lia.
Qed.

Lemma loadPreset_ok (i : Z) (o : JPreset) (st : Store) (q : Preset) :
  0 ≤ i → presets st !! Z.to_nat i = Some q → length (bells q) = 15%nat →
  loadPreset i o st =
  Some (set_presets (<[Z.to_nat i := loadedPreset o q]> (presets st)) st).
Proof.
  intros Hi Hq Hlen. unfold loadPreset.
  assert (Hiq : (Z.to_nat i < length (presets st))%nat) by by eapply lookup_lt_Some.
  set (q1 := set_name (as_String (j_name o)) q).
  set (q2 := set_bellCount (default 0 (j_bellCount o)) q1).
  rewrite (modPreset_ok _ _ _ q q1) by done. simpl.
  rewrite (modPreset_ok _ _ _ q1 q2); [| done | by apply list_lookup_insert_eq | done].
  simpl. rewrite list_insert_insert_eq.
  rewrite at_index_lookup by done. simpl.
  rewrite list_lookup_insert_eq by done. simpl.
  rewrite (loadBells_loop _ _ _ _ q2); [| done | |].
  - f_equal. unfold set_presets. simpl. by rewrite list_insert_insert_eq.
  - simpl. by apply list_lookup_insert_eq.
  - simpl. rewrite Hlen. unfold MAX_BELLS_PER_PRESET. lia.
Qed.

(** [loadData] stays inside the arrays whatever the document says. *)
Lemma loadData_too_large (s : State) (doc : JDoc) :
  config (dev s) = Json doc → JSON_CAPACITY < docSize true doc → loadData s = Some s.
Proof.
  intros Hcfg Hbig. unfold loadData. rewrite Hcfg.
  by rewrite (proj2 (Z.leb_gt _ _)).
Qed.

Lemma loadData_json (s : State) (doc : JDoc) :
  shaped (store s) = true → config (dev s) = Json doc →
  docSize true doc ≤ JSON_CAPACITY →
  loadData s = Some (set_store (loadedStore doc (store s)) s).
Proof.
  intros [Hlen Hbells]%shaped_spec Hcfg Hfit. unfold loadData. rewrite Hcfg.
  rewrite (proj2 (Z.leb_le _ _)) by done.
  set (n := Z.min (default 0 (j_presetCount doc)) MAX_PRESETS).
  set (st0 := set_bellDuration (default DEFAULT_RELAY_DURATION (j_bellDuration doc))
                (set_activePresetIndex (default (-1) (j_activePreset doc))
                   (set_presetCount (default 0 (j_presetCount doc)) (store s)))).
  set (g := λ (i : nat) (q : Preset),
              loadedPreset (json_at nullPreset (j_presets doc) (Z.of_nat i)) q).
  change (Z.min (presetCount st0) MAX_PRESETS) with n.
  assert (Hgoal : for_range 0 n
            (λ i st, loadPreset i (json_at nullPreset (j_presets doc) i) st) st0 =
          Some (set_presets (imapPrefix (Z.to_nat n) g (presets (store s))) st0)).
  { destruct (Z.le_gt_cases n 0) as [Hneg|Hpos].
    { rewrite for_range_empty by lia. replace (Z.to_nat n) with 0%nat by lia.
      by rewrite imapPrefix_0. }
    destruct (for_range_inv
      (λ k st', st' = set_presets (imapPrefix (Z.to_nat k) g (presets (store s))) st0)
      0 n (λ i st, loadPreset i (json_at nullPreset (j_presets doc) i) st) st0)
      as (st' & Hrun & ->); [lia | | | done].
    - by rewrite imapPrefix_0.
    - intros k st' Hk ->.
      assert (Hk15 : k < 15) by (unfold n, MAX_PRESETS in Hk; lia).
      destruct (lookup_lt_is_Some_2 (presets (store s)) (Z.to_nat k)) as [q Hq]; [lia |].
      eexists. split; [| reflexivity].
      rewrite (loadPreset_ok _ _ _ q); [| lia | |].
      + f_equal. unfold set_presets. simpl. f_equal.
        replace (Z.to_nat (k + 1)) with (S (Z.to_nat k)) by lia.
        rewrite (imapPrefix_S _ g _ q Hq). unfold g. by rewrite Z2Nat.id by lia.
      + simpl. rewrite imapPrefix_lookup, Hq. simpl. by rewrite decide_False by lia.
      + eauto. }
  rewrite Hgoal. done.
Qed.

(** ** Save, then load *)

Arguments json_at : simpl never.

Lemma json_at_lookup {A} (dflt : A) (l : list A) (j : nat) (x : A) :
  l !! j = Some x → json_at dflt (Some l) (Z.of_nat j) = x.
Proof. intros Hx. unfold json_at. by rewrite at_index_nat, Hx. Qed.

Lemma ofJBell_bellDoc (b : Bell) : ofJBell (bellDoc b) = b.
Proof. by destruct b. Qed.

Lemma loadedPreset_presetDoc (p q : Preset) :
  length (bells p) = 15%nat → length (bells q) = 15%nat → 0 ≤ bellCount p ≤ 15 →
  name (loadedPreset (presetDoc p) q) = name p ∧
  bellCount (loadedPreset (presetDoc p) q) = bellCount p ∧
  bellsOf (loadedPreset (presetDoc p) q) = bellsOf p ∧
  length (bells (loadedPreset (presetDoc p) q)) = 15%nat.
Proof.
  intros Hp Hq Hc. unfold loadedPreset, presetDoc, bellsOf. simpl.
  split; [done |]. split; [done |]. split; [| by rewrite imapPrefix_length].
  unfold MAX_BELLS_PER_PRESET. rewrite Z.min_l by lia.
  apply list_eq. intros j.
  destruct (decide (j < Z.to_nat (bellCount p))%nat) as [Hj|Hj].
  - rewrite !lookup_take_lt by done. rewrite imapPrefix_lookup.
    destruct (lookup_lt_is_Some_2 (bells q) j) as [y Hy]; [lia |].
    destruct (lookup_lt_is_Some_2 (bells p) j) as [b Hb]; [lia |].
    rewrite Hy, Hb. simpl. rewrite decide_True by done.
    rewrite (json_at_lookup _ _ _ (bellDoc b)).
    + by rewrite ofJBell_bellDoc.
    + by rewrite list_lookup_fmap, lookup_take_lt, Hb.
  - by rewrite !lookup_take_ge by lia.
Qed.

Lemma loaded_counted (st st0 : Store) (j : nat) (p : Preset) :
  valid st = true → shaped st0 = true →
  counted st !! j = Some p →
  ∃ q, presets st0 !! j = Some q ∧
       counted (loadedStore (fullDoc st) st0) !! j = Some (loadedPreset (presetDoc p) q) ∧
       length (bells p) = 15%nat ∧ length (bells q) = 15%nat ∧ 0 ≤ bellCount p ≤ 15.
Proof.
  intros [[Hlen Hbells]%shaped_spec (Hc & Hb & _)%storeInv_spec]%valid_spec
         [Hlen0 Hbells0]%shaped_spec Hp.
  apply lookup_take_Some in Hp as [Hp Hj].
  destruct (lookup_lt_is_Some_2 (presets st0) j) as [q Hq]; [lia |].
  exists q. split; [done |]. split.
  - unfold counted, loadedStore. simpl. unfold MAX_PRESETS. rewrite Z.min_l by lia.
    rewrite lookup_take_lt by done. rewrite imapPrefix_lookup, Hq. simpl.
    rewrite decide_True by done. do 2 f_equal.
    apply json_at_lookup. unfold counted.
    by rewrite list_lookup_fmap, lookup_take_lt, Hp.
  - split; [eauto |]. split; [eauto |]. apply (Hb _ _ Hp). lia.
Qed.

Lemma loaded_length (st st0 : Store) :
  valid st = true → shaped st0 = true →
  length (counted (loadedStore (fullDoc st) st0)) = length (counted st).
Proof.
  intros [[Hlen _]%shaped_spec (Hc & _)%storeInv_spec]%valid_spec [Hlen0 _]%shaped_spec.
  unfold counted, loadedStore. simpl.
  rewrite !length_take, imapPrefix_length. lia.
Qed.

(** Loading the document of a valid store gives its contents back. *)
Lemma loaded_contents (st st0 : Store) :
  valid st = true → shaped st0 = true →
  contents (loadedStore (fullDoc st) st0) = contents st ∧
  bellCount <$> counted (loadedStore (fullDoc st) st0) = bellCount <$> counted st.
Proof.
  intros Hv Hs0.
  assert (Hpt : ∀ j, counted (loadedStore (fullDoc st) st0) !! j =
                     match counted st !! j with
                     | Some p => (λ q, loadedPreset (presetDoc p) q) <$> presets st0 !! j
                     | None => None
                     end).
  { intros j. destruct (counted st !! j) as [p|] eqn:Hp.
    - destruct (loaded_counted st st0 j p Hv Hs0 Hp) as (q & Hq & Hl & _).
      by rewrite Hl, Hq.
    - apply lookup_ge_None. rewrite loaded_length by done. by apply lookup_ge_None. }
  split; apply list_eq; intros j; unfold contents; rewrite !list_lookup_fmap, Hpt;
    destruct (counted st !! j) as [p|] eqn:Hp; try done;
    destruct (loaded_counted st st0 j p Hv Hs0 Hp) as (q & Hq & _ & Hlp & Hlq & Hc);
    rewrite Hq; simpl;
    destruct (loadedPreset_presetDoc p q Hlp Hlq Hc) as (Hn & Hbc & Hbs & _);
    by rewrite ?Hn, ?Hbs, ?Hbc.
Qed.

Lemma loaded_valid (st st0 : Store) :
  valid st = true → shaped st0 = true → valid (loadedStore (fullDoc st) st0) = true.
Proof.
  intros Hv Hs0.
  pose proof Hv as [[Hlen Hbells]%shaped_spec (Hc & Hb & Ha)%storeInv_spec]%valid_spec.
  pose proof Hs0 as [Hlen0 Hbells0]%shaped_spec.
  apply valid_spec. split.
  - apply shaped_spec. simpl. rewrite imapPrefix_length. split; [done |].
    intros k r. rewrite imapPrefix_lookup.
    intros (q & Hq & ->)%fmap_Some. case_decide; [| eauto].
    unfold loadedPreset. simpl. rewrite imapPrefix_length. eauto.
  - apply storeInv_spec. simpl. split; [done |]. split; [| done].
    intros k r Hr Hk.
    assert (Hcr : counted (loadedStore (fullDoc st) st0) !! k = Some r).
    { unfold counted. simpl. by rewrite lookup_take_lt by lia. }
    destruct (lookup_lt_is_Some_2 (counted st) k) as [p Hp].
    { unfold counted. rewrite length_take. lia. }
    destruct (loaded_counted st st0 k p Hv Hs0 Hp) as (q & Hq & Hl & Hlp & Hlq & Hcp).
    rewrite Hl in Hcr. injection Hcr as <-.
    by rewrite (proj1 (proj2 (loadedPreset_presetDoc p q Hlp Hlq Hcp))).
Qed.

(** X15.  Save a valid store whose document fits the pool (the file can be
    written), then load the file: into the globals of a freshly started
    sketch, or over any other content of the arrays.  The file holds the
    whole document, and the loaded store has the same presets in use, with
    the same names and the same bells in the same order, each bell with its
    hour, minute and flag as saved; the same counts, selector and
    duration. *)
Theorem save_then_load_roundtrip (s : State) :
  valid (store s) = true →
  fitsLoad (store s) = true →
  fsOk (dev s) = true →
  ∃ s1,
    saveData s = Some s1 ∧
    config (dev s1) = Json (fullDoc (store s)) ∧
    (∃ s2, setup (powerOn (config (dev s1)) true) = Some s2 ∧
           contents (store s2) = contents (store s) ∧
           bellCount <$> counted (store s2) = bellCount <$> counted (store s) ∧
           presetCount (store s2) = presetCount (store s) ∧
           activePresetIndex (store s2) = activePresetIndex (store s) ∧
           bellDuration (store s2) = bellDuration (store s)) ∧
    ∀ s0, shaped (store s0) = true → config (dev s0) = config (dev s1) →
      ∃ s2, loadData s0 = Some s2 ∧
            contents (store s2) = contents (store s) ∧
            bellCount <$> counted (store s2) = bellCount <$> counted (store s) ∧
            presetCount (store s2) = presetCount (store s) ∧
            activePresetIndex (store s2) = activePresetIndex (store s) ∧
            bellDuration (store s2) = bellDuration (store s).
Proof.
  intros Hv Hfit Hok. exists (persist s).
  assert (Hcfg : config (dev (persist s)) = Json (fullDoc (store s))).
  { rewrite persist_config by done. by rewrite docOf_fits by by apply fitsLoad_fitsSave. }
  split; [by apply saveData_valid |]. split; [done |].
  assert (Hload : ∀ s0, shaped (store s0) = true →
            config (dev s0) = config (dev (persist s)) →
            ∃ s2, loadData s0 = Some s2 ∧
              contents (store s2) = contents (store s) ∧
              bellCount <$> counted (store s2) = bellCount <$> counted (store s) ∧
              presetCount (store s2) = presetCount (store s) ∧
              activePresetIndex (store s2) = activePresetIndex (store s) ∧
              bellDuration (store s2) = bellDuration (store s)).
  { intros s0 Hs0 Hc0. rewrite Hcfg in Hc0.
    exists (set_store (loadedStore (fullDoc (store s)) (store s0)) s0).
    split; [apply loadData_json; [done | done | by apply Z.leb_le] |].
    destruct (loaded_contents (store s) (store s0) Hv Hs0) as [Hcont Hcnt].
    simpl. by rewrite Hcont, Hcnt. }
  split; [| done].
  apply Hload; [done |]. done.
Qed.

Lemma save_then_load_roundtrip_witness :
  ∃ s1,
    saveData twoPresetState = Some s1 ∧
    config (dev s1) = Json (fullDoc (store twoPresetState)) ∧
    (∃ s2, setup (powerOn (config (dev s1)) true) = Some s2 ∧
           contents (store s2) = contents (store twoPresetState) ∧
           bellCount <$> counted (store s2) = bellCount <$> counted (store twoPresetState) ∧
           presetCount (store s2) = presetCount (store twoPresetState) ∧
           activePresetIndex (store s2) = activePresetIndex (store twoPresetState) ∧
           bellDuration (store s2) = bellDuration (store twoPresetState)) ∧
    ∀ s0, shaped (store s0) = true → config (dev s0) = config (dev s1) →
      ∃ s2, loadData s0 = Some s2 ∧
            contents (store s2) = contents (store twoPresetState) ∧
            bellCount <$> counted (store s2) = bellCount <$> counted (store twoPresetState) ∧
            presetCount (store s2) = presetCount (store twoPresetState) ∧
            activePresetIndex (store s2) = activePresetIndex (store twoPresetState) ∧
            bellDuration (store s2) = bellDuration (store twoPresetState).
Proof.
  apply (save_then_load_roundtrip twoPresetState); reflexivity.
Defined.

(** C9 fails on the sketch.  The handlers accept fifteen presets of fifteen
    bells each, and [saveData] inserts all of them into a document of 8192
    bytes: room for 512 slots, where the full store takes 964 and a copy of
    every name.  The file written for the full store breaks off in the
    eighth preset, and it does not fit the document of [loadData] either:
    after a restart nothing is loaded, the store has no preset, no bell and
    no selector. *)
Theorem full_store_lost_on_restart :
  store <$> serve fillRequests (powerOn NoFile true) = Some fullStore ∧
  valid fullStore = true ∧
  length (contents fullStore) = 15%nat ∧
  JSON_CAPACITY = 512 * JSON_SLOT ∧
  docSize false (fullDoc fullStore) = 964 * JSON_SLOT + 15 * stringSize "Weekday" ∧
  (s1 ← saveData fullState;
   d ← match config (dev s1) with Json d => Some d | _ => None end;
   ps ← j_presets d;
   Some (length ps, JSON_CAPACITY <? docSize true d)) = Some (8%nat, true) ∧
  (s2 ← restart fullState;
   Some (presetCount (store s2), activePresetIndex (store s2), contents (store s2))) =
  Some (0, -1, []).
Proof. repeat split; vm_compute; reflexivity. Qed.

(** ** The handlers keep the store valid *)

Lemma valid_insert_preset (st : Store) (i : nat) (q : Preset) :
  valid st = true → (i < 15)%nat → length (bells q) = 15%nat →
  (Z.of_nat i < presetCount st → 0 ≤ bellCount q ≤ 15) →
  valid (set_presets (<[i := q]> (presets st)) st) = true.
Proof.
  intros [[Hlen Hbells]%shaped_spec (Hc & Hb & Ha)%storeInv_spec]%valid_spec Hi Hq Hcq.
  apply valid_spec. split.
  - apply shaped_spec. simpl. rewrite length_insert. split; [done |].
    intros k r. destruct (decide (k = i)) as [->|Hne].
    + rewrite list_lookup_insert_eq by lia. by intros [= <-].
    + rewrite list_lookup_insert_ne by done. eauto.
  - apply storeInv_spec. simpl. split; [done |]. split; [| done].
    intros k r. destruct (decide (k = i)) as [->|Hne].
    + rewrite list_lookup_insert_eq by lia. intros [= <-]. done.
    + rewrite list_lookup_insert_ne by done. eauto.
Qed.

Lemma send_store (code : Z) (body : string) (s : State) :
  store (send code body s) = store s.
Proof. done. Qed.

Lemma save_and_send_valid (st' : Store) (s : State) (code : Z) (body : string) :
  valid st' = true →
  ∃ s', (saveData (set_store st' s) ≫= λ s0, Some (send code body s0)) = Some s' ∧
        valid (store s') = true.
Proof.
  intros Hv. exists (send code body (persist (set_store st' s))). split.
  - by rewrite (saveData_valid (set_store st' s) Hv).
  - simpl. by rewrite store_persist.
Qed.

Lemma handleAddPreset_valid (nm : string) (s : State) :
  valid (store s) = true →
  ∃ s', handleAddPreset nm s = Some s' ∧ valid (store s') = true.
Proof.
  intros Hv. unfold handleAddPreset.
  destruct (MAX_PRESETS <=? presetCount (store s)) eqn:Hfull; [eauto |].
  destruct (String.length nm =? 0)%nat; [eauto |].
  apply Z.leb_gt in Hfull. unfold MAX_PRESETS in Hfull.
  pose proof Hv as [[Hlen Hbells]%shaped_spec (Hc & Hb & Ha)%storeInv_spec]%valid_spec.
  set (n := presetCount (store s)) in *.
  destruct (lookup_lt_is_Some_2 (presets (store s)) (Z.to_nat n)) as [q Hq]; [lia |].
  set (q1 := set_name nm q). set (q2 := set_bellCount 0 q1).
  rewrite (modPreset_ok _ _ _ q q1) by (done || lia). simpl.
  rewrite (modPreset_ok _ _ _ q1 q2);
    [| simpl; lia | simpl; apply list_lookup_insert_eq; lia | done].
  simpl. rewrite list_insert_insert_eq.
  set (st' := set_presetCount (n + 1)
                (set_presets (<[Z.to_nat n := q2]> (presets (store s))) (store s))).
  assert (Hv' : valid st' = true).
  { apply valid_spec. split.
    - apply shaped_spec. simpl. rewrite length_insert. split; [done |].
      intros k r. destruct (decide (k = Z.to_nat n)) as [->|Hne].
      + rewrite list_lookup_insert_eq by lia. intros [= <-]. simpl. eauto.
      + rewrite list_lookup_insert_ne by done. eauto.
    - apply storeInv_spec. simpl. split; [lia |]. split; [| lia].
      intros k r. destruct (decide (k = Z.to_nat n)) as [->|Hne].
      + rewrite list_lookup_insert_eq by lia. intros [= <-]. simpl. lia.
      + rewrite list_lookup_insert_ne by done. intros Hr Hk. apply (Hb _ _ Hr). lia. }
  exact (save_and_send_valid st' s 200 "Preset added" Hv').
Qed.

Lemma handleDeletePreset_valid (id : Z) (s : State) :
  valid (store s) = true →
  ∃ s', handleDeletePreset id s = Some s' ∧ valid (store s') = true.
Proof.
  intros Hv. unfold handleDeletePreset.
  destruct ((id <? 0) || (presetCount (store s) <=? id)) eqn:Hchk; [eauto |].
  apply orb_false_iff in Hchk as [H0%Z.ltb_ge H1%Z.leb_gt].
  pose proof Hv as [[Hlen _]%shaped_spec (Hc & _)%storeInv_spec]%valid_spec.
  destruct (deletePreset_loop id (store s)) as (ps & Hloop & Hsh); [lia | lia |].
  rewrite Hloop. cbn [mbind option_bind].
  set (st' := activeAfterDelete id
                (set_presetCount (presetCount (store s) - 1) (set_presets ps (store s)))).
  assert (Hv' : valid st' = true) by (apply valid_after_delete; (done || lia)).
  exact (save_and_send_valid st' s 200 "Preset deleted" Hv').
Qed.

Lemma handleAddBell_valid (presetId h m : Z) (s : State) :
  valid (store s) = true →
  ∃ s', handleAddBell presetId h m s = Some s' ∧ valid (store s') = true.
Proof.
  intros Hv. unfold handleAddBell.
  destruct ((presetId <? 0) || (presetCount (store s) <=? presetId)) eqn:Hchk; [eauto |].
  apply orb_false_iff in Hchk as [H0%Z.ltb_ge H1%Z.leb_gt].
  pose proof Hv as [[Hlen Hbells]%shaped_spec (Hc & Hb & Ha)%storeInv_spec]%valid_spec.
  destruct (lookup_lt_is_Some_2 (presets (store s)) (Z.to_nat presetId)) as [p Hp]; [lia |].
  rewrite at_index_lookup, Hp by done. simpl.
  destruct (MAX_BELLS_PER_PRESET <=? bellCount p) eqn:Hfull; [eauto |].
  destruct ((h <? 0) || (23 <? h) || (m <? 0) || (59 <? m)); [eauto |].
  apply Z.leb_gt in Hfull. unfold MAX_BELLS_PER_PRESET in Hfull.
  assert (Hcp : 0 ≤ bellCount p ≤ 15) by (apply (Hb _ _ Hp); lia).
  assert (Hlp : length (bells p) = 15%nat) by eauto.
  assert (Hip : (Z.to_nat presetId < length (presets (store s)))%nat) by lia.
  destruct (lookup_lt_is_Some_2 (bells p) (Z.to_nat (bellCount p))) as [b Hbl]; [lia |].
  set (c := Z.to_nat (bellCount p)) in *.
  set (p1 := set_bells (<[c := set_hour h b]> (bells p)) p).
  set (p2 := set_bells (<[c := set_minute m (set_hour h b)]> (bells p1)) p1).
  set (p3 := set_bells (<[c := set_triggeredToday false (set_minute m (set_hour h b))]>
                          (bells p2)) p2).
  set (p4 := set_bellCount (bellCount p3 + 1) p3).
  rewrite (modPreset_ok _ _ _ p p1); [| done | done | by apply modBell_ok; [lia |]].
  simpl.
  rewrite (modPreset_ok _ _ _ p1 p2); [| done | by apply list_lookup_insert_eq |].
  2:{ apply modBell_ok; [lia |]. simpl. apply list_lookup_insert_eq. fold c. lia. }
  simpl. rewrite list_insert_insert_eq.
  rewrite (modPreset_ok _ _ _ p2 p3); [| done | by apply list_lookup_insert_eq |].
  2:{ apply modBell_ok; [lia |]. simpl. apply list_lookup_insert_eq.
      rewrite length_insert. fold c. lia. }
  simpl. rewrite list_insert_insert_eq.
  rewrite (modPreset_ok _ _ _ p3 p4); [| done | by apply list_lookup_insert_eq | done].
  simpl. rewrite list_insert_insert_eq.
  set (st' := set_presets (<[Z.to_nat presetId := p4]> (presets (store s))) (store s)).
  assert (Hv' : valid st' = true).
  { apply valid_insert_preset; [done | lia | |].
    - simpl. rewrite !length_insert. done.
    - simpl. lia. }
  exact (save_and_send_valid st' s 200 "Bell added" Hv').
Qed.

(** The shifting loop of [handleDeleteBell]. *)
Lemma deleteBell_loop (presetId bellId : Z) (st : Store) (p : Preset) :
  0 ≤ presetId → presets st !! Z.to_nat presetId = Some p →
  0 ≤ bellId < bellCount p → bellCount p ≤ Z.of_nat (length (bells p)) →
  ∃ bs,
    for_range bellId (bellCount p - 1) (λ i st,
      modPreset presetId (λ q,
        next ← at_index (bells q) (i + 1);
        modBell i (λ _, next) q) st) st =
    Some (set_presets (<[Z.to_nat presetId := set_bells bs p]> (presets st)) st) ∧
    shifted (Z.to_nat bellId) (Z.to_nat (bellCount p) - 1) (bells p) bs.
Proof.
  intros Hpid Hp Hbid Hlen.
  assert (Hip : (Z.to_nat presetId < length (presets st))%nat) by by eapply lookup_lt_Some.
  destruct (for_range_inv
    (λ k st', ∃ bs,
       st' = set_presets (<[Z.to_nat presetId := set_bells bs p]> (presets st)) st ∧
       shifted (Z.to_nat bellId) (Z.to_nat k) (bells p) bs)
    bellId (bellCount p - 1)
    (λ i st, modPreset presetId (λ q,
               next ← at_index (bells q) (i + 1); modBell i (λ _, next) q) st) st)
    as (st' & Hrun & bs & -> & Hsh).
  - lia.
  - exists (bells p). split; [| apply shifted_start].
    by rewrite set_bells_id, list_insert_id, set_presets_id.
  - intros k st' Hk (bs & -> & Hsh).
    destruct (lookup_lt_is_Some_2 (bells p) (S (Z.to_nat k))) as [x Hx]; [lia |].
    destruct (shifted_next _ _ _ _ x Hsh) as [Hx' Hsh']; [lia | done |].
    destruct (lookup_lt_is_Some_2 bs (Z.to_nat k)) as [y Hy].
    { apply lookup_lt_Some in Hx'. lia. }
    exists (set_presets (<[Z.to_nat presetId := set_bells (<[Z.to_nat k := x]> bs) p]>
                           (presets st)) st).
    split.
    + rewrite (modPreset_ok _ _ _ (set_bells bs p) (set_bells (<[Z.to_nat k := x]> bs) p)).
      * f_equal. unfold set_presets. simpl. by rewrite list_insert_insert_eq.
      * done.
      * simpl. by apply list_lookup_insert_eq.
      * rewrite at_index_lookup by lia. simpl.
        replace (Z.to_nat (k + 1)) with (S (Z.to_nat k)) by lia. rewrite Hx'. simpl.
        by rewrite (modBell_ok _ _ _ y) by (done || lia).
    + exists (<[Z.to_nat k := x]> bs). split; [done |].
      by replace (Z.to_nat (k + 1)) with (S (Z.to_nat k)) by lia.
  - exists bs. split; [done |].
    by replace (Z.to_nat (bellCount p) - 1)%nat with (Z.to_nat (bellCount p - 1)) by lia.
Qed.

Lemma handleDeleteBell_valid (presetId bellId : Z) (s : State) :
  valid (store s) = true →
  ∃ s', handleDeleteBell presetId bellId s = Some s' ∧ valid (store s') = true.
Proof.
  intros Hv. unfold handleDeleteBell.
  destruct ((presetId <? 0) || (presetCount (store s) <=? presetId)) eqn:Hchk; [eauto |].
  apply orb_false_iff in Hchk as [H0%Z.ltb_ge H1%Z.leb_gt].
  pose proof Hv as [[Hlen Hbells]%shaped_spec (Hc & Hb & Ha)%storeInv_spec]%valid_spec.
  destruct (lookup_lt_is_Some_2 (presets (store s)) (Z.to_nat presetId)) as [p Hp]; [lia |].
  rewrite at_index_lookup, Hp by done. simpl.
  destruct ((bellId <? 0) || (bellCount p <=? bellId)) eqn:Hchk'; [eauto |].
  apply orb_false_iff in Hchk' as [H2%Z.ltb_ge H3%Z.leb_gt].
  assert (Hcp : 0 ≤ bellCount p ≤ 15) by (apply (Hb _ _ Hp); lia).
  assert (Hlp : length (bells p) = 15%nat) by eauto.
  destruct (deleteBell_loop presetId bellId (store s) p) as (bs & Hloop & [Hlbs _]);
    [done | done | lia | lia |].
  rewrite Hloop. cbn [mbind option_bind].
  set (p1 := set_bells bs p). set (p2 := set_bellCount (bellCount p1 - 1) p1).
  rewrite (modPreset_ok _ _ _ p1 p2);
    [| done | simpl; apply list_lookup_insert_eq; lia | done].
  simpl. rewrite list_insert_insert_eq.
  set (st' := set_presets (<[Z.to_nat presetId := p2]> (presets (store s))) (store s)).
  assert (Hv' : valid st' = true).
  { apply valid_insert_preset; [done | lia | |].
    - simpl. lia.
    - simpl. lia. }
  exact (save_and_send_valid st' s 200 "Bell deleted" Hv').
Qed.

Lemma handleSetActive_valid (id : Z) (s : State) :
  valid (store s) = true →
  ∃ s', handleSetActive id s = Some s' ∧ valid (store s') = true.
Proof.
  intros Hv. unfold handleSetActive.
  destruct ((id <? -1) || (presetCount (store s) <=? id)) eqn:Hchk; [eauto |].
  apply orb_false_iff in Hchk as [H0%Z.ltb_ge H1%Z.leb_gt].
  apply save_and_send_valid.
  pose proof Hv as [Hs (Hc & Hb & Ha)%storeInv_spec]%valid_spec.
  apply valid_spec. split; [done |]. apply storeInv_spec. simpl.
  split; [done |]. split; [done |]. lia.
Qed.

Lemma handleSetDuration_valid (duration : Z) (s : State) :
  valid (store s) = true →
  ∃ s', handleSetDuration duration s = Some s' ∧ valid (store s') = true.
Proof.
  intros Hv. unfold handleSetDuration.
  destruct ((duration <? 100) || (30000 <? duration)); [eauto |].
  by apply save_and_send_valid.
Qed.

(** Every request handler runs inside the arrays and leaves a valid store
    valid. *)
Lemma handleRequest_valid (r : Request) (s : State) :
  valid (store s) = true →
  ∃ s', handleRequest r s = Some s' ∧ valid (store s') = true.
Proof.
  destruct r; simpl.
  - apply handleAddPreset_valid.
  - apply handleDeletePreset_valid.
  - apply handleAddBell_valid.
  - apply handleDeleteBell_valid.
  - apply handleSetActive_valid.
  - apply handleSetDuration_valid.
Qed.

Lemma checkBells_valid (rtc : option DateTime) (s : State) :
  valid (store s) = true →
  ∃ s', checkBells rtc s = Some s' ∧ valid (store s') = true.
Proof.
  intros Hv. destruct rtc as [now|]; [| eauto].
  destruct (checkBells_spec now s Hv) as (s' & evs & Hrun & Hst & _).
  exists s'. split; [done |]. rewrite Hst. by apply valid_fireDue, valid_rolled.
Qed.

(** The power-on store is valid, and so is a store loaded from the file that
    [saveData] wrote for a valid store whose document fits the pool. *)
Lemma setup_valid (st : Store) (writable : bool) :
  valid st = true → fitsLoad st = true →
  (∃ s', setup (powerOn NoFile writable) = Some s' ∧ valid (store s') = true) ∧
  (∃ s', setup (powerOn Garbage writable) = Some s' ∧ valid (store s') = true) ∧
  (∃ s', setup (powerOn (Json (docOf st)) writable) = Some s' ∧ valid (store s') = true).
Proof.
  intros Hv Hfit. split; [by eexists | split; [by eexists |]].
  rewrite docOf_fits by by apply fitsLoad_fitsSave.
  unfold setup. rewrite (loadData_json _ (fullDoc st)); [| done | done | by apply Z.leb_le].
  eexists. split; [reflexivity |]. simpl. by apply loaded_valid.
Qed.

(** ** Restart *)

Lemma loaded_activeBells (st st0 : Store) :
  valid st = true → shaped st0 = true →
  activeBells (loadedStore (fullDoc st) st0) = activeBells st.
Proof.
  intros Hv Hs0. unfold activeBells, hasActive. simpl.
  destruct ((0 <=? activePresetIndex st) && (activePresetIndex st <? presetCount st))
    eqn:Hact; [| done].
  destruct (hasActive_lookup st Hv Hact) as (Ha & p & Hp & _).
  assert (Hcp : counted st !! Z.to_nat (activePresetIndex st) = Some p).
  { unfold counted. by rewrite lookup_take_lt by lia. }
  destruct (loaded_counted st st0 _ p Hv Hs0 Hcp) as (q & Hq & Hl & Hlp & Hlq & Hc).
  unfold counted in Hl. simpl in Hl. rewrite lookup_take_lt in Hl by lia.
  rewrite Hl, Hp.
  apply (loadedPreset_presetDoc p q Hlp Hlq Hc).
Qed.

(** After a restart [lastDay] is -1 again, so the first tick with a working
    clock takes the new-day branch: it rings every bell of the active
    preset whose time matches, whether or not the saved flag was set. *)
Lemma restart_first_tick (now : DateTime) (s : State) :
  valid (store s) = true → fitsLoad (store s) = true →
  fsOk (dev s) = true → dt_day now ≠ -1 →
  ∃ s2 s3 evs,
    restart s = Some s2 ∧
    contents (store s2) = contents (store s) ∧
    lastDay (store s2) = -1 ∧
    checkBells (Some now) s2 = Some s3 ∧
    log (dev s3) = log (dev s2) ++ evs ∧
    relayEvents evs =
      duePulses now (u32 (bellDuration (store s)))
        (set_triggeredToday false <$> activeBells (store s)).
Proof.
  intros Hv Hfit Hok Hday. unfold restart.
  rewrite (saveData_valid s Hv). simpl.
  rewrite (proj1 (persist_frame s)), (persist_config s Hok), Hok.
  rewrite docOf_fits by by apply fitsLoad_fitsSave.
  unfold setup.
  rewrite (loadData_json _ (fullDoc (store s))); [| done | done | by apply Z.leb_le].
  set (s2 := set_store (loadedStore (fullDoc (store s)) (store (digitalWrite false
                (powerOn (Json (fullDoc (store s))) true))))
               (digitalWrite false (powerOn (Json (fullDoc (store s))) true))).
  assert (Hv2 : valid (store s2) = true) by by apply loaded_valid.
  destruct (checkBells_spec now s2 Hv2)
    as (s3 & evs & Hrun & _ & _ & _ & Hlog & Hrel & _).
  exists s2, s3, evs.
  split; [done |].
  split; [by apply loaded_contents |].
  split; [done |]. split; [done |]. split; [done |].
  rewrite Hrel. unfold rolled.
  rewrite bool_decide_eq_true_2 by (simpl; lia).
  rewrite activeBells_newDay by done. simpl.
  by rewrite loaded_activeBells.
Qed.

(** C2 fails on the sketch.  The 08:00 bell of the sample timetable has
    rung on the fifth; another tick at 08:00 that day is silent.  After a
    save and a restart the flag is still set in the loaded store, but
    [lastDay] is -1, and the first tick at 08:00 on the fifth clears the
    flag and rings the bell a second time. *)
Theorem restart_rings_again :
  checkBells (Some eightOClock) rungState = Some rungState ∧
  (s2 ← restart rungState;
   s3 ← checkBells (Some eightOClock) s2;
   Some (triggeredToday <$> activeBells (store s2), lastDay (store s2),
         relayEvents (log (dev s2)), relayEvents (log (dev s3)))) =
  Some ([true; false], -1, [EvRelay false], EvRelay false :: pulse 3000) ∧
  (s2 ← restart rungState;
   s3 ← checkBells (Some (mkDateTime 2024 1 5 10 15 0)) s2;
   Some (triggeredToday <$> activeBells (store s3))) =
  Some [false; false].
Proof. repeat split; vm_compute; reflexivity. Qed.

(** C10 fails for [loadData].  A file that announces sixteen presets is
    loaded with [presetCount] 16, and a selector that points at no preset is
    loaded as it is; neither store satisfies the invariants, and with
    sixteen presets the next [saveData] or scheduler tick reads
    [presets[15]], outside the array. *)
Theorem load_keeps_unchecked_counts :
  (∃ s, setup (powerOn (Json oversizedDoc) true) = Some s ∧
        presetCount (store s) = 16 ∧
        storeInv (store s) = false ∧
        saveData s = None ∧
        checkBells (Some eightOClock) s = None) ∧
  (∃ s, setup (powerOn (Json danglingDoc) true) = Some s ∧
        presetCount (store s) = 0 ∧
        activePresetIndex (store s) = 3 ∧
        storeInv (store s) = false).
Proof.
  split; eexists; (split; [vm_compute; reflexivity |]); repeat split; vm_compute; reflexivity.
Qed.

(** ** Emergency controller *)

Lemma u32_elapsed (t since : Z) :
  0 ≤ t - since < 2 ^ 32 → u32 (t - u32 since) = t - since.
Proof.
  intros H. unfold u32. rewrite Zminus_mod_idemp_r. by apply Z.mod_small.
Qed.

(** One tick of an active session in phase [p] that began at [since]. *)
Lemma handleEmergency_step (t t' since p : Z) (s : State) :
  emergencyActive (ctl s) = true →
  emergencyPhase (ctl s) = p →
  emergencyStartTime (ctl s) = u32 since →
  0 ≤ p ≤ 9 → (p < 9 → 0 ≤ t - since < 2 ^ 32) →
  let s' := handleEmergency t t' s in
  log (dev s') = log (dev s) ++ [EvRelay (phaseLevel p)] ∧
  relay (dev s') = phaseLevel p ∧
  store s' = store s ∧
  (p = 9 → emergencyActive (ctl s') = false ∧ emergencyPhase (ctl s') = 9) ∧
  (p < 9 →
   emergencyActive (ctl s') = true ∧
   (emergencyPhase (ctl s'), emergencyStartTime (ctl s')) =
   if phaseDuration p <=? t - since then (p + 1, u32 t') else (p, u32 since)).
Proof.
  intros Hact Hp Hstart Hrange Hel s'. subst s'. unfold handleEmergency.
  rewrite Hp, Hstart.
  assert (Hcases : p = 0 ∨ p = 1 ∨ p = 2 ∨ p = 3 ∨ p = 4 ∨ p = 5 ∨ p = 6 ∨ p = 7 ∨
                   p = 8 ∨ p = 9) by lia.
  destruct Hcases as [->|[->|[->|[->|[->|[->|[->|[->|[->| ->]]]]]]]]];
    match goal with
    | |- context [?a <? 9] =>
      let b := eval vm_compute in (a <? 9) in change (a <? 9) with b
    end;
    match goal with
    | |- context [?a `rem` 2 =? 0] =>
      let b := eval vm_compute in (a `rem` 2 =? 0) in change (a `rem` 2 =? 0) with b
    end;
    cbv iota; unfold phaseDuration, phaseLevel;
    try (rewrite u32_elapsed by (apply Hel; lia); destruct (_ <=? t - since));
    simpl; repeat first [split | intro]; rewrite ?Hp, ?Hstart; (done || lia).
Qed.

Lemma phaseDuration_bounds (p : Z) : 1000 ≤ phaseDuration p ≤ 5000.
Proof.
  unfold phaseDuration.
  destruct p as [|[[[|[]|]|[[]|[]|]|]|[[|[]|]|[[]|[]|]|]|]|]; lia.
Qed.

Section Session.

Variables (t t' : nat → Z) (T0 : Z).

(** The clock never goes back, advances from one tick to the next, and no
    tick comes more than [2 ^ 32 - 5000] ms after the one before. *)
Hypothesis first_tick : T0 ≤ t 0%nat ∧ t 0%nat - T0 < 2 ^ 32.
Hypothesis reads : ∀ k, t k ≤ t' k ≤ t (S k).
Hypothesis ticks : ∀ k, t k < t (S k).
Hypothesis gap : ∀ k, t (S k) - t k ≤ 2 ^ 32 - 5000.

Lemma sessionAt_S (k : nat) (p since : Z) :
  sessionAt t t' T0 k = (p, since) →
  sessionAt t t' T0 (S k) =
  if (p <? 9) && (phaseDuration p <=? t k - since) then (p + 1, t' k) else (p, since).
Proof. intros H. simpl. by rewrite H. Qed.

Lemma session_clock (k : nat) :
  0 ≤ (sessionAt t t' T0 k).1 ≤ 9 ∧
  (sessionAt t t' T0 k).2 ≤ t k ∧
  ((sessionAt t t' T0 k).1 < 9 → t k - (sessionAt t t' T0 k).2 < 2 ^ 32).
Proof.
  induction k as [|k IH].
  - simpl. lia.
  - destruct (sessionAt t t' T0 k) as [p since] eqn:Hk.
    rewrite (sessionAt_S k p since Hk). simpl in IH.
    pose proof (reads k). pose proof (ticks k). pose proof (gap k).
    pose proof (phaseDuration_bounds p).
    destruct ((p <? 9) && (phaseDuration p <=? t k - since)) eqn:Hc; simpl.
    + apply andb_true_iff in Hc as [Hp%Z.ltb_lt Hd%Z.leb_le]. lia.
    + apply andb_false_iff in Hc as [Hp%Z.ltb_ge|Hd%Z.leb_gt]; lia.
Qed.

Lemma session_progress (m k : nat) (p since : Z) :
  sessionAt t t' T0 k = (p, since) → p < 9 →
  (Z.to_nat (phaseDuration p - (t k - since)) ≤ m)%nat →
  ∃ j, (k < j)%nat ∧ (sessionAt t t' T0 j).1 = p + 1 ∧
       ∀ i, (k ≤ i < j)%nat → (sessionAt t t' T0 i).1 = p.
Proof.
  revert k since. induction m as [|m IH]; intros k since Hk Hp Hm.
  - exists (S k). split; [lia |]. split.
    + rewrite (sessionAt_S k p since Hk).
      rewrite (proj2 (Z.ltb_lt _ _) Hp), (proj2 (Z.leb_le _ _)) by lia. done.
    + intros i Hi. replace i with k by lia. by rewrite Hk.
  - destruct (phaseDuration p <=? t k - since) eqn:Hd.
    + exists (S k). split; [lia |]. split.
      * rewrite (sessionAt_S k p since Hk).
        by rewrite (proj2 (Z.ltb_lt _ _) Hp), Hd.
      * intros i Hi. replace i with k by lia. by rewrite Hk.
    + assert (HS : sessionAt t t' T0 (S k) = (p, since)).
      { rewrite (sessionAt_S k p since Hk). by rewrite Hd, andb_false_r. }
      apply Z.leb_gt in Hd. pose proof (ticks k).
      destruct (IH (S k) since HS Hp) as (j & Hj & Hphase & Hsame); [lia |].
      exists j. split; [lia |]. split; [done |].
      intros i Hi. destruct (decide (i = k)) as [->|Hne]; [by rewrite Hk |].
      apply Hsame. lia.
Qed.

(** Every phase up to the terminal one is reached. *)
Lemma session_reaches (n : nat) :
  (n ≤ 9)%nat →
  ∃ k, (sessionAt t t' T0 k).1 = Z.of_nat n ∧
       ∀ i, (i < k)%nat → (sessionAt t t' T0 i).1 < Z.of_nat n.
Proof.
  induction n as [|n IH]; intros Hn.
  - exists 0%nat. split; [done |]. lia.
  - destruct IH as (k & Hk & Hbefore); [lia |].
    destruct (sessionAt t t' T0 k) as [p since] eqn:Hs. simpl in Hk. subst p.
    destruct (session_progress
                (Z.to_nat (phaseDuration (Z.of_nat n) - (t k - since)))
                k (Z.of_nat n) since Hs) as (j & Hj & Hphase & Hsame);
      [lia | lia |].
    exists j. split; [rewrite Hphase; lia |].
    intros i Hi. destruct (decide (i < k)%nat) as [Hlt|Hge].
    + specialize (Hbefore i Hlt). lia.
    + rewrite Hsame by lia. lia.
Qed.

Variable s : State.
Hypothesis active0 : emergencyActive (ctl s) = true.
Hypothesis phase0 : emergencyPhase (ctl s) = 0.
Hypothesis start0 : emergencyStartTime (ctl s) = u32 T0.

(** While the terminal phase has not been stepped, the globals follow the
    specified session. *)
Lemma run_follows (k : nat) :
  (∀ i, (i < k)%nat → (sessionAt t t' T0 i).1 < 9) →
  emergencyActive (ctl (emergencyRun t t' k s)) = true ∧
  emergencyPhase (ctl (emergencyRun t t' k s)) = (sessionAt t t' T0 k).1 ∧
  emergencyStartTime (ctl (emergencyRun t t' k s)) = u32 (sessionAt t t' T0 k).2.
Proof.
  induction k as [|k IH]; intros Hbefore.
  - simpl. by rewrite active0, phase0, start0.
  - destruct IH as (Hact & Hph & Hst); [intros i Hi; apply Hbefore; lia |].
    pose proof (Hbefore k ltac:(lia)) as Hp9.
    destruct (session_clock k) as (Hr & Hle & Hlt).
    destruct (sessionAt t t' T0 k) as [p since] eqn:Hs.
    rewrite (sessionAt_S k p since Hs). cbn [fst snd] in *.
    assert (Hel : p < 9 → 0 ≤ t k - since < 2 ^ 32) by (intros; lia).
    destruct (handleEmergency_step (t k) (t' k) since p (emergencyRun t t' k s)
                Hact Hph Hst Hr Hel) as (_ & _ & _ & _ & Hstep).
    destruct (Hstep Hp9) as [Hact' Hpair].
    split; [done |].
    rewrite (proj2 (Z.ltb_lt _ _) Hp9). cbn [andb].
    change (emergencyRun t t' (S k) s)
      with (handleEmergency (t k) (t' k) (emergencyRun t t' k s)).
    destruct (phaseDuration p <=? t k - since); by injection Hpair as -> ->.
Qed.

Lemma run_tick (k : nat) :
  (∀ i, (i < k)%nat → (sessionAt t t' T0 i).1 < 9) →
  log (dev (emergencyRun t t' (S k) s)) =
    log (dev (emergencyRun t t' k s)) ++ [EvRelay (phaseLevel (sessionAt t t' T0 k).1)] ∧
  relay (dev (emergencyRun t t' (S k) s)) = phaseLevel (sessionAt t t' T0 k).1 ∧
  ((sessionAt t t' T0 k).1 = 9 →
   emergencyActive (ctl (emergencyRun t t' (S k) s)) = false ∧
   emergencyPhase (ctl (emergencyRun t t' (S k) s)) = 9).
Proof.
  intros Hbefore.
  destruct (run_follows k Hbefore) as (Hact & Hph & Hst).
  destruct (session_clock k) as (Hr & Hle & Hlt).
  assert (Hel : (sessionAt t t' T0 k).1 < 9 →
                0 ≤ t k - (sessionAt t t' T0 k).2 < 2 ^ 32) by (intros; lia).
  destruct (handleEmergency_step (t k) (t' k) (sessionAt t t' T0 k).2
              (sessionAt t t' T0 k).1 (emergencyRun t t' k s) Hact Hph Hst Hr Hel)
    as (Hlog & Hrel & _ & Hend & _).
  done.
Qed.

Lemma run_transitions (k : nat) :
  (∀ i, (i < k)%nat → (sessionAt t t' T0 i).1 < 9) →
  Z.of_nat (transitions t t' k s) = (sessionAt t t' T0 k).1.
Proof.
  induction k as [|k IH]; intros Hbefore; [done |].
  destruct (run_follows (S k) Hbefore) as (_ & Hph' & _).
  destruct (run_follows k) as (_ & Hph & _); [intros i Hi; apply Hbefore; lia |].
  cbn [transitions]. cbv zeta.
  rewrite Hph', Hph. rewrite Nat2Z.inj_add, IH by (intros i Hi; apply Hbefore; lia).
  pose proof (Hbefore k ltac:(lia)) as Hp9.
  destruct (sessionAt t t' T0 k) as [p since] eqn:Hs.
  rewrite (sessionAt_S k p since Hs). cbn [fst snd] in *.
  rewrite (proj2 (Z.ltb_lt _ _) Hp9). cbn [andb].
  destruct (phaseDuration p <=? t k - since); cbn [fst snd negb].
  - rewrite (proj2 (Z.eqb_neq _ _)) by lia. simpl. lia.
  - rewrite Z.eqb_refl. simpl. lia.
Qed.

End Session.

(** C4.  A session activated at [T0] with phase 0, stepped once per tick by
    a clock that never goes back, advances between ticks and keeps ticks
    less than [2 ^ 32 - 5000] ms apart, ends after finitely many ticks.
    Until then every tick finds the session active in the phase the
    specification prescribes for that time (phases 0, 2, 4, 6, 8 last until
    5000 ms have passed since they began, phases 1, 3, 5, 7 until 1000 ms)
    and writes that phase's level to the relay, high in the even phases and
    low in the odd ones; the last tick finds phase 9, writes low and clears
    [emergencyActive].  The phase changed on exactly nine ticks. *)
Theorem emergency_session_completes (t t' : nat → Z) (T0 : Z) (s : State) :
  emergencyActive (ctl s) = true →
  emergencyPhase (ctl s) = 0 →
  emergencyStartTime (ctl s) = u32 T0 →
  T0 ≤ t 0%nat ∧ t 0%nat - T0 < 2 ^ 32 →
  (∀ k, t k ≤ t' k ≤ t (S k)) →
  (∀ k, t k < t (S k)) →
  (∀ k, t (S k) - t k ≤ 2 ^ 32 - 5000) →
  ∃ n,
    (∀ k, (k < n)%nat →
       emergencyActive (ctl (emergencyRun t t' k s)) = true ∧
       emergencyPhase (ctl (emergencyRun t t' k s)) = (sessionAt t t' T0 k).1 ∧
       log (dev (emergencyRun t t' (S k) s)) =
         log (dev (emergencyRun t t' k s)) ++
         [EvRelay (phaseLevel (emergencyPhase (ctl (emergencyRun t t' k s))))] ∧
       relay (dev (emergencyRun t t' (S k) s)) =
         phaseLevel (emergencyPhase (ctl (emergencyRun t t' k s)))) ∧
    emergencyActive (ctl (emergencyRun t t' n s)) = false ∧
    emergencyPhase (ctl (emergencyRun t t' n s)) = 9 ∧
    relay (dev (emergencyRun t t' n s)) = false ∧
    transitions t t' n s = 9%nat.
Proof.
  intros Hact Hph Hst Hfirst Hreads Hticks Hgap.
  destruct (session_reaches t t' T0 Hticks 9) as (k9 & H9 & Hbefore); [lia |].
  change (Z.of_nat 9) with 9 in *.
  exists (S k9).
  pose proof (run_follows t t' T0 Hfirst Hreads Hticks Hgap s Hact Hph Hst) as Hfollows.
  pose proof (run_tick t t' T0 Hfirst Hreads Hticks Hgap s Hact Hph Hst) as Htick.
  destruct (Htick k9 Hbefore) as (_ & Hrel9 & Hend9). rewrite H9 in Hrel9.
  destruct (Hend9 H9) as [Hact9 Hph9].
  split; [| split; [done | split; [done | split; [done |]]]].
  - intros k Hk.
    assert (Hbk : ∀ i, (i < k)%nat → (sessionAt t t' T0 i).1 < 9)
      by (intros i Hi; apply Hbefore; lia).
    destruct (Hfollows k Hbk) as (Hactk & Hphk & _).
    destruct (Htick k Hbk) as (Hlogk & Hrelk & _).
    rewrite Hphk. done.
  - cbn [transitions]. cbv zeta.
    destruct (Hfollows k9 Hbefore) as (_ & Hphk & _).
    rewrite Hph9, Hphk, H9. simpl.
    apply Nat2Z.inj.
    rewrite Nat.add_0_r.
    rewrite (run_transitions t t' T0 Hfirst Hreads Hticks Hgap s Hact Hph Hst k9 Hbefore).
    by rewrite H9.
Qed.

Lemma emergency_session_completes_witness :
  ∃ n,
    (∀ k, (k < n)%nat →
       emergencyActive (ctl (emergencyRun every10ms every10ms k (activated 0))) = true ∧
       emergencyPhase (ctl (emergencyRun every10ms every10ms k (activated 0))) =
         (sessionAt every10ms every10ms 0 k).1 ∧
       log (dev (emergencyRun every10ms every10ms (S k) (activated 0))) =
         log (dev (emergencyRun every10ms every10ms k (activated 0))) ++
         [EvRelay (phaseLevel
            (emergencyPhase (ctl (emergencyRun every10ms every10ms k (activated 0)))))] ∧
       relay (dev (emergencyRun every10ms every10ms (S k) (activated 0))) =
         phaseLevel
           (emergencyPhase (ctl (emergencyRun every10ms every10ms k (activated 0))))) ∧
    emergencyActive (ctl (emergencyRun every10ms every10ms n (activated 0))) = false ∧
    emergencyPhase (ctl (emergencyRun every10ms every10ms n (activated 0))) = 9 ∧
    relay (dev (emergencyRun every10ms every10ms n (activated 0))) = false ∧
    transitions every10ms every10ms n (activated 0) = 9%nat.
Proof.
  apply (emergency_session_completes every10ms every10ms 0 (activated 0)).
  - reflexivity.
  - reflexivity.
  - reflexivity.
  - unfold every10ms. simpl. lia.
  - intros k. unfold every10ms. lia.
  - intros k. unfold every10ms. lia.
  - intros k. unfold every10ms. lia.
Defined.

(** The scenario of the specification with one tick every 250 ms from the
    activation at 0: the phases begin at 5000, 6000, 11000, 12000, 17000,
    18000, 23000, 24000 and 29000 ms, and the tick after that ends the
    session with the relay low. *)
Example emergency_scenario :
  (λ k, sessionAt every250ms every250ms 0 k) <$>
    [20; 21; 25; 45; 49; 69; 73; 93; 97; 117]%nat =
  [(0, 0); (1, 5000); (2, 6000); (3, 11000); (4, 12000); (5, 17000); (6, 18000);
   (7, 23000); (8, 24000); (9, 29000)] ∧
  (let s := emergencyRun every250ms every250ms 117 (activated 0) in
   (emergencyActive (ctl s), emergencyPhase (ctl s), relay (dev s))) = (true, 9, true) ∧
  (let s := emergencyRun every250ms every250ms 118 (activated 0) in
   (emergencyActive (ctl s), emergencyPhase (ctl s), relay (dev s))) = (false, 9, false).
Proof. repeat split; vm_compute; reflexivity. Qed.

(** ** The control loop *)

Lemma relayWrites_app (l1 l2 : list Event) :
  relayWrites (l1 ++ l2) = relayWrites l1 ++ relayWrites l2.
Proof. apply omap_app. Qed.

Lemma buttonEmergency_dev (p : Pins) (s : State) :
  store (buttonEmergency p s) = store s ∧
  config (dev (buttonEmergency p s)) = config (dev s) ∧
  lastManualBellState (ctl (buttonEmergency p s)) = lastManualBellState (ctl s) ∧
  ∃ evs, log (dev (buttonEmergency p s)) = log (dev s) ++ evs ∧ relayWrites evs = [].
Proof.
  unfold buttonEmergency.
  destruct (negb (emergencyBtn p) && lastEmergencyBtnState (ctl s) &&
            negb (emergencyActive (ctl s))).
  - destruct (negb (emergencyBtnAgain p)); simpl;
      (repeat split; try done; by exists [EvDelay (u32 50)]).
  - simpl. repeat split; try done. exists []. by rewrite app_nil_r.
Qed.

Lemma switchManual_dev (p : Pins) (s : State) :
  store (switchManual p s) = store s ∧
  config (dev (switchManual p s)) = config (dev s) ∧
  emergencyActive (ctl (switchManual p s)) = emergencyActive (ctl s) ∧
  emergencyPhase (ctl (switchManual p s)) = emergencyPhase (ctl s) ∧
  ∃ evs, log (dev (switchManual p s)) = log (dev s) ++ evs ∧
         relayWrites evs = if manualPressed p s then [true; false] else [].
Proof.
  unfold switchManual, manualPressed.
  destruct (negb (manualBell p) && lastManualBellState (ctl s)).
  - destruct (negb (manualBellAgain p)); simpl.
    + repeat split; try done.
      exists (EvDelay (u32 50) :: pulse (u32 (if 0 =? 0 then bellDuration (store s) else 0))).
      split; [| done]. unfold pulse. by rewrite <- !app_assoc.
    + repeat split; try done. by exists [EvDelay (u32 50)].
  - simpl. repeat split; try done. exists []. by rewrite app_nil_r.
Qed.

(** [handleButtons] leaves the schedule and the file alone; it writes the
    relay only for a manual press. *)
Lemma handleButtons_dev (p : Pins) (s : State) :
  store (handleButtons p s) = store s ∧
  config (dev (handleButtons p s)) = config (dev s) ∧
  ∃ evs, log (dev (handleButtons p s)) = log (dev s) ++ evs ∧
         relayWrites evs = if manualPressed p s then [true; false] else [].
Proof.
  unfold handleButtons.
  destruct (buttonEmergency_dev p s) as (Hst1 & Hcfg1 & Hl1 & evs1 & Hlog1 & Hw1).
  remember (buttonEmergency p s) as s1 eqn:Hs1. clear Hs1.
  destruct (switchManual_dev p (switchDisplay p s1)) as (Hst2 & Hcfg2 & _ & _ & evs2 & Hlog2 & Hw2).
  split; [by rewrite Hst2 |]. split; [by rewrite Hcfg2 |].
  exists (evs1 ++ evs2). split.
  - rewrite Hlog2. simpl. by rewrite Hlog1, app_assoc.
  - rewrite relayWrites_app, Hw1, Hw2. simpl.
    unfold manualPressed. simpl. by rewrite Hl1.
Qed.

Lemma handleEmergency_dev (t t' : Z) (s : State) :
  store (handleEmergency t t' s) = store s ∧
  config (dev (handleEmergency t t' s)) = config (dev s) ∧
  log (dev (handleEmergency t t' s)) =
    log (dev s) ++ [EvRelay (emergencyLevel (emergencyPhase (ctl s)))].
Proof.
  unfold handleEmergency, emergencyLevel.
  destruct (emergencyPhase (ctl s) <? 9); [| done].
  destruct (emergencyPhase (ctl s) `rem` 2 =? 0);
    destruct (_ <=? u32 (t - emergencyStartTime (ctl s))); done.
Qed.

(** C5, as the sketch has it.  On an iteration of [loop] whose dispatch
    finds [emergencyActive] set (the session was active before, or the
    button was accepted in this iteration), [checkBells] is not called:
    the iteration is [handleEmergency] after [handleButtons].  The schedule
    (flags included) and the file are as the request handler left them;
    the relay is written by the emergency controller, once, and before
    that only by a manual press served in the same iteration. *)
Theorem emergency_preempts_scheduler (tk : Tick) (s s1 : State) :
  handleClient (request tk) s = Some s1 →
  emergencyActive (ctl (handleButtons (pins tk) s1)) = true →
  ∃ s',
    loop tk s = Some s' ∧
    s' = delay 10 (refreshDisplay tk
           (handleEmergency (emergMillis tk) (emergMillis' tk)
              (handleButtons (pins tk) s1))) ∧
    store s' = store s1 ∧
    config (dev s') = config (dev s1) ∧
    ∃ evs, log (dev s') = log (dev s1) ++ evs ∧
           relayWrites evs =
           (if manualPressed (pins tk) s1 then [true; false] else []) ++
           [emergencyLevel (emergencyPhase (ctl (handleButtons (pins tk) s1)))].
Proof.
  intros Hclient Hactive.
  eexists. split.
  { unfold loop. rewrite Hclient. simpl. unfold dispatch. rewrite Hactive. reflexivity. }
  split; [reflexivity |].
  destruct (handleButtons_dev (pins tk) s1) as (Hst & Hcfg & evs & Hlog & Hw).
  destruct (handleEmergency_dev (emergMillis tk) (emergMillis' tk)
              (handleButtons (pins tk) s1)) as (Hst' & Hcfg' & Hlog').
  remember (handleEmergency (emergMillis tk) (emergMillis' tk)
              (handleButtons (pins tk) s1)) as s2 eqn:Hs2.
  assert (Hdisp : store (refreshDisplay tk s2) = store s2 ∧
                  dev (refreshDisplay tk s2) = dev s2).
  { unfold refreshDisplay. by destruct (1000 <? _). }
  destruct Hdisp as [Hd1 Hd2].
  split; [simpl; by rewrite Hd1, Hst', Hst |].
  split; [simpl; by rewrite Hd2, Hcfg', Hcfg |].
  exists (evs ++ [EvRelay (emergencyLevel (emergencyPhase (ctl (handleButtons (pins tk) s1))));
                  EvDelay (u32 10)]).
  split.
  - simpl. rewrite Hd2, Hlog', Hlog. by rewrite <- !app_assoc.
  - by rewrite relayWrites_app, Hw.
Qed.

Lemma emergency_preempts_scheduler_witness :
  ∃ s',
    loop manualTick offPhaseState = Some s' ∧
    s' = delay 10 (refreshDisplay manualTick
           (handleEmergency (emergMillis manualTick) (emergMillis' manualTick)
              (handleButtons (pins manualTick) offPhaseState))) ∧
    store s' = store offPhaseState ∧
    config (dev s') = config (dev offPhaseState) ∧
    ∃ evs, log (dev s') = log (dev offPhaseState) ++ evs ∧
           relayWrites evs =
           (if manualPressed (pins manualTick) offPhaseState then [true; false] else []) ++
           [emergencyLevel
              (emergencyPhase (ctl (handleButtons (pins manualTick) offPhaseState)))].
Proof.
  apply (emergency_preempts_scheduler manualTick offPhaseState offPhaseState); reflexivity.
Defined.

(** C5 as stated fails: with a session in an OFF phase, a press of the
    manual bell switch rings the bell for [bellDuration] inside the
    iteration, before the emergency controller writes the pin low. *)
Lemma manual_press_rings_during_session : ¬ emergencyOwnsRelay manualTick offPhaseState.
Proof.
  intros Howns.
  destruct (Howns offPhaseState
              (delay 10 (refreshDisplay manualTick
                 (handleEmergency 5100 5100 (handleButtons manualPress offPhaseState)))))
    as (_ & evs & Hlog & Hwrites); [reflexivity | reflexivity | reflexivity |].
  vm_compute in Hlog. subst evs. vm_compute in Hwrites. discriminate.
Qed.

Example manual_press_log :
  (λ s, log (dev s)) <$> loop manualTick offPhaseState =
  Some [EvDelay 50; EvRelay true; EvDelay 3000; EvRelay false; EvRelay false; EvDelay 10].
Proof. vm_compute. reflexivity. Qed.

(** * Further properties of the sketch *)

(** ** Request handlers *)

Lemma accepted_send_persist (reply : string) (st' : Store) (s : State) :
  accepted reply s (send 200 reply (persist (set_store st' s))) ∧
  store (send 200 reply (persist (set_store st' s))) = st'.
Proof.
  unfold accepted, persist. simpl. destruct (fsOk (dev s)) eqn:Hfs; simpl.
  - repeat split; try done. by rewrite <- app_assoc.
  - repeat split; done.
Qed.

Lemma take_insert_snoc {A} (l : list A) (n : nat) (x : A) :
  (n < length l)%nat → take (S n) (<[n := x]> l) = take n l ++ [x].
Proof.
  intros Hn. rewrite (take_S_r _ _ x) by by apply list_lookup_insert_eq.
  by rewrite take_insert_ge by lia.
Qed.

Lemma handleAddPreset_accept (nm : string) (s : State) (q : Preset) :
  valid (store s) = true → presetCount (store s) < 15 → nm ≠ EmptyString →
  presets (store s) !! Z.to_nat (presetCount (store s)) = Some q →
  handleAddPreset nm s =
  Some (send 200 "Preset added"
          (persist (set_store
             (set_presetCount (presetCount (store s) + 1)
                (set_presets (<[Z.to_nat (presetCount (store s)) := mkPreset nm (bells q) 0]>
                                (presets (store s))) (store s))) s))).
Proof.
  intros Hv Hn Hnm Hq. unfold handleAddPreset.
  rewrite (proj2 (Z.leb_gt _ _)) by (unfold MAX_PRESETS; lia).
  replace (String.length nm =? 0)%nat with false
    by (symmetry; apply Nat.eqb_neq; by destruct nm).
  pose proof Hv as [[Hlen Hbells]%shaped_spec (Hc & Hb & Ha)%storeInv_spec]%valid_spec.
  set (n := presetCount (store s)) in *.
  set (q1 := set_name nm q). set (q2 := set_bellCount 0 q1).
  rewrite (modPreset_ok _ _ _ q q1) by (done || lia). simpl.
  rewrite (modPreset_ok _ _ _ q1 q2);
    [| simpl; lia | simpl; apply list_lookup_insert_eq; lia | done].
  simpl. rewrite list_insert_insert_eq.
  set (st' := set_presetCount (n + 1)
                (set_presets (<[Z.to_nat n := q2]> (presets (store s))) (store s))).
  assert (Hv' : valid st' = true).
  { apply valid_spec. split.
    - apply shaped_spec. simpl. rewrite length_insert. split; [done |].
      intros k r. destruct (decide (k = Z.to_nat n)) as [->|Hne].
      + rewrite list_lookup_insert_eq by lia. intros [= <-]. simpl. eauto.
      + rewrite list_lookup_insert_ne by done. eauto.
    - apply storeInv_spec. simpl. split; [lia |]. split; [| lia].
      intros k r. destruct (decide (k = Z.to_nat n)) as [->|Hne].
      + rewrite list_lookup_insert_eq by lia. intros [= <-]. simpl. lia.
      + rewrite list_lookup_insert_ne by done. intros Hr Hk. apply (Hb _ _ Hr). lia. }
  change (saveData (set_store st' s) ≫= (λ s0, Some (send 200 "Preset added" s0)) =
          Some (send 200 "Preset added" (persist (set_store st' s)))).
  by rewrite (saveData_valid (set_store st' s) Hv').
Qed.

(** X1.  [handleAddPreset] answers 400 and changes nothing when all fifteen
    presets are in use or the name is empty.  Otherwise the new preset comes
    last, under the given name and with no bells (whatever its array slot
    held before); the other presets, the selector, the duration and
    [lastDay] are kept, and the reply is 200 whether or not the file could
    be written. *)
Theorem add_preset_appends (nm : string) (s : State) :
  valid (store s) = true →
  (presetCount (store s) = 15 →
   handleAddPreset nm s = Some (send 400 "Maximum presets reached" s)) ∧
  (presetCount (store s) < 15 →
   handleAddPreset EmptyString s = Some (send 400 "Name required" s)) ∧
  (presetCount (store s) < 15 → nm ≠ EmptyString →
   ∃ s',
     handleAddPreset nm s = Some s' ∧
     contents (store s') = contents (store s) ++ [(nm, [])] ∧
     presetCount (store s') = presetCount (store s) + 1 ∧
     activePresetIndex (store s') = activePresetIndex (store s) ∧
     bellDuration (store s') = bellDuration (store s) ∧
     lastDay (store s') = lastDay (store s) ∧
     accepted "Preset added" s s').
Proof.
  intros Hv. split; [| split].
  - intros Hfull. unfold handleAddPreset. by rewrite Hfull.
  - intros Hn. unfold handleAddPreset.
    by rewrite (proj2 (Z.leb_gt _ _)) by (unfold MAX_PRESETS; lia).
  - intros Hn Hnm.
    pose proof Hv as [[Hlen Hbells]%shaped_spec (Hc & Hb & Ha)%storeInv_spec]%valid_spec.
    destruct (lookup_lt_is_Some_2 (presets (store s)) (Z.to_nat (presetCount (store s))))
      as [q Hq]; [lia |].
    eexists. split; [by apply (handleAddPreset_accept nm s q) |].
    destruct (accepted_send_persist "Preset added"
      (set_presetCount (presetCount (store s) + 1)
         (set_presets (<[Z.to_nat (presetCount (store s)) := mkPreset nm (bells q) 0]>
                         (presets (store s))) (store s))) s) as [Hacc Hst].
    rewrite Hst. split; [| done].
    unfold contents, counted. simpl.
    replace (Z.to_nat (presetCount (store s) + 1))
      with (S (Z.to_nat (presetCount (store s)))) by lia.
    rewrite take_insert_snoc by lia. by rewrite fmap_app.
Qed.

Lemma add_preset_appends_witness :
  (presetCount (store twoPresetState) = 15 →
   handleAddPreset "Sports" twoPresetState =
   Some (send 400 "Maximum presets reached" twoPresetState)) ∧
  (presetCount (store twoPresetState) < 15 →
   handleAddPreset EmptyString twoPresetState =
   Some (send 400 "Name required" twoPresetState)) ∧
  (presetCount (store twoPresetState) < 15 → "Sports" ≠ EmptyString →
   ∃ s',
     handleAddPreset "Sports" twoPresetState = Some s' ∧
     contents (store s') = contents (store twoPresetState) ++ [("Sports", [])] ∧
     presetCount (store s') = presetCount (store twoPresetState) + 1 ∧
     activePresetIndex (store s') = activePresetIndex (store twoPresetState) ∧
     bellDuration (store s') = bellDuration (store twoPresetState) ∧
     lastDay (store s') = lastDay (store twoPresetState) ∧
     accepted "Preset added" twoPresetState s').
Proof.
  apply (add_preset_appends "Sports" twoPresetState). reflexivity.
Defined.

Lemma contents_lookup (st : Store) (k : nat) (nm : string) (bs : list Bell) :
  valid st = true → contents st !! k = Some (nm, bs) →
  ∃ p, presets st !! k = Some p ∧ Z.of_nat k < presetCount st ∧
       nm = name p ∧ bs = bellsOf p ∧
       Z.of_nat (length bs) = bellCount p ∧ length (bells p) = 15%nat.
Proof.
  intros [[Hlen Hbells]%shaped_spec (Hc & Hb & Ha)%storeInv_spec]%valid_spec.
  unfold contents, counted. rewrite list_lookup_fmap.
  intros (p & [Hp Hk]%lookup_take_Some & [= -> ->])%fmap_Some.
  exists p. split; [done |]. split; [lia |]. split; [done |]. split; [done |].
  specialize (Hb _ _ Hp). specialize (Hbells _ _ Hp).
  unfold bellsOf. rewrite length_take. split; [lia | done].
Qed.

Lemma contents_insert (st : Store) (k : nat) (p' : Preset) :
  Z.of_nat k < presetCount st →
  contents (set_presets (<[k := p']> (presets st)) st) =
  <[k := (name p', bellsOf p')]> (contents st).
Proof.
  intros Hk. unfold contents, counted. simpl.
  rewrite take_insert_lt by lia. by rewrite list_fmap_insert.
Qed.

Lemma handleAddBell_accept (presetId h m : Z) (s : State) (p : Preset) :
  valid (store s) = true →
  0 ≤ presetId < presetCount (store s) →
  presets (store s) !! Z.to_nat presetId = Some p →
  bellCount p < 15 → 0 ≤ h ≤ 23 → 0 ≤ m ≤ 59 →
  handleAddBell presetId h m s =
  Some (send 200 "Bell added"
          (persist (set_store
             (set_presets
                (<[Z.to_nat presetId :=
                     mkPreset (name p)
                       (<[Z.to_nat (bellCount p) := mkBell h m false]> (bells p))
                       (bellCount p + 1)]> (presets (store s))) (store s)) s))).
Proof.
  intros Hv Hid Hp Hfull Hh Hm. unfold handleAddBell.
  replace ((presetId <? 0) || (presetCount (store s) <=? presetId)) with false
    by (symmetry; apply orb_false_iff; split; [apply Z.ltb_ge | apply Z.leb_gt]; lia).
  pose proof Hv as [[Hlen Hbells]%shaped_spec (Hc & Hb & Ha)%storeInv_spec]%valid_spec.
  rewrite at_index_lookup, Hp by lia. simpl.
  rewrite (proj2 (Z.leb_gt _ _)) by (unfold MAX_BELLS_PER_PRESET; lia).
  replace ((h <? 0) || (23 <? h) || (m <? 0) || (59 <? m)) with false.
  2:{ symmetry. rewrite !orb_false_iff. repeat split; apply Z.ltb_ge; lia. }
  assert (Hcp : 0 ≤ bellCount p ≤ 15) by (apply (Hb _ _ Hp); lia).
  assert (Hlp : length (bells p) = 15%nat) by eauto.
  assert (Hip : (Z.to_nat presetId < length (presets (store s)))%nat) by lia.
  destruct (lookup_lt_is_Some_2 (bells p) (Z.to_nat (bellCount p))) as [b Hbl]; [lia |].
  set (c := Z.to_nat (bellCount p)) in *.
  set (p1 := set_bells (<[c := set_hour h b]> (bells p)) p).
  set (p2 := set_bells (<[c := set_minute m (set_hour h b)]> (bells p1)) p1).
  set (p3 := set_bells (<[c := set_triggeredToday false (set_minute m (set_hour h b))]>
                          (bells p2)) p2).
  set (p4 := set_bellCount (bellCount p3 + 1) p3).
  rewrite (modPreset_ok _ _ _ p p1); [| lia | done | by apply modBell_ok; [lia |]].
  simpl.
  rewrite (modPreset_ok _ _ _ p1 p2); [| lia | by apply list_lookup_insert_eq |].
  2:{ apply modBell_ok; [lia |]. simpl. apply list_lookup_insert_eq. fold c. lia. }
  simpl. rewrite list_insert_insert_eq.
  rewrite (modPreset_ok _ _ _ p2 p3); [| lia | by apply list_lookup_insert_eq |].
  2:{ apply modBell_ok; [lia |]. simpl. apply list_lookup_insert_eq.
      rewrite length_insert. fold c. lia. }
  simpl. rewrite list_insert_insert_eq.
  rewrite (modPreset_ok _ _ _ p3 p4); [| lia | by apply list_lookup_insert_eq | done].
  simpl. rewrite list_insert_insert_eq.
  assert (Hp4 : p4 = mkPreset (name p) (<[c := mkBell h m false]> (bells p))
                       (bellCount p + 1)).
  { unfold p4, p3, p2, p1, set_bellCount, set_bells. simpl.
    by rewrite !list_insert_insert_eq. }
  rewrite Hp4.
  set (st' := set_presets
                (<[Z.to_nat presetId :=
                     mkPreset (name p) (<[c := mkBell h m false]> (bells p))
                       (bellCount p + 1)]> (presets (store s))) (store s)).
  assert (Hv' : valid st' = true).
  { apply valid_insert_preset; [done | lia | |].
    - simpl. by rewrite length_insert.
    - simpl. lia. }
  change (saveData (set_store st' s) ≫= (λ s0, Some (send 200 "Bell added" s0)) =
          Some (send 200 "Bell added" (persist (set_store st' s)))).
  by rewrite (saveData_valid (set_store st' s) Hv').
Qed.

(** X2.  [handleAddBell] answers 400 and changes nothing for a preset index
    that is not in use, for a preset that already has fifteen bells, and for
    an hour outside 0..23 or a minute outside 0..59 (checked in that
    order).  Otherwise the bell is added after the preset's other bells,
    not yet rung; no other preset and no setting changes, and the reply is
    200 whether or not the file could be written. *)
Theorem add_bell_appends (presetId h m : Z) (s : State) :
  valid (store s) = true →
  (presetId < 0 ∨ presetCount (store s) ≤ presetId →
   handleAddBell presetId h m s = Some (send 400 "Invalid preset ID" s)) ∧
  (∀ nm bs,
     0 ≤ presetId → contents (store s) !! Z.to_nat presetId = Some (nm, bs) →
     (length bs = 15%nat →
      handleAddBell presetId h m s =
      Some (send 400 "Maximum bells reached for this preset" s)) ∧
     ((length bs < 15)%nat → h < 0 ∨ 23 < h ∨ m < 0 ∨ 59 < m →
      handleAddBell presetId h m s = Some (send 400 "Invalid time" s)) ∧
     ((length bs < 15)%nat → 0 ≤ h ≤ 23 → 0 ≤ m ≤ 59 →
      ∃ s',
        handleAddBell presetId h m s = Some s' ∧
        contents (store s') =
          <[Z.to_nat presetId := (nm, bs ++ [mkBell h m false])]> (contents (store s)) ∧
        presetCount (store s') = presetCount (store s) ∧
        activePresetIndex (store s') = activePresetIndex (store s) ∧
        bellDuration (store s') = bellDuration (store s) ∧
        lastDay (store s') = lastDay (store s) ∧
        accepted "Bell added" s s')).
Proof.
  intros Hv. split.
  { intros Hid. unfold handleAddBell.
    replace ((presetId <? 0) || (presetCount (store s) <=? presetId)) with true; [done |].
    symmetry. apply orb_true_iff. destruct Hid; [left; apply Z.ltb_lt | right; apply Z.leb_le]; lia. }
  intros nm bs Hid0 Hcont.
  destruct (contents_lookup _ _ _ _ Hv Hcont) as (p & Hp & Hk & -> & -> & Hlen & Hlp).
  assert (Hin : (presetId <? 0) || (presetCount (store s) <=? presetId) = false)
    by (apply orb_false_iff; split; [apply Z.ltb_ge | apply Z.leb_gt]; lia).
  split; [| split].
  - intros Hfull. unfold handleAddBell. rewrite Hin, at_index_lookup, Hp by lia. simpl.
    by rewrite (proj2 (Z.leb_le _ _)) by (unfold MAX_BELLS_PER_PRESET; lia).
  - intros Hroom Hbad. unfold handleAddBell. rewrite Hin, at_index_lookup, Hp by lia. simpl.
    rewrite (proj2 (Z.leb_gt _ _)) by (unfold MAX_BELLS_PER_PRESET; lia).
    replace ((h <? 0) || (23 <? h) || (m <? 0) || (59 <? m)) with true; [done |].
    symmetry. rewrite !orb_true_iff, !Z.ltb_lt. tauto.
  - intros Hroom Hh Hm.
    eexists. split; [apply (handleAddBell_accept presetId h m s p); (done || lia) |].
    match goal with
    | |- context [persist (set_store ?st' s)] =>
      destruct (accepted_send_persist "Bell added" st' s) as [Hacc Hst]
    end.
    rewrite Hst. split; [| done].
    rewrite contents_insert by lia. f_equal. f_equal.
    unfold bellsOf. simpl.
    replace (Z.to_nat (bellCount p + 1)) with (S (Z.to_nat (bellCount p))) by lia.
    apply take_insert_snoc. lia.
Qed.

Lemma add_bell_appends_witness :
  (1 < 0 ∨ presetCount (store twoPresetState) ≤ 1 →
   handleAddBell 1 15 45 twoPresetState =
   Some (send 400 "Invalid preset ID" twoPresetState)) ∧
  (∀ nm bs,
     0 ≤ 1 → contents (store twoPresetState) !! Z.to_nat 1 = Some (nm, bs) →
     (length bs = 15%nat →
      handleAddBell 1 15 45 twoPresetState =
      Some (send 400 "Maximum bells reached for this preset" twoPresetState)) ∧
     ((length bs < 15)%nat → 15 < 0 ∨ 23 < 15 ∨ 45 < 0 ∨ 59 < 45 →
      handleAddBell 1 15 45 twoPresetState =
      Some (send 400 "Invalid time" twoPresetState)) ∧
     ((length bs < 15)%nat → 0 ≤ 15 ≤ 23 → 0 ≤ 45 ≤ 59 →
      ∃ s',
        handleAddBell 1 15 45 twoPresetState = Some s' ∧
        contents (store s') =
          <[Z.to_nat 1 := (nm, bs ++ [mkBell 15 45 false])]>
            (contents (store twoPresetState)) ∧
        presetCount (store s') = presetCount (store twoPresetState) ∧
        activePresetIndex (store s') = activePresetIndex (store twoPresetState) ∧
        bellDuration (store s') = bellDuration (store twoPresetState) ∧
        lastDay (store s') = lastDay (store twoPresetState) ∧
        accepted "Bell added" twoPresetState s')).
Proof.
  apply (add_bell_appends 1 15 45 twoPresetState). reflexivity.
Defined.

Lemma handleDeleteBell_accept (presetId bellId : Z) (s : State) (p : Preset) :
  valid (store s) = true →
  0 ≤ presetId < presetCount (store s) →
  presets (store s) !! Z.to_nat presetId = Some p →
  0 ≤ bellId < bellCount p →
  ∃ bs,
    shifted (Z.to_nat bellId) (Z.to_nat (bellCount p) - 1) (bells p) bs ∧
    handleDeleteBell presetId bellId s =
    Some (send 200 "Bell deleted"
            (persist (set_store
               (set_presets
                  (<[Z.to_nat presetId := mkPreset (name p) bs (bellCount p - 1)]>
                     (presets (store s))) (store s)) s))).
Proof.
  intros Hv Hid Hp Hbid. unfold handleDeleteBell.
  replace ((presetId <? 0) || (presetCount (store s) <=? presetId)) with false
    by (symmetry; apply orb_false_iff; split; [apply Z.ltb_ge | apply Z.leb_gt]; lia).
  pose proof Hv as [[Hlen Hbells]%shaped_spec (Hc & Hb & Ha)%storeInv_spec]%valid_spec.
  rewrite at_index_lookup, Hp by lia. simpl.
  replace ((bellId <? 0) || (bellCount p <=? bellId)) with false
    by (symmetry; apply orb_false_iff; split; [apply Z.ltb_ge | apply Z.leb_gt]; lia).
  assert (Hcp : 0 ≤ bellCount p ≤ 15) by (apply (Hb _ _ Hp); lia).
  assert (Hlp : length (bells p) = 15%nat) by eauto.
  destruct (deleteBell_loop presetId bellId (store s) p) as (bs & Hloop & Hsh);
    [lia | done | lia | lia |].
  exists bs. split; [done |].
  destruct Hsh as [Hlbs _].
  rewrite Hloop. cbn [mbind option_bind].
  set (p1 := set_bells bs p). set (p2 := set_bellCount (bellCount p1 - 1) p1).
  rewrite (modPreset_ok _ _ _ p1 p2);
    [| lia | simpl; apply list_lookup_insert_eq; lia | done].
  simpl. rewrite list_insert_insert_eq.
  set (st' := set_presets (<[Z.to_nat presetId := mkPreset (name p) bs (bellCount p - 1)]>
                             (presets (store s))) (store s)).
  assert (Hv' : valid st' = true).
  { apply valid_insert_preset; [done | lia | |]; simpl; lia. }
  change (saveData (set_store st' s) ≫= (λ s0, Some (send 200 "Bell deleted" s0)) =
          Some (send 200 "Bell deleted" (persist (set_store st' s)))).
  by rewrite (saveData_valid (set_store st' s) Hv').
Qed.

(** X3.  [handleDeleteBell] answers 400 and changes nothing for a preset
    index or a bell index that is not in use.  Otherwise it removes that
    bell from the preset and keeps the preset's other bells in order, with
    their flags; no other preset and no setting changes, and the reply is
    200 whether or not the file could be written. *)
Theorem delete_bell_removes (presetId bellId : Z) (s : State) :
  valid (store s) = true →
  (presetId < 0 ∨ presetCount (store s) ≤ presetId →
   handleDeleteBell presetId bellId s = Some (send 400 "Invalid preset ID" s)) ∧
  (∀ nm bs,
     0 ≤ presetId → contents (store s) !! Z.to_nat presetId = Some (nm, bs) →
     (bellId < 0 ∨ Z.of_nat (length bs) ≤ bellId →
      handleDeleteBell presetId bellId s = Some (send 400 "Invalid bell ID" s)) ∧
     (0 ≤ bellId < Z.of_nat (length bs) →
      ∃ s',
        handleDeleteBell presetId bellId s = Some s' ∧
        contents (store s') =
          <[Z.to_nat presetId := (nm, delete (Z.to_nat bellId) bs)]> (contents (store s)) ∧
        presetCount (store s') = presetCount (store s) ∧
        activePresetIndex (store s') = activePresetIndex (store s) ∧
        bellDuration (store s') = bellDuration (store s) ∧
        lastDay (store s') = lastDay (store s) ∧
        accepted "Bell deleted" s s')).
Proof.
  intros Hv. split.
  { intros Hid. unfold handleDeleteBell.
    replace ((presetId <? 0) || (presetCount (store s) <=? presetId)) with true; [done |].
    symmetry. apply orb_true_iff. destruct Hid; [left; apply Z.ltb_lt | right; apply Z.leb_le]; lia. }
  intros nm bs Hid0 Hcont.
  destruct (contents_lookup _ _ _ _ Hv Hcont) as (p & Hp & Hk & -> & -> & Hlen & Hlp).
  assert (Hin : (presetId <? 0) || (presetCount (store s) <=? presetId) = false)
    by (apply orb_false_iff; split; [apply Z.ltb_ge | apply Z.leb_gt]; lia).
  split.
  - intros Hbad. unfold handleDeleteBell. rewrite Hin, at_index_lookup, Hp by lia. simpl.
    replace ((bellId <? 0) || (bellCount p <=? bellId)) with true; [done |].
    symmetry. apply orb_true_iff.
    destruct Hbad; [left; apply Z.ltb_lt | right; apply Z.leb_le]; lia.
  - intros Hbid.
    destruct (handleDeleteBell_accept presetId bellId s p) as (bs & Hsh & Hrun);
      [done | lia | done | lia |].
    eexists. split; [exact Hrun |].
    match goal with
    | |- context [persist (set_store ?st' s)] =>
      destruct (accepted_send_persist "Bell deleted" st' s) as [Hacc Hst]
    end.
    rewrite Hst. split; [| done].
    rewrite contents_insert by lia. f_equal. f_equal.
    unfold bellsOf. simpl.
    replace (Z.to_nat (bellCount p - 1)) with (Z.to_nat (bellCount p) - 1)%nat by lia.
    assert (Hc15 : bellCount p ≤ 15).
    { unfold bellsOf in Hlen. rewrite length_take in Hlen. lia. }
    apply shifted_delete; [done | lia].
Qed.

Lemma delete_bell_removes_witness :
  (0 < 0 ∨ presetCount (store twoPresetState) ≤ 0 →
   handleDeleteBell 0 0 twoPresetState =
   Some (send 400 "Invalid preset ID" twoPresetState)) ∧
  (∀ nm bs,
     0 ≤ 0 → contents (store twoPresetState) !! Z.to_nat 0 = Some (nm, bs) →
     (0 < 0 ∨ Z.of_nat (length bs) ≤ 0 →
      handleDeleteBell 0 0 twoPresetState =
      Some (send 400 "Invalid bell ID" twoPresetState)) ∧
     (0 ≤ 0 < Z.of_nat (length bs) →
      ∃ s',
        handleDeleteBell 0 0 twoPresetState = Some s' ∧
        contents (store s') =
          <[Z.to_nat 0 := (nm, delete (Z.to_nat 0) bs)]>
            (contents (store twoPresetState)) ∧
        presetCount (store s') = presetCount (store twoPresetState) ∧
        activePresetIndex (store s') = activePresetIndex (store twoPresetState) ∧
        bellDuration (store s') = bellDuration (store twoPresetState) ∧
        lastDay (store s') = lastDay (store twoPresetState) ∧
        accepted "Bell deleted" twoPresetState s')).
Proof.
  apply (delete_bell_removes 0 0 twoPresetState). reflexivity.
Defined.

(** X4.  [handleSetActive] accepts -1 (no active preset) and the index of
    any preset in use, stores it as the selector and keeps everything else;
    any other index gets 400 and changes nothing.  The reply is 200 whether
    or not the file could be written. *)
Theorem set_active_checked (id : Z) (s : State) :
  valid (store s) = true →
  (id < -1 ∨ presetCount (store s) ≤ id →
   handleSetActive id s = Some (send 400 "Invalid preset ID" s)) ∧
  (-1 ≤ id < presetCount (store s) →
   ∃ s',
     handleSetActive id s = Some s' ∧
     store s' = set_activePresetIndex id (store s) ∧
     valid (store s') = true ∧
     accepted "Active preset set" s s').
Proof.
  intros Hv. unfold handleSetActive. split.
  - intros Hid.
    replace ((id <? -1) || (presetCount (store s) <=? id)) with true; [done |].
    symmetry. apply orb_true_iff. destruct Hid; [left; apply Z.ltb_lt | right; apply Z.leb_le]; lia.
  - intros Hid.
    replace ((id <? -1) || (presetCount (store s) <=? id)) with false
      by (symmetry; apply orb_false_iff; split; [apply Z.ltb_ge | apply Z.leb_gt]; lia).
    set (st' := set_activePresetIndex id (store s)).
    assert (Hv' : valid st' = true).
    { pose proof Hv as [Hs (Hc & Hb & Ha)%storeInv_spec]%valid_spec.
      apply valid_spec. split; [done |]. apply storeInv_spec. simpl.
      split; [done |]. split; [done |]. lia. }
    exists (send 200 "Active preset set" (persist (set_store st' s))).
    destruct (accepted_send_persist "Active preset set" st' s) as [Hacc Hst].
    split; [by rewrite (saveData_valid (set_store st' s) Hv') |].
    rewrite Hst. done.
Qed.

Lemma set_active_checked_witness :
  (0 < -1 ∨ presetCount (store twoPresetState) ≤ 0 →
   handleSetActive 0 twoPresetState = Some (send 400 "Invalid preset ID" twoPresetState)) ∧
  (-1 ≤ 0 < presetCount (store twoPresetState) →
   ∃ s',
     handleSetActive 0 twoPresetState = Some s' ∧
     store s' = set_activePresetIndex 0 (store twoPresetState) ∧
     valid (store s') = true ∧
     accepted "Active preset set" twoPresetState s').
Proof.
  apply (set_active_checked 0 twoPresetState). reflexivity.
Defined.

(** ** The loop keeps the store valid *)

Lemma loop_valid (tk : Tick) (s : State) :
  valid (store s) = true →
  ∃ s', loop tk s = Some s' ∧ valid (store s') = true.
Proof.
  intros Hv. unfold loop.
  assert (Hclient : ∃ s1, handleClient (request tk) s = Some s1 ∧ valid (store s1) = true).
  { destruct (request tk) as [r|]; simpl; [by apply handleRequest_valid | eauto]. }
  destruct Hclient as (s1 & -> & Hv1). simpl.
  destruct (handleButtons_dev (pins tk) s1) as (Hst & _).
  assert (Hdisp : ∃ s2, dispatch tk (handleButtons (pins tk) s1) = Some s2 ∧
                        valid (store s2) = true).
  { unfold dispatch. destruct (emergencyActive _).
    - eexists. split; [reflexivity |].
      by rewrite (proj1 (handleEmergency_dev _ _ _)), Hst.
    - apply checkBells_valid. by rewrite Hst. }
  destruct Hdisp as (s2 & -> & Hv2). simpl.
  eexists. split; [reflexivity |].
  simpl. unfold refreshDisplay. by destruct (1000 <? _).
Qed.

(** X5.  Starting from a valid store, any number of iterations of [loop],
    with any requests, pin levels, clock readings and [millis()] values,
    run without indexing outside [presets] or [bells], and the store is
    valid after each of them. *)
Theorem loop_stays_in_bounds (ticks : list Tick) (s : State) :
  valid (store s) = true →
  ∃ s', runLoop ticks s = Some s' ∧ valid (store s') = true.
Proof.
  revert s. induction ticks as [|tk ticks IH]; intros s Hv; simpl; [eauto |].
  destruct (loop_valid tk s Hv) as (s1 & -> & Hv1). simpl. by apply IH.
Qed.

Lemma loop_stays_in_bounds_witness :
  ∃ s', runLoop sampleTicks weekdayState = Some s' ∧ valid (store s') = true.
Proof.
  apply (loop_stays_in_bounds sampleTicks weekdayState). reflexivity.
Defined.

(** ** Loading any document *)

Lemma loadedStore_shaped (doc : JDoc) (st : Store) :
  shaped st = true → shaped (loadedStore doc st) = true.
Proof.
  intros [Hlen Hbells]%shaped_spec. apply shaped_spec. simpl.
  rewrite imapPrefix_length. split; [done |].
  intros k r. rewrite imapPrefix_lookup.
  intros (q & Hq & ->)%fmap_Some. case_decide; [| eauto].
  unfold loadedPreset. simpl. rewrite imapPrefix_length. eauto.
Qed.

(** X6.  [loadData] never indexes outside the arrays, whatever the file
    holds.  Without a file, with one that does not parse, or with one too
    large for the 8192 bytes of the document, it changes nothing.  With a
    document that fits it takes [presetCount], [activePreset] and
    [bellDuration] as they are written, or 0, -1 and 3000 for a member that
    is missing; it fills at most fifteen presets, leaves the presets past
    the announced count as they were, and does not touch [lastDay], the
    relay or the file. *)
Theorem load_any_document (s : State) :
  shaped (store s) = true →
  (config (dev s) = NoFile ∨ config (dev s) = Garbage → loadData s = Some s) ∧
  (∀ doc, config (dev s) = Json doc → JSON_CAPACITY < docSize true doc →
     loadData s = Some s) ∧
  (∀ doc, config (dev s) = Json doc → docSize true doc ≤ JSON_CAPACITY →
     ∃ s',
       loadData s = Some s' ∧
       shaped (store s') = true ∧
       presetCount (store s') = default 0 (j_presetCount doc) ∧
       activePresetIndex (store s') = default (-1) (j_activePreset doc) ∧
       bellDuration (store s') = default 3000 (j_bellDuration doc) ∧
       lastDay (store s') = lastDay (store s) ∧
       (∀ k, default 0 (j_presetCount doc) ≤ Z.of_nat k →
             presets (store s') !! k = presets (store s) !! k) ∧
       ctl s' = ctl s ∧ dev s' = dev s).
Proof.
  intros Hs. split; [| split].
  - intros [H|H]; unfold loadData; by rewrite H.
  - intros doc Hdoc Hbig. by apply (loadData_too_large s doc).
  - intros doc Hdoc Hfit.
    exists (set_store (loadedStore doc (store s)) s).
    split; [by apply loadData_json |].
    split; [by apply loadedStore_shaped |].
    repeat split; try done.
    intros k Hk. simpl. rewrite imapPrefix_lookup.
    destruct (presets (store s) !! k); simpl; [| done].
    by rewrite decide_False by lia.
Qed.

Lemma load_any_document_witness :
  (config (dev (powerOn (Json emptyDoc) true)) = NoFile ∨
   config (dev (powerOn (Json emptyDoc) true)) = Garbage →
   loadData (powerOn (Json emptyDoc) true) = Some (powerOn (Json emptyDoc) true)) ∧
  (∀ doc, config (dev (powerOn (Json emptyDoc) true)) = Json doc →
     JSON_CAPACITY < docSize true doc →
     loadData (powerOn (Json emptyDoc) true) = Some (powerOn (Json emptyDoc) true)) ∧
  (∀ doc, config (dev (powerOn (Json emptyDoc) true)) = Json doc →
     docSize true doc ≤ JSON_CAPACITY →
     ∃ s',
       loadData (powerOn (Json emptyDoc) true) = Some s' ∧
       shaped (store s') = true ∧
       presetCount (store s') = default 0 (j_presetCount doc) ∧
       activePresetIndex (store s') = default (-1) (j_activePreset doc) ∧
       bellDuration (store s') = default 3000 (j_bellDuration doc) ∧
       lastDay (store s') = lastDay (store (powerOn (Json emptyDoc) true)) ∧
       (∀ k, default 0 (j_presetCount doc) ≤ Z.of_nat k →
             presets (store s') !! k =
             presets (store (powerOn (Json emptyDoc) true)) !! k) ∧
       ctl s' = ctl (powerOn (Json emptyDoc) true) ∧
       dev s' = dev (powerOn (Json emptyDoc) true)).
Proof.
  apply (load_any_document (powerOn (Json emptyDoc) true)). reflexivity.
Defined.

(** ** What a scheduler tick leaves alone *)

Lemma timesOf_clearFlags (e : string * list Bell) : timesOf (clearFlags e) = timesOf e.
Proof.
  unfold timesOf, clearFlags. simpl. by rewrite <- list_fmap_compose.
Qed.

Lemma timetable_newDay (d : Z) (st : Store) : timetable (newDay d st) = timetable st.
Proof.
  unfold timetable. rewrite contents_newDay. simpl.
  rewrite <- list_fmap_compose. do 2 f_equal.
  apply list_fmap_ext. intros _ e _. apply timesOf_clearFlags.
Qed.

Lemma timetable_fireDue (now : DateTime) (st : Store) :
  valid st = true → timetable (fireDue now st) = timetable st.
Proof.
  intros Hv. unfold fireDue.
  destruct (hasActive st) eqn:Hact; [| done].
  destruct (hasActive_lookup st Hv Hact) as (Ha & p & Hp & Hl & Hc).
  rewrite Hp. unfold timetable. simpl.
  replace (Z.to_nat (activePresetIndex st))
    with (Z.to_nat (activePresetIndex st)) by done.
  rewrite (contents_insert st (Z.to_nat (activePresetIndex st))) by lia.
  rewrite list_fmap_insert. do 2 f_equal.
  apply list_insert_id.
  unfold contents, counted. rewrite !list_lookup_fmap, lookup_take_lt, Hp by lia.
  simpl. f_equal. unfold timesOf, bellsOf, firePreset. simpl. f_equal.
  rewrite mapPrefix_take, <- list_fmap_compose.
  apply list_fmap_ext. intros _ b _. simpl. unfold fire.
  by destruct (bellDue now b).
Qed.

(** X7.  A scheduler tick changes nothing but flags and [lastDay]: the
    preset names, the hour and minute of every bell, the number of presets
    and of bells, the selector and the duration are the same after the tick
    as before, whether the clock works or not, and the buttons' and the
    emergency controller's globals are untouched. *)
Theorem tick_keeps_timetable (rtc : option DateTime) (s : State) :
  valid (store s) = true →
  ∃ s',
    checkBells rtc s = Some s' ∧
    timetable (store s') = timetable (store s) ∧
    presetCount (store s') = presetCount (store s) ∧
    ctl s' = ctl s.
Proof.
  intros Hv. destruct rtc as [now|]; [| by exists s].
  destruct (checkBells_spec now s Hv) as (s' & evs & Hrun & Hst & Hctl & _).
  exists s'. split; [done |]. rewrite Hst.
  assert (Hvr : valid (rolled now (store s)) = true) by by apply valid_rolled.
  split; [| split; [| done]].
  - rewrite timetable_fireDue by done. unfold rolled.
    case_bool_decide; [apply timetable_newDay | done].
  - unfold fireDue, rolled.
    destruct (hasActive _); [destruct (presets _ !! _) |]; simpl;
      by case_bool_decide.
Qed.

Lemma tick_keeps_timetable_witness :
  ∃ s',
    checkBells (Some eightOClock) weekdayState = Some s' ∧
    timetable (store s') = timetable (store weekdayState) ∧
    presetCount (store s') = presetCount (store weekdayState) ∧
    ctl s' = ctl weekdayState.
Proof.
  apply (tick_keeps_timetable (Some eightOClock) weekdayState). reflexivity.
Defined.

(** X8.  A bell is rung only in its own minute.  On a tick of the day
    already recorded in [lastDay], if no bell in use of the active preset
    is both not yet rung and set to the clock's hour and minute (so also
    when no preset is active), the tick changes nothing at all: a bell
    whose minute went by without a tick is not rung late. *)
Theorem no_catch_up (now : DateTime) (s : State) :
  valid (store s) = true →
  lastDay (store s) = dt_day now →
  (∀ b, b ∈ activeBells (store s) →
        triggeredToday b = true ∨ hour b ≠ dt_hour now ∨ minute b ≠ dt_minute now) →
  checkBells (Some now) s = Some s.
Proof.
  intros Hv Hday Hnone.
  destruct (checkBells_spec now s Hv) as (s' & evs & Hrun & _ & _ & _ & _ & _ & _ & Hidle).
  rewrite Hrun. f_equal. apply Hidle; [done |].
  apply Forall_forall. intros b Hb. unfold bellDue.
  destruct (Hnone b Hb) as [Ht|[Hh|Hm]].
  - by rewrite Ht.
  - rewrite (proj2 (Z.eqb_neq _ _) Hh). by rewrite andb_false_r.
  - rewrite (proj2 (Z.eqb_neq _ _) Hm). by rewrite andb_false_r.
Qed.

Lemma no_catch_up_witness :
  checkBells (Some eightOClock) rungState = Some rungState.
Proof.
  apply (no_catch_up eightOClock rungState).
  - reflexivity.
  - reflexivity.
  - intros b Hb. apply list_elem_of_In in Hb. simpl in Hb.
    destruct Hb as [<-|[<-|[]]]; simpl; [by left | right; left; lia].
Defined.

(** ** Buttons and switches *)

Lemma switchDisplay_frame (p : Pins) (s : State) :
  store (switchDisplay p s) = store s ∧ dev (switchDisplay p s) = dev s ∧
  emergencyActive (ctl (switchDisplay p s)) = emergencyActive (ctl s) ∧
  emergencyStartTime (ctl (switchDisplay p s)) = emergencyStartTime (ctl s) ∧
  emergencyPhase (ctl (switchDisplay p s)) = emergencyPhase (ctl s) ∧
  lastEmergencyBtnState (ctl (switchDisplay p s)) = lastEmergencyBtnState (ctl s) ∧
  lastManualBellState (ctl (switchDisplay p s)) = lastManualBellState (ctl s).
Proof. done. Qed.

Lemma switchManual_frame (p : Pins) (s : State) :
  emergencyActive (ctl (switchManual p s)) = emergencyActive (ctl s) ∧
  emergencyStartTime (ctl (switchManual p s)) = emergencyStartTime (ctl s) ∧
  emergencyPhase (ctl (switchManual p s)) = emergencyPhase (ctl s) ∧
  lastEmergencyBtnState (ctl (switchManual p s)) = lastEmergencyBtnState (ctl s) ∧
  displayToggleState (ctl (switchManual p s)) = displayToggleState (ctl s) ∧
  lastDisplayToggleState (ctl (switchManual p s)) = lastDisplayToggleState (ctl s) ∧
  lastDebounceTime (ctl (switchManual p s)) = lastDebounceTime (ctl s) ∧
  lastManualBellState (ctl (switchManual p s)) = manualBell p.
Proof.
  unfold switchManual.
  destruct (negb (manualBell p) && lastManualBellState (ctl s)); [| done].
  by destruct (negb (manualBellAgain p)).
Qed.

Lemma buttonEmergency_display (p : Pins) (s : State) :
  displayToggleState (ctl (buttonEmergency p s)) = displayToggleState (ctl s) ∧
  lastDisplayToggleState (ctl (buttonEmergency p s)) = lastDisplayToggleState (ctl s) ∧
  lastDebounceTime (ctl (buttonEmergency p s)) = lastDebounceTime (ctl s) ∧
  lastEmergencyBtnState (ctl (buttonEmergency p s)) = emergencyBtn p.
Proof.
  unfold buttonEmergency.
  destruct (negb (emergencyBtn p) && lastEmergencyBtnState (ctl s) &&
            negb (emergencyActive (ctl s))); [| done].
  by destruct (negb (emergencyBtnAgain p)).
Qed.

(** X9.  [handleButtons] starts an emergency session exactly on a falling
    edge of the button that is still low after the 50 ms debounce delay,
    and only when no session is active: phase 0, timer at the current
    [millis()].  In every other case (button high, button already low on
    the previous call, bounce, session active) the session's three globals
    are left as they are, so a session in progress is never restarted.  The
    level read is remembered for the next call either way. *)
Theorem emergency_button_edge (p : Pins) (s : State) :
  lastEmergencyBtnState (ctl (handleButtons p s)) = emergencyBtn p ∧
  (emergencyBtn p = false → lastEmergencyBtnState (ctl s) = true →
   emergencyActive (ctl s) = false → emergencyBtnAgain p = false →
   emergencyActive (ctl (handleButtons p s)) = true ∧
   emergencyPhase (ctl (handleButtons p s)) = 0 ∧
   emergencyStartTime (ctl (handleButtons p s)) = u32 (emergencyMillis p)) ∧
  (emergencyBtn p = true ∨ lastEmergencyBtnState (ctl s) = false ∨
   emergencyActive (ctl s) = true ∨ emergencyBtnAgain p = true →
   emergencyActive (ctl (handleButtons p s)) = emergencyActive (ctl s) ∧
   emergencyPhase (ctl (handleButtons p s)) = emergencyPhase (ctl s) ∧
   emergencyStartTime (ctl (handleButtons p s)) = emergencyStartTime (ctl s)).
Proof.
  unfold handleButtons.
  destruct (switchManual_frame p (switchDisplay p (buttonEmergency p s)))
    as (-> & -> & -> & -> & _).
  destruct (switchDisplay_frame p (buttonEmergency p s))
    as (_ & _ & -> & -> & -> & -> & _).
  split; [apply buttonEmergency_display |].
  unfold buttonEmergency. split.
  - intros -> -> -> ->. done.
  - intros Hno.
    destruct (emergencyBtn p), (lastEmergencyBtnState (ctl s)),
      (emergencyActive (ctl s)) eqn:Hact, (emergencyBtnAgain p); simpl;
      try done; rewrite ?Hact; try done; by destruct Hno as [?|[?|[?|?]]].
Qed.

Lemma handleButtons_display (p : Pins) (s : State) :
  let changed := negb (eqb (displayToggle p) (lastDisplayToggleState (ctl s))) in
  let since := if changed then u32 (toggleMillis p) else lastDebounceTime (ctl s) in
  lastDisplayToggleState (ctl (handleButtons p s)) = displayToggle p ∧
  lastDebounceTime (ctl (handleButtons p s)) = since ∧
  displayToggleState (ctl (handleButtons p s)) =
    if debounceDelay <? u32 (toggleMillis' p - since)
    then displayToggle p else displayToggleState (ctl s).
Proof.
  unfold handleButtons.
  destruct (switchManual_frame p (switchDisplay p (buttonEmergency p s)))
    as (_ & _ & _ & _ & -> & -> & -> & _).
  destruct (buttonEmergency_display p s) as (Hd1 & Hd2 & Hd3 & _).
  remember (buttonEmergency p s) as s0 eqn:Hs0. clear Hs0.
  unfold switchDisplay. simpl. by rewrite Hd1, Hd2, Hd3.
Qed.

(** X10.  Chatter on the display switch is filtered out: as long as the
    level read differs from the one read by the previous call and each call
    spends at most 50 ms between its two [millis()] readings, no number of
    calls of [handleButtons] changes [displayToggleState]. *)
Theorem display_switch_ignores_chatter (ps : list Pins) (s : State) :
  chatters (lastDisplayToggleState (ctl s)) ps →
  displayToggleState (ctl (pressAll ps s)) = displayToggleState (ctl s).
Proof.
  revert s. induction ps as [|p ps IH]; intros s Hch; [done |].
  destruct Hch as (Hne & Ht & Hrest). unfold pressAll. simpl.
  destruct (handleButtons_display p s) as (Hlast & _ & Hstate).
  fold (pressAll ps (handleButtons p s)).
  rewrite IH by by rewrite Hlast.
  rewrite Hstate.
  replace (eqb (displayToggle p) (lastDisplayToggleState (ctl s))) with false
    by (symmetry; by apply eqb_false_iff).
  simpl. rewrite u32_elapsed by lia.
  by rewrite (proj2 (Z.ltb_ge _ _)) by (unfold debounceDelay; lia).
Qed.

Lemma display_switch_ignores_chatter_witness :
  displayToggleState (ctl (pressAll bounce weekdayState)) =
  displayToggleState (ctl weekdayState).
Proof.
  apply (display_switch_ignores_chatter bounce weekdayState).
  simpl. repeat split; (discriminate || lia).
Defined.



(** X12.  The manual bell switch rings once per press and never touches
    the schedule.  A call of [handleButtons] that reads the switch low
    leaves it remembered as low, so the next call rings nothing, however
    long the switch is held; and no call changes the store or the file. *)
Theorem manual_switch_rings_once (p1 p2 : Pins) (s : State) :
  manualBell p1 = false →
  store (handleButtons p2 (handleButtons p1 s)) = store s ∧
  config (dev (handleButtons p2 (handleButtons p1 s))) = config (dev s) ∧
  ∃ evs,
    log (dev (handleButtons p2 (handleButtons p1 s))) =
      log (dev (handleButtons p1 s)) ++ evs ∧
    relayWrites evs = [].
Proof.
  intros Hlow.
  destruct (handleButtons_dev p1 s) as (Hst1 & Hcfg1 & _).
  destruct (handleButtons_dev p2 (handleButtons p1 s)) as (Hst2 & Hcfg2 & evs & Hlog & Hw).
  split; [by rewrite Hst2 |]. split; [by rewrite Hcfg2 |].
  exists evs. split; [done |]. rewrite Hw.
  unfold manualPressed.
  assert (Hl : lastManualBellState (ctl (handleButtons p1 s)) = false).
  { unfold handleButtons.
    destruct (switchManual_frame p1 (switchDisplay p1 (buttonEmergency p1 s)))
      as (_ & _ & _ & _ & _ & _ & _ & ->).
    done. }
  by rewrite Hl, andb_false_r.
Qed.

Lemma manual_switch_rings_once_witness :
  store (handleButtons manualPress (handleButtons manualPress weekdayState)) =
    store weekdayState ∧
  config (dev (handleButtons manualPress (handleButtons manualPress weekdayState))) =
    config (dev weekdayState) ∧
  ∃ evs,
    log (dev (handleButtons manualPress (handleButtons manualPress weekdayState))) =
      log (dev (handleButtons manualPress weekdayState)) ++ evs ∧
    relayWrites evs = [].
Proof.
  apply (manual_switch_rings_once manualPress manualPress weekdayState). reflexivity.
Defined.

(** ** The emergency pattern is never cut short *)

Lemma handleEmergency_stays_off (t t' : Z) (s : State) :
  emergencyActive (ctl (handleEmergency t t' s)) = true → emergencyActive (ctl s) = true.
Proof.
  unfold handleEmergency.
  destruct (emergencyPhase (ctl s) <? 9); [| done].
  destruct (emergencyPhase (ctl s) `rem` 2 =? 0);
    destruct (_ <=? u32 (t - emergencyStartTime (ctl s))); done.
Qed.

Section SessionTiming.

Variables (t t' : nat → Z) (T0 : Z).
Hypothesis first_tick : T0 ≤ t 0%nat ∧ t 0%nat - T0 < 2 ^ 32.
Hypothesis reads : ∀ k, t k ≤ t' k ≤ t (S k).
Hypothesis ticks : ∀ k, t k < t (S k).
Hypothesis gap : ∀ k, t (S k) - t k ≤ 2 ^ 32 - 5000.

Lemma session_not_early (k : nat) :
  T0 + phaseBegins (sessionAt t t' T0 k).1 ≤ (sessionAt t t' T0 k).2.
Proof.
  induction k as [|k IH]; [simpl; lia |].
  destruct (session_clock t t' T0 first_tick reads ticks gap k) as (Hr & Hle & _).
  destruct (sessionAt t t' T0 k) as [p since] eqn:Hk.
  rewrite (sessionAt_S t t' T0 k p since Hk). cbn [fst snd] in *.
  pose proof (reads k).
  destruct ((p <? 9) && (phaseDuration p <=? t k - since)) eqn:Hc; cbn [fst snd]; [| done].
  apply andb_true_iff in Hc as [Hp%Z.ltb_lt Hd%Z.leb_le].
  assert (Hcases : p = 0 ∨ p = 1 ∨ p = 2 ∨ p = 3 ∨ p = 4 ∨ p = 5 ∨ p = 6 ∨ p = 7 ∨ p = 8)
    by lia.
  destruct Hcases as [->|[->|[->|[->|[->|[->|[->|[->| ->]]]]]]]];
    simpl in *; lia.
Qed.

Variable s : State.
Hypothesis active0 : emergencyActive (ctl s) = true.
Hypothesis phase0 : emergencyPhase (ctl s) = 0.
Hypothesis start0 : emergencyStartTime (ctl s) = u32 T0.

Lemma run_active_before (k : nat) :
  emergencyActive (ctl (emergencyRun t t' k s)) = true →
  ∀ i, (i < k)%nat → (sessionAt t t' T0 i).1 < 9.
Proof.
  induction k as [|k IH]; intros Hact i Hi; [lia |].
  assert (Hactk : emergencyActive (ctl (emergencyRun t t' k s)) = true)
    by by apply (handleEmergency_stays_off (t k) (t' k)).
  specialize (IH Hactk).
  destruct (decide (i < k)%nat) as [Hlt|Hge]; [by apply IH |].
  replace i with k by lia.
  destruct (session_clock t t' T0 first_tick reads ticks gap k) as (Hr & _).
  destruct (decide ((sessionAt t t' T0 k).1 = 9)) as [H9|Hne]; [| lia].
  destruct (run_tick t t' T0 first_tick reads ticks gap s active0 phase0 start0 k IH)
    as (_ & _ & Hend).
  destruct (Hend H9) as [Hoff _]. congruence.
Qed.

End SessionTiming.

(** X13.  The emergency pattern is never cut short.  With a clock as in
    [emergency_session_completes], a tick that finds the session active in
    phase [p] comes no earlier than the durations of phases 0 to [p - 1]
    after the activation (5000 ms for each ON phase, 1000 ms for each OFF
    phase), and the tick that ends the session comes at least 29000 ms
    after the activation. *)
Theorem emergency_pattern_not_cut_short (t t' : nat → Z) (T0 : Z) (s : State) (k : nat) :
  emergencyActive (ctl s) = true →
  emergencyPhase (ctl s) = 0 →
  emergencyStartTime (ctl s) = u32 T0 →
  T0 ≤ t 0%nat ∧ t 0%nat - T0 < 2 ^ 32 →
  (∀ k, t k ≤ t' k ≤ t (S k)) →
  (∀ k, t k < t (S k)) →
  (∀ k, t (S k) - t k ≤ 2 ^ 32 - 5000) →
  emergencyActive (ctl (emergencyRun t t' k s)) = true →
  T0 + phaseBegins (emergencyPhase (ctl (emergencyRun t t' k s))) ≤ t k ∧
  (emergencyActive (ctl (emergencyRun t t' (S k) s)) = false → T0 + 29000 ≤ t k).
Proof.
  intros Hact Hph Hst Hfirst Hreads Hticks Hgap Hactk.
  pose proof (run_active_before t t' T0 Hfirst Hreads Hticks Hgap s Hact Hph Hst k Hactk)
    as Hbefore.
  destruct (run_follows t t' T0 Hfirst Hreads Hticks Hgap s Hact Hph Hst k Hbefore)
    as (_ & Hphk & Hstk).
  destruct (session_clock t t' T0 Hfirst Hreads Hticks Hgap k) as (Hr & Hle & Hlt).
  pose proof (session_not_early t t' T0 Hfirst Hreads Hticks Hgap k) as Hearly.
  assert (Hbegin : T0 + phaseBegins (emergencyPhase (ctl (emergencyRun t t' k s))) ≤ t k)
    by (rewrite Hphk; lia).
  split; [done |].
  intros Hoff.
  destruct (decide ((sessionAt t t' T0 k).1 = 9)) as [H9|Hne].
  - rewrite Hphk, H9 in Hbegin. exact Hbegin.
  - assert (Hel : (sessionAt t t' T0 k).1 < 9 →
                  0 ≤ t k - (sessionAt t t' T0 k).2 < 2 ^ 32) by (intros; lia).
    destruct (handleEmergency_step (t k) (t' k) (sessionAt t t' T0 k).2
                (sessionAt t t' T0 k).1 (emergencyRun t t' k s) Hactk Hphk Hstk Hr Hel)
      as (_ & _ & _ & _ & Hstep).
    destruct Hstep as [Hon _]; [lia |].
    change (emergencyRun t t' (S k) s)
      with (handleEmergency (t k) (t' k) (emergencyRun t t' k s)) in Hoff.
    congruence.
Qed.

Lemma emergency_pattern_not_cut_short_witness :
  0 + phaseBegins (emergencyPhase
        (ctl (emergencyRun every250ms every250ms 117 (activated 0)))) ≤ every250ms 117 ∧
  (emergencyActive (ctl (emergencyRun every250ms every250ms 118 (activated 0))) = false →
   0 + 29000 ≤ every250ms 117).
Proof.
  apply (emergency_pattern_not_cut_short every250ms every250ms 0 (activated 0) 117).
  - reflexivity.
  - reflexivity.
  - reflexivity.
  - unfold every250ms. simpl. lia.
  - intros k. unfold every250ms. lia.
  - intros k. unfold every250ms. lia.
  - intros k. unfold every250ms. lia.
  - vm_compute. reflexivity.
Defined.

(** ** The status screen *)

Lemma quot_rem_minutes (h m : Z) :
  0 ≤ h → 0 ≤ m < 60 → (h * 60 + m) `quot` 60 = h ∧ (h * 60 + m) `rem` 60 = m.
Proof.
  intros Hh Hm.
  rewrite Z.quot_div_nonneg, Z.rem_mod_nonneg by lia.
  split.
  - symmetry. apply (Z.div_unique _ _ h m); lia.
  - symmetry. apply (Z.mod_unique _ _ h m); lia.
Qed.

Lemma timeOk_spec (b : Bell) :
  timeOk b = true → 0 ≤ hour b ≤ 23 ∧ 0 ≤ minute b ≤ 59.
Proof.
  unfold timeOk. rewrite !andb_true_iff, !Z.leb_le. lia.
Qed.

Lemma searched_step (now : DateTime) (bs : list Bell) (b : Bell) (acc : Z * bool) :
  searched now bs acc →
  searched now (bs ++ [b])
    (if negb (triggeredToday b) && (dt_hour now * 60 + dt_minute now <? minutesOf b) &&
        (minutesOf b <? acc.1)
     then (minutesOf b, true) else acc).
Proof.
  destruct acc as [best found]. unfold searched. simpl.
  fold (upcoming now b).
  destruct (upcoming now b) eqn:Hup; simpl.
  - destruct (minutesOf b <? best) eqn:Hlt; simpl.
    + apply Z.ltb_lt in Hlt. destruct found.
      * intros (Hb & _ & Hmin). split; [lia |]. split.
        -- exists b. split; [| done]. apply elem_of_app. right. by apply list_elem_of_singleton.
        -- intros b' [Hin|Hin%list_elem_of_singleton]%elem_of_app Hup'.
           ++ specialize (Hmin b' Hin Hup'). lia.
           ++ subst b'. lia.
      * intros (-> & Hnone). split; [lia |]. split.
        -- exists b. split; [| done]. apply elem_of_app. right. by apply list_elem_of_singleton.
        -- intros b' [Hin|Hin%list_elem_of_singleton]%elem_of_app Hup'.
           ++ specialize (Hnone b' Hin Hup'). lia.
           ++ subst b'. lia.
    + apply Z.ltb_ge in Hlt. destruct found.
      * intros (Hb & (b0 & Hin0 & Hup0 & Hm0) & Hmin). split; [done |]. split.
        -- exists b0. split; [| done]. apply elem_of_app. by left.
        -- intros b' [Hin|Hin%list_elem_of_singleton]%elem_of_app Hup';
             [by apply Hmin | subst b'; lia].
      * intros (-> & Hnone). split; [done |].
        intros b' [Hin|Hin%list_elem_of_singleton]%elem_of_app Hup';
          [by apply Hnone | subst b'; lia].
  - destruct found.
    + intros (Hb & (b0 & Hin0 & Hup0 & Hm0) & Hmin). split; [done |]. split.
      * exists b0. split; [| done]. apply elem_of_app. by left.
      * intros b' [Hin|Hin%list_elem_of_singleton]%elem_of_app Hup';
          [by apply Hmin | subst b'; congruence].
    + intros (-> & Hnone). split; [done |].
      intros b' [Hin|Hin%list_elem_of_singleton]%elem_of_app Hup';
        [by apply Hnone | subst b'; congruence].
Qed.

Lemma findNextBell_searched (now : DateTime) (st : Store) :
  valid st = true → hasActive st = true →
  ∃ r, findNextBell now st = Some r ∧ searched now (activeBells st) r.
Proof.
  intros Hv Hact.
  destruct (hasActive_lookup st Hv Hact) as (Ha & p & Hp & Hl & Hc).
  unfold findNextBell, activeBells. rewrite Hact, Hp.
  rewrite at_index_lookup, Hp by lia. simpl.
  destruct (for_range_inv
    (λ k r, searched now (take (Z.to_nat k) (bells p)) r)
    0 (bellCount p)
    (λ i acc, nextBellStep (dt_hour now * 60 + dt_minute now) (activePresetIndex st) i st acc)
    (24 * 60, false)) as (r & Hrun & Hr).
  - lia.
  - unfold searched. simpl. split; [done |]. intros b Hb. by apply elem_of_nil in Hb.
  - intros k acc Hk Hacc.
    destruct (lookup_lt_is_Some_2 (bells p) (Z.to_nat k)) as [b Hb]; [lia |].
    unfold nextBellStep. rewrite at_index_lookup, Hp by lia. simpl.
    rewrite at_index_lookup, Hb by lia. simpl.
    exists (if negb (triggeredToday b) &&
                 (dt_hour now * 60 + dt_minute now <? minutesOf b) &&
                 (minutesOf b <? acc.1)
            then (minutesOf b, true) else acc).
    split.
    + fold (minutesOf b).
      destruct (negb (triggeredToday b) &&
                (dt_hour now * 60 + dt_minute now <? minutesOf b) &&
                (minutesOf b <? acc.1)); reflexivity.
    + replace (Z.to_nat (k + 1)) with (S (Z.to_nat k)) by lia.
      rewrite (take_S_r _ _ b Hb).
      by apply searched_step.
  - exists r. split; [done |]. exact Hr.
Qed.

(** X14.  The next-bell line of the status screen.  With every bell of the
    active preset at a time [handleAddBell] accepts, [updateDisplay] shows
    [No active preset] exactly when no preset is active, [No more bells]
    exactly when no bell of the active preset is both unrung and later than
    the clock's hour and minute, and otherwise the hour and minute of such a
    bell than which none is earlier. *)
Theorem next_bell_line (now : DateTime) (st : Store) :
  valid st = true →
  Forall (λ b, timeOk b = true) (activeBells st) →
  ∃ line, nextLine now st = Some line ∧ describes now st line.
Proof.
  intros Hv Htimes. unfold nextLine. fold (hasActive st).
  destruct (hasActive st) eqn:Hact; [| by exists NoActivePreset].
  destruct (findNextBell_searched now st Hv Hact) as ([best found] & -> & Hr).
  simpl. eexists. split; [reflexivity |].
  assert (Hlate : ∀ b, b ∈ activeBells st → minutesOf b < 1440 ∧ 0 ≤ hour b ∧ 0 ≤ minute b < 60).
  { intros b Hb. rewrite Forall_forall in Htimes.
    destruct (timeOk_spec b (Htimes b Hb)). unfold minutesOf. lia. }
  unfold searched in Hr. simpl in Hr. destruct found; simpl.
  - destruct Hr as (Hb & (b & Hin & Hup & Hm) & Hmin).
    split; [done |]. exists b. split; [done |]. split; [done |].
    destruct (Hlate b Hin) as (_ & Hh & Hmm).
    destruct (quot_rem_minutes (hour b) (minute b) Hh Hmm) as [Hq Hrm].
    unfold minutesOf in Hm. rewrite <- Hm, Hq, Hrm.
    split; [done |]. split; [done |].
    intros b' Hin' Hup'. fold (minutesOf b) in Hm. rewrite Hm. by apply Hmin.
  - destruct Hr as (-> & Hnone). split; [done |].
    intros b Hin. destruct (upcoming now b) eqn:Hup; [| done].
    specialize (Hnone b Hin Hup). destruct (Hlate b Hin). lia.
Qed.

Lemma next_bell_line_witness :
  ∃ line, nextLine eightOClock (store rungState) = Some line ∧
          describes eightOClock (store rungState) line.
Proof.
  apply (next_bell_line eightOClock (store rungState)).
  - reflexivity.
  - repeat constructor.
Defined.

Example next_bell_scenario :
  nextLine eightOClock (store rungState) = Some (NextAt 12 30) ∧
  nextLine (mkDateTime 2024 1 5 12 30 0) (store rungState) = Some NoMoreBells ∧
  nextLine eightOClock initStore = Some NoActivePreset.
Proof. repeat split; vm_compute; reflexivity. Qed.

(** ** The document never outgrows its pool *)

Lemma addSlot_spec (room : Z) :
  0 ≤ room →
  0 ≤ (addSlot room).2 ∧
  (addSlot room).2 = room - (if (addSlot room).1 then JSON_SLOT else 0) ∧
  ((addSlot room).1 = false → room < JSON_SLOT).
Proof.
  intros Hr. unfold addSlot, JSON_SLOT.
  destruct (Z.leb_spec 16 room); simpl; repeat split; try lia; done.
Qed.

Lemma addSlot_full (room : Z) : room < JSON_SLOT → addSlot room = (false, room).
Proof. intros H. unfold addSlot. by rewrite (proj2 (Z.leb_gt _ _)). Qed.

Lemma setMember_spec {A} (key : string) (v : A) (room : Z) :
  0 ≤ room →
  0 ≤ (setMember v room).2 ∧
  (setMember v room).2 = room - memberSize false key (setMember v room).1.
Proof.
  intros Hr. unfold setMember, addSlot, memberSize, keySize, JSON_SLOT.
  destruct (Z.leb_spec 16 room); simpl; lia.
Qed.

Lemma setMember_full {A} (v : A) (room : Z) :
  room < JSON_SLOT → setMember v room = (None, room).
Proof. intros H. unfold setMember. by rewrite addSlot_full. Qed.

Lemma setString_spec (key v : string) (room : Z) :
  0 ≤ room →
  0 ≤ (setString v room).2 ∧
  (setString v room).2 = room - textSize false key (setString v room).1.
Proof.
  intros Hr. unfold setString, addSlot, textSize, keySize, JSON_SLOT.
  destruct (Z.leb_spec 16 room); simpl; [| lia].
  destruct (Z.leb_spec (stringSize v) (room - 16)); simpl; lia.
Qed.

Lemma setString_full (v : string) (room : Z) :
  room < JSON_SLOT → setString v room = (Absent, room).
Proof. intros H. unfold setString. by rewrite addSlot_full. Qed.

(** What an element costs: its slot and its members, or nothing when it
    was refused. *)
Lemma bellObj_spec (b : Bell) (room : Z) :
  0 ≤ room →
  0 ≤ (bellObj b room).2 ∧
  (bellObj b room).2 =
    room - from_option (λ o, JSON_SLOT + bellSize false o) 0 (bellObj b room).1.
Proof.
  intros Hr. unfold bellObj.
  destruct (addSlot_spec room Hr) as (H1 & E1 & F1).
  destruct (addSlot room) as [obj r1]. simpl in *.
  destruct obj.
  - destruct (setMember_spec "hour" (hour b) r1 H1) as [H2 E2].
    destruct (setMember (hour b) r1) as [h r2]. simpl in *.
    destruct (setMember_spec "minute" (minute b) r2 H2) as [H3 E3].
    destruct (setMember (minute b) r2) as [m r3]. simpl in *.
    destruct (setMember_spec "triggered" (triggeredToday b) r3 H3) as [H4 E4].
    destruct (setMember (triggeredToday b) r3) as [t r4]. simpl in *.
    unfold bellSize. simpl. lia.
  - specialize (F1 eq_refl). assert (r1 = room) as -> by lia.
    rewrite !setMember_full by done. simpl. lia.
Qed.

Lemma insertAll_spec {A B} (ins : A → Z → option B * Z) (size : B → Z)
    (l : list A) (room : Z) :
  (∀ x r, 0 ≤ r →
     0 ≤ (ins x r).2 ∧
     (ins x r).2 = r - from_option (λ o, JSON_SLOT + size o) 0 (ins x r).1) →
  0 ≤ room →
  0 ≤ (insertAll ins l room).2 ∧
  (insertAll ins l room).2 =
    room - foldr (λ o z, JSON_SLOT + size o + z) 0 (insertAll ins l room).1.
Proof.
  intros Hins. revert room. induction l as [|x l IH]; intros room Hr.
  { simpl. lia. }
  change (insertAll ins (x :: l) room) with
    (let r := ins x room in let rs := insertAll ins l r.2 in (option_list r.1 ++ rs.1, rs.2)).
  cbv zeta. cbn [fst snd].
  destruct (Hins x room Hr) as [H1 E1].
  destruct (IH (ins x room).2 H1) as [H2 E2].
  split; [done |]. rewrite foldr_app, E2, E1.
  destruct (ins x room).1 as [o|]; simpl; lia.
Qed.

Lemma insertAll_full {A B} (ins : A → Z → option B * Z) (l : list A) (room : Z) :
  (∀ x, ins x room = (None, room)) → insertAll ins l room = ([], room).
Proof.
  intros Hins. induction l as [|x l IH]; [done |].
  change (insertAll ins (x :: l) room) with
    (let r := ins x room in let rs := insertAll ins l r.2 in (option_list r.1 ++ rs.1, rs.2)).
  cbv zeta. rewrite Hins. cbn [fst snd]. by rewrite IH.
Qed.

Lemma bellObj_full (b : Bell) (room : Z) : room < JSON_SLOT → bellObj b room = (None, room).
Proof.
  intros H. unfold bellObj. rewrite addSlot_full by done.
  by rewrite !setMember_full by done.
Qed.

Lemma presetIn_spec (p : Preset) (room : Z) :
  0 ≤ room →
  0 ≤ (presetIn p room).2 ∧
  (presetIn p room).2 =
    room - from_option (λ o, JSON_SLOT + presetSize false o) 0 (presetIn p room).1.
Proof.
  intros Hr. unfold presetIn.
  destruct (addSlot_spec room Hr) as (H1 & E1 & F1).
  destruct (addSlot room) as [obj r1]. simpl in *.
  destruct obj.
  - destruct (setString_spec "name" (name p) r1 H1) as [H2 E2].
    destruct (setString (name p) r1) as [nm r2]. simpl in *.
    destruct (setMember_spec "bellCount" (bellCount p) r2 H2) as [H3 E3].
    destruct (setMember (bellCount p) r2) as [bc r3]. simpl in *.
    destruct (addSlot_spec r3 H3) as (H4 & E4 & F4).
    destruct (addSlot r3) as [arr r4]. simpl in *.
    destruct arr.
    + destruct (insertAll_spec bellObj (bellSize false) (bellsOf p) r4 bellObj_spec H4)
        as [H5 E5].
      split; [done |]. unfold presetSize, arraySize, keySize. simpl. lia.
    + specialize (F4 eq_refl). assert (r4 = r3) as -> by lia.
      rewrite insertAll_full by (intros; by apply bellObj_full).
      unfold presetSize, arraySize. simpl. lia.
  - specialize (F1 eq_refl). assert (r1 = room) as -> by lia.
    rewrite setString_full, setMember_full, addSlot_full by done.
    rewrite insertAll_full by (intros; by apply bellObj_full).
    simpl. lia.
Qed.

Lemma presetIn_full (p : Preset) (room : Z) : room < JSON_SLOT → presetIn p room = (None, room).
Proof.
  intros H. unfold presetIn.
  rewrite addSlot_full, setString_full, setMember_full, addSlot_full by done.
  by rewrite insertAll_full by (intros; by apply bellObj_full).
Qed.

Lemma docOf_size (st : Store) : docSize false (docOf st) ≤ JSON_CAPACITY.
Proof.
  unfold docOf.
  assert (H0 : 0 ≤ JSON_CAPACITY) by done.
  destruct (setMember_spec "presetCount" (presetCount st) _ H0) as [H1 E1].
  destruct (setMember (presetCount st) JSON_CAPACITY) as [pc r1]. simpl in *.
  destruct (setMember_spec "activePreset" (activePresetIndex st) r1 H1) as [H2 E2].
  destruct (setMember (activePresetIndex st) r1) as [ap r2]. simpl in *.
  destruct (setMember_spec "bellDuration" (bellDuration st) r2 H2) as [H3 E3].
  destruct (setMember (bellDuration st) r2) as [bd r3]. simpl in *.
  destruct (addSlot_spec r3 H3) as (H4 & E4 & F4).
  destruct (addSlot r3) as [arr r4]. simpl in *.
  unfold docSize. simpl. destruct arr.
  - destruct (insertAll_spec presetIn (presetSize false) (counted st) r4 presetIn_spec H4)
      as [H5 E5].
    unfold arraySize, keySize. lia.
  - unfold arraySize. lia.
Qed.

(** X16.  What [saveData] writes for a valid store never takes more than
    the 8192 bytes of its document, and it is the whole document of the
    store (every preset in use with every bell in use) exactly when that
    document fits: for a store that needs more, presets or bells are
    missing from the file, and [saveData] gives no sign of it. *)
Theorem saved_whole_iff_fits (s : State) :
  valid (store s) = true →
  fsOk (dev s) = true →
  ∃ s1 d,
    saveData s = Some s1 ∧
    config (dev s1) = Json d ∧
    store s1 = store s ∧
    log (dev s1) = log (dev s) ++ [EvSave d] ∧
    docSize false d ≤ JSON_CAPACITY ∧
    (d = fullDoc (store s) ↔ docSize false (fullDoc (store s)) ≤ JSON_CAPACITY).
Proof.
  intros Hv Hok. exists (persist s), (docOf (store s)).
  split; [by apply saveData_valid |].
  split; [by apply persist_config |].
  split; [apply store_persist |].
  split; [by rewrite persist_log, Hok |].
  split; [apply docOf_size |].
  split.
  - intros <-. apply docOf_size.
  - intros Hfit. apply docOf_fits. unfold fitsSave. by apply Z.leb_le.
Qed.

Lemma saved_whole_iff_fits_witness :
  ∃ s1 d,
    saveData fullState = Some s1 ∧
    config (dev s1) = Json d ∧
    store s1 = store fullState ∧
    log (dev s1) = log (dev fullState) ++ [EvSave d] ∧
    docSize false d ≤ JSON_CAPACITY ∧
    (d = fullDoc (store fullState) ↔
     docSize false (fullDoc (store fullState)) ≤ JSON_CAPACITY).
Proof.
  apply (saved_whole_iff_fits fullState); reflexivity.
Defined.
